(** * chi::Allocator, chi::StdAllocator and chi::FutureAllocator (allocator.h)

    A shallow embedding of the three class templates of [allocator.h] and the
    properties of the buffer they manage.  The object fields, the heap
    blocks obtained from [::malloc], the placement constructions and the
    explicit destructor calls are all part of the state; every member
    function is a total function from states to outcomes. *)

From Stdlib Require Import ZArith Lia Bool String List Sorted.
From Stdlib Require Import SpecFloat.
From stdpp Require Import base option list gmap.

Local Open Scope Z_scope.

(** ** What the headers outside [allocator.h] supply *)

(** [int.h] declares [Size], an unsigned integer type; its width is a
    parameter.  So is the width of [size_t], the type of [sizeof(T)] and of
    the argument of [::malloc]; [Size], which counts the elements of one
    block, is taken to be no wider than [size_t].  [NDEBUG] is the build
    flag tested by [free].
    Modelled from the spec: [exception.h], which defines [CHI_ASSERT], is not
    among the sources.  The contract-checking facility halts with the
    diagnostic in debug builds and is a no-op in optimised builds; whether it
    halts when its first argument is true or when it is false is the field
    [CHI_ASSERT_halts_on]. *)
Class Platform := {
  Size_bits : positive;
  size_t_bits : positive;
  Size_within_size_t : (Size_bits <=? size_t_bits)%positive = true;
  NDEBUG : bool;
  CHI_ASSERT_halts_on : bool
}.

(** The element type: what [T()] yields and [sizeof(T)].  [T(x)] yields a
    copy of [x]. *)
Class Element (T : Type) := {
  T_default : T;
  sizeof_T : positive
}.

Section SizeArith.
Context `{Platform}.

Definition Size_modulus : Z := 2 ^ Z.pos Size_bits.

Definition size_t_modulus : Z := 2 ^ Z.pos size_t_bits.

(** Unsigned arithmetic on [Size] wraps around. *)
Definition size_add (a b : Z) : Z := (a + b) mod Size_modulus.
Definition size_sub (a b : Z) : Z := (a - b) mod Size_modulus.

(** [count * sizeof(T)], the byte count handed to [::malloc]: the product
    of a [Size] and a [size_t] is computed in their common type, which has
    the width of [size_t], and wraps around there. *)
Definition size_mul (a b : Z) : Z := (a * b) mod size_t_modulus.

Definition is_Size (a : Z) : Prop := 0 <= a < Size_modulus.

Definition CHI_ASSERT (cond : bool) (msg : string) : option string :=
  if NDEBUG then None
  else if Bool.eqb cond CHI_ASSERT_halts_on then Some msg else None.
End SizeArith.

(** ** Single-precision floats: the type of [multiplier] *)
Module Float32.
Definition prec : Z := 24.
Definition emax : Z := 128.

Definition float : Type := spec_float.

(** The literals [1.0] and [1.5]. *)
Definition one : float := S754_finite false 8388608 (-23).
Definition one_and_a_half : float := S754_finite false 12582912 (-23).

(** Conversion of a [Size] operand to [float] (round to nearest even). *)
Definition of_Size (n : Z) : float := binary_normalize prec emax n 0 false.

Definition mul (x y : float) : float := SFmul prec emax x y.
Definition ltb (x y : float) : bool := SFltb x y.

(** Conversion back to [Size] truncates toward zero; a value that the
    destination cannot represent has no defined result. *)
Definition to_Size `{Platform} (x : float) : option Z :=
  match x with
  | S754_zero _ => Some 0
  | S754_finite s m e =>
      let t := Z.shiftl (Z.pos m) e in
      if s then (if t =? 0 then Some 0 else None)
      else if t <? Size_modulus then Some t else None
  | _ => None
  end.

(** The expression [multiplier * count] assigned to a [Size]. *)
Definition scale `{Platform} (multiplier : float) (count : Z) : option Z :=
  to_Size (mul multiplier (of_Size count)).
End Float32.

(** ** Pointers, heap blocks and the trace of what happens to them *)

(** A [T*] is null, the all-ones value [(T* )-1] that debug builds store on
    [free], or the start of a block returned by [::malloc]. *)
Inductive pointer :=
| Null
| MinusOne
| Blk (b : positive).

Definition pointer_eqb (p q : pointer) : bool :=
  match p, q with
  | Null, Null => true
  | MinusOne, MinusOne => true
  | Blk a, Blk b => Pos.eqb a b
  | _, _ => false
  end.

Inductive event (T : Type) :=
| EvMalloc (bytes : Z) (b : positive)
| EvFree (b : positive)
| EvConstruct (b : positive) (i : Z) (v : T)
| EvDestruct (b : positive) (i : Z).
Arguments EvMalloc {T}.
Arguments EvFree {T}.
Arguments EvConstruct {T}.
Arguments EvDestruct {T}.

(** A block is a number of raw bytes and the objects currently alive in it,
    keyed by element index. *)
Record block (T : Type) := { bytes : Z; cells : gmap Z T }.
Arguments bytes {T}.
Arguments cells {T}.

Record World (T : Type) := {
  heap : gmap positive (block T);
  trace : list (event T)
}.
Arguments heap {T}.
Arguments trace {T}.

Section Memory.
Context {T : Type} `{Element T}.

Definition empty_world : World T := {| heap := ∅; trace := [] |}.

(** [::malloc(n)]: [ok] says whether the heap satisfies the request.  A
    null result leaves the world as it was. *)
Definition malloc (ok : bool) (n : Z) (w : World T) : pointer * World T :=
  if ok then
    let b := fresh (dom (heap w)) in
    (Blk b, {| heap := <[b := {| bytes := n; cells := ∅ |}]> (heap w);
               trace := trace w ++ [EvMalloc n b] |})
  else (Null, w).

(** [::free(p)]: nothing for a null pointer, release of a live block,
    undefined otherwise. *)
Definition c_free (p : pointer) (w : World T) : option (World T) :=
  match p with
  | Null => Some w
  | MinusOne => None
  | Blk b =>
      match heap w !! b with
      | Some _ => Some {| heap := delete b (heap w);
                          trace := trace w ++ [EvFree b] |}
      | None => None
      end
  end.

(** [p[i]] read as an rvalue. *)
Definition read (p : pointer) (i : Z) (w : World T) : option T :=
  match p with
  | Blk b => blk ← heap w !! b; cells blk !! i
  | _ => None
  end.

(** [new (p + i) T(v)]: the slot must lie inside the block. *)
Definition placement_new (p : pointer) (i : Z) (v : T) (w : World T)
  : option (World T) :=
  match p with
  | Blk b =>
      blk ← heap w !! b;
      if (0 <=? i) && ((i + 1) * Z.pos sizeof_T <=? bytes blk) then
        Some {| heap := <[b := {| bytes := bytes blk;
                                  cells := <[i := v]> (cells blk) |}]> (heap w);
                trace := trace w ++ [EvConstruct b i v] |}
      else None
  | _ => None
  end.

(** [p[i].~T()]: the object must be alive. *)
Definition destroy (p : pointer) (i : Z) (w : World T) : option (World T) :=
  match p with
  | Blk b =>
      blk ← heap w !! b;
      _ ← cells blk !! i;
      Some {| heap := <[b := {| bytes := bytes blk;
                                cells := delete i (cells blk) |}]> (heap w);
              trace := trace w ++ [EvDestruct b i] |}
  | _ => None
  end.

(** [for (i = from; ...; i++) new (p + i) T(src(i))], [n] iterations. *)
Fixpoint construct_loop (p : pointer) (src : Z -> World T -> option T)
    (from : Z) (n : nat) (w : World T) : option (World T) :=
  match n with
  | O => Some w
  | S n' =>
      v ← src from w;
      w' ← placement_new p from v w;
      construct_loop p src (from + 1) n' w'
  end.

(** [for (i = from; ...; i++) p[i].~T()], [n] iterations. *)
Fixpoint destruct_up (p : pointer) (from : Z) (n : nat) (w : World T)
  : option (World T) :=
  match n with
  | O => Some w
  | S n' => w' ← destroy p from w; destruct_up p (from + 1) n' w'
  end.

(** [for (; ...; c--) p[c - 1].~T()], [n] iterations starting at [c = top]. *)
Fixpoint destruct_down (p : pointer) (top : Z) (n : nat) (w : World T)
  : option (World T) :=
  match n with
  | O => Some w
  | S n' => w' ← destroy p (top - 1) w; destruct_down p (top - 1) n' w'
  end.
End Memory.

(** ** Outcomes of a member function *)

(** A call returns, leaves by an [AllocException] (with the state the
    exception leaves behind), is halted by [CHI_ASSERT] with its diagnostic,
    or has no defined behaviour. *)
Inductive outcome (S : Type) :=
| Returns (s : S)
| Throws (s : S)
| Halts (msg : string)
| Undefined.
Arguments Returns {S}.
Arguments Throws {S}.
Arguments Halts {S}.
Arguments Undefined {S}.

Definition outcome_map {S S'} (f : S -> S') (o : outcome S) : outcome S' :=
  match o with
  | Returns s => Returns (f s)
  | Throws s => Throws (f s)
  | Halts msg => Halts msg
  | Undefined => Undefined
  end.

(** The four overloads of [allocate] differ in the initialiser [INIT] of
    the macro [ONE_ALLOCATE]: [T()], [T(def_val)], and [T(copy[i])] for a
    pointer or a [List<T>]; [copy] is given by the elements readable through
    it. *)
Inductive Init (T : Type) :=
| Init_default
| Init_fill (def_val : T)
| Init_ptr (copy : list T)
| Init_List (copy : list T).
Arguments Init_default {T}.
Arguments Init_fill {T}.
Arguments Init_ptr {T}.
Arguments Init_List {T}.

Definition init_value {T} `{Element T} (init : Init T) (i : Z) : option T :=
  match init with
  | Init_default => Some T_default
  | Init_fill v => Some v
  | Init_ptr copy | Init_List copy =>
      if 0 <=? i then copy !! Z.to_nat i else None
  end.

(** ** StdAllocator *)

Record StdAllocator := { __ptr : pointer; _count : Z; _cap : Z }.

Module Std.
Section Std.
Context `{Platform} {T : Type} `{Element T}.

Definition state : Type := StdAllocator * World T.

(** [StdAllocator() : __ptr(0), _count(0), _cap(0)]. *)
Definition new : StdAllocator := {| __ptr := Null; _count := 0; _cap := 0 |}.

Definition allocate (init : Init T) (count : Z) (ok : bool) (st : state)
  : outcome state :=
  let '(this, w) := st in
  match CHI_ASSERT (negb (pointer_eqb (__ptr this) Null)
                    && negb (pointer_eqb (__ptr this) MinusOne))
          "Allocating with StdAllocator while already allocated, this is a memory leak" with
  | Some msg => Halts msg
  | None =>
      if count =? 0 then
        Returns ({| __ptr := Null; _count := count; _cap := _cap this |}, w)
      else
        let '(ptr, w1) := malloc ok (size_mul count (Z.pos sizeof_T)) w in
        match ptr with
        | Null => Throws (this, w1)
        | _ =>
            match construct_loop ptr (fun i _ => init_value init i) 0 (Z.to_nat count) w1 with
            | None => Undefined
            | Some w2 =>
                Returns ({| __ptr := ptr; _count := count; _cap := _cap this |}, w2)
            end
        end
  end.

Definition capacity (this : StdAllocator) : Z := _cap this.
Definition count (this : StdAllocator) : Z := _count this.
Definition _ptr (this : StdAllocator) : pointer := __ptr this.

Definition destruct (st : state) : option state :=
  let '(this, w) := st in
  w' ← destruct_up (__ptr this) 0 (Z.to_nat (_count this)) w;
  Some (this, w').

Definition free (st : state) : outcome state :=
  match CHI_ASSERT (pointer_eqb (__ptr (fst st)) MinusOne)
          "Double free in StdAllocator" with
  | Some msg => Halts msg
  | None =>
      match destruct st with
      | None => Undefined
      | Some (this, w1) =>
          match c_free (__ptr this) w1 with
          | None => Undefined
          | Some w2 =>
              Returns ({| __ptr := if NDEBUG then __ptr this else MinusOne;
                          _count := _count this; _cap := _cap this |}, w2)
          end
      end
  end.

Definition _grow (increment : Z) (ok : bool) (st : state) : outcome state :=
  let '(this, w) := st in
  let new_size := size_add (_count this) increment in
  let '(new_ptr, w1) := malloc ok (size_mul new_size (Z.pos sizeof_T)) w in
  match new_ptr with
  | Null => Throws (this, w1)
  | _ =>
      let n := Z.to_nat (_count this) in
      match
        w2 ← construct_loop new_ptr (read (__ptr this)) 0 n w1;
        w3 ← destruct_up (__ptr this) 0 n w2;
        w4 ← c_free (__ptr this) w3;
        construct_loop new_ptr (fun _ _ => Some T_default) (_count this)
          (Z.to_nat (new_size - _count this)) w4
      with
      | None => Undefined
      | Some w5 =>
          Returns ({| __ptr := new_ptr;
                      _count := Z.max (_count this) new_size;
                      _cap := new_size |}, w5)
      end
  end.

Definition _shrink (decrement : Z) (st : state) : outcome state :=
  let '(this, w) := st in
  let new_count := size_sub (_count this) decrement in
  match destruct_down (__ptr this) (_count this)
          (Z.to_nat (_count this - new_count)) w with
  | None => Undefined
  | Some w' =>
      Returns ({| __ptr := __ptr this;
                  _count := Z.min (_count this) new_count;
                  _cap := _cap this |}, w')
  end.
End Std.
End Std.

(** ** FutureAllocator *)

Record FutureAllocator := {
  base : StdAllocator;
  multiplier : Float32.float
}.

Module Future.
Section Future.
Context `{Platform} {T : Type} `{Element T}.

Definition state : Type := FutureAllocator * World T.

Definition with_base (this : FutureAllocator) (b : StdAllocator) : FutureAllocator :=
  {| base := b; multiplier := multiplier this |}.

(** Run a member inherited from [StdAllocator] on the base sub-object. *)
Definition inherited (f : Std.state -> outcome Std.state) (st : state)
  : outcome state :=
  outcome_map (fun '(b, w) => (with_base (fst st) b, w)) (f (base (fst st), snd st)).

(** [FutureAllocator( float multiplier = 1.5 )]. *)
Definition new (multiplier : Float32.float) : outcome FutureAllocator :=
  match CHI_ASSERT (Float32.ltb multiplier Float32.one)
          "Multiplier should not be less than 1." with
  | Some msg => Halts msg
  | None => Returns {| base := Std.new; multiplier := multiplier |}
  end.

Definition allocate (init : Init T) (count : Z) (ok : bool) (st : state)
  : outcome state :=
  let '(this, w) := st in
  match Float32.scale (multiplier this) count with
  | None => Undefined
  | Some cap =>
      let this1 := with_base this
        {| __ptr := __ptr (base this); _count := _count (base this); _cap := cap |} in
      if count =? 0 then
        Returns (with_base this {| __ptr := Null; _count := count; _cap := cap |}, w)
      else
        let '(ptr, w1) := malloc ok (size_mul cap (Z.pos sizeof_T)) w in
        match ptr with
        | Null => Throws (this1, w1)
        | _ =>
            match construct_loop ptr (fun i _ => init_value init i) 0 (Z.to_nat count) w1 with
            | None => Undefined
            | Some w2 =>
                Returns (with_base this {| __ptr := ptr; _count := count; _cap := cap |}, w2)
            end
        end
  end.

Definition capacity (this : FutureAllocator) : Z := Std.capacity (base this).
Definition count (this : FutureAllocator) : Z := Std.count (base this).
Definition _ptr (this : FutureAllocator) : pointer := Std._ptr (base this).
Definition free : state -> outcome state := inherited Std.free.
Definition _shrink (decrement : Z) : state -> outcome state :=
  inherited (Std._shrink decrement).

Definition _grow (increment : Z) (ok : bool) (st : state) : outcome state :=
  let '(this, w) := st in
  let b := base this in
  let new_size := size_add (_count b) increment in
  let finish (ptr : pointer) (cap : Z) (w4 : World T) : outcome state :=
    match construct_loop ptr (fun _ _ => Some T_default) (_count b)
            (Z.to_nat (new_size - _count b)) w4 with
    | None => Undefined
    | Some w5 =>
        Returns (with_base this {| __ptr := ptr;
                                   _count := Z.max (_count b) new_size;
                                   _cap := cap |}, w5)
    end in
  if _cap b <? new_size then
    match Float32.scale (multiplier this) new_size with
    | None => Undefined
    | Some new_capacity =>
        let '(new_ptr, w1) := malloc ok (size_mul new_capacity (Z.pos sizeof_T)) w in
        match new_ptr with
        | Null => Throws (this, w1)
        | _ =>
            let n := Z.to_nat (_count b) in
            match
              w2 ← construct_loop new_ptr (read (__ptr b)) 0 n w1;
              w3 ← destruct_up (__ptr b) 0 n w2;
              c_free (__ptr b) w3
            with
            | None => Undefined
            | Some w4 => finish new_ptr new_capacity w4
            end
        end
    end
  else finish (__ptr b) (_cap b) w.
End Future.
End Future.

(** ** The Allocator interface and the members it implements itself *)

Class Allocator `{Platform} (T : Type) `{Element T} (A : Type) := {
  allocate : Init T -> Z -> bool -> A * World T -> outcome (A * World T);
  capacity : A -> Z;
  count : A -> Z;
  free : A * World T -> outcome (A * World T);
  _grow : Z -> bool -> A * World T -> outcome (A * World T);
  _ptr : A -> pointer;
  _shrink : Z -> A * World T -> outcome (A * World T)
}.

#[export] Instance StdAllocator_Allocator `{Platform} {T} `{Element T}
  : Allocator T StdAllocator := {|
  allocate := Std.allocate;
  capacity := Std.capacity;
  count := Std.count;
  free := Std.free;
  _grow := Std._grow;
  _ptr := Std._ptr;
  _shrink := Std._shrink
|}.

#[export] Instance FutureAllocator_Allocator `{Platform} {T} `{Element T}
  : Allocator T FutureAllocator := {|
  allocate := Future.allocate;
  capacity := Future.capacity;
  count := Future.count;
  free := Future.free;
  _grow := Future._grow;
  _ptr := Future._ptr;
  _shrink := Future._shrink
|}.

Section Interface.
Context `{Platform} {T : Type} `{Element T} {A : Type} `{!Allocator T A}.

Definition grow (increment : Z) (ok : bool) (st : A * World T) :=
  _grow increment ok st.

Definition shrink (decrement : Z) (st : A * World T) :=
  _shrink decrement st.

Definition ptr (this : A) : pointer := _ptr this.

Definition resize (c : Z) (ok : bool) (st : A * World T) : outcome (A * World T) :=
  if count (fst st) <? c then grow (size_sub c (count (fst st))) ok st
  else if c <? count (fst st) then shrink (size_sub (count (fst st)) c) st
  else Returns st.

(** [operator[]]: the element [ptr()[index]]. *)
Definition at_index (index : Z) (st : A * World T) : option T :=
  read (ptr (fst st)) index (snd st).
End Interface.

(** ** Vocabulary for stating what the loops do *)

(** The indices [from, from + 1, ...], [n] of them. *)
Fixpoint Zseq (from : Z) (n : nat) : list Z :=
  match n with
  | O => []
  | S n' => from :: Zseq (from + 1) n'
  end.

Section Vocabulary.
Context {T : Type}.

Definition upd_cells (f : gmap Z T -> gmap Z T) (blk : block T) : block T :=
  {| bytes := bytes blk; cells := f (cells blk) |}.

(** The objects [vs] placed at consecutive indices starting at [from]. *)
Fixpoint write_cells (from : Z) (vs : list T) (c : gmap Z T) : gmap Z T :=
  match vs with
  | [] => c
  | v :: vs' => write_cells (from + 1) vs' (<[from := v]> c)
  end.

(** The objects at [from .. from + n - 1] gone. *)
Fixpoint remove_range (from : Z) (n : nat) (c : gmap Z T) : gmap Z T :=
  match n with
  | O => c
  | S n' => remove_range (from + 1) n' (delete from c)
  end.

Fixpoint constructs (b : positive) (from : Z) (vs : list T) : list (event T) :=
  match vs with
  | [] => []
  | v :: vs' => EvConstruct b from v :: constructs b (from + 1) vs'
  end.

(** Indices of the constructor calls of a piece of trace, in order. *)
Definition constructed (evs : list (event T)) : list Z :=
  omap (fun e => match e with EvConstruct _ i _ => Some i | _ => None end) evs.

(** Indices of the destructor calls of a piece of trace, in order. *)
Definition destructed (evs : list (event T)) : list Z :=
  omap (fun e => match e with EvDestruct _ i => Some i | _ => None end) evs.

(** Number of heap blocks acquired in a piece of trace. *)
Definition acquisitions (evs : list (event T)) : nat :=
  length (omap (fun e => match e with EvMalloc _ b => Some b | _ => None end) evs).

(** A source of initialisers that does not look at block [b]. *)
Definition ignores (b : positive) (src : Z -> World T -> option T) : Prop :=
  forall i w1 w2,
    (forall b', b' <> b -> heap w1 !! b' = heap w2 !! b') ->
    src i w1 = src i w2.

(** [footprint evs cs ds m]: the constructor calls of [evs] hit the
    indices [cs], its destructor calls the indices [ds], and it acquires
    [m] blocks. *)
Definition footprint (evs : list (event T)) (cs ds : list Z) (m : nat) : Prop :=
  constructed evs = cs /\ destructed evs = ds /\ acquisitions evs = m.

(** [extends w w' cs ds m]: [w'] continues the trace of [w] by events with
    that footprint. *)
Definition extends (w w' : World T) (cs ds : list Z) (m : nat) : Prop :=
  exists evs, trace w' = trace w ++ evs /\ footprint evs cs ds m.

(** The cells of a block whose live objects are exactly [vs], from index
    0 on. *)
Definition cells_of (vs : list T) : gmap Z T := write_cells 0 vs ∅.

(** The buffer of [this] holds the live elements [vs] and nothing else. *)
Definition holds (this : StdAllocator) (w : World T) (vs : list T) : Prop :=
  _count this = Z.of_nat (length vs) /\
  match __ptr this with
  | Null => vs = []
  | MinusOne => False
  | Blk b => exists blk, heap w !! b = Some blk /\ cells blk = cells_of vs
  end.
End Vocabulary.

(** The block of [this] has room for [_cap] elements (none without a
    block). *)
Definition roomy {T} `{Element T} (this : StdAllocator) (w : World T) : Prop :=
  match __ptr this with
  | Null => _cap this = 0
  | MinusOne => True
  | Blk b => forall blk, heap w !! b = Some blk ->
               _cap this * Z.pos sizeof_T <= bytes blk
  end.

(** ** Sequences of calls *)

Inductive Op (T : Type) :=
| OpAllocate (init : Init T) (count : Z) (ok : bool)
| OpGrow (increment : Z) (ok : bool)
| OpShrink (decrement : Z)
| OpResize (count : Z) (ok : bool)
| OpFree.
Arguments OpAllocate {T}.
Arguments OpGrow {T}.
Arguments OpShrink {T}.
Arguments OpResize {T}.
Arguments OpFree {T}.

Section Runs.
Context `{Platform} {T : Type} `{Element T} {A : Type} `{!Allocator T A}.

Definition step (op : Op T) (st : A * World T) : outcome (A * World T) :=
  match op with
  | OpAllocate init n ok => allocate init n ok st
  | OpGrow k ok => grow k ok st
  | OpShrink k => shrink k st
  | OpResize c ok => resize c ok st
  | OpFree => free st
  end.

(** The calls one after the other, as long as each returns. *)
Fixpoint run (ops : list (Op T)) (st : A * World T) : outcome (A * World T) :=
  match ops with
  | [] => Returns st
  | op :: ops' =>
      match step op st with
      | Returns st' => run ops' st'
      | o => o
      end
  end.
End Runs.

(** ** Two builds and an element type to evaluate on *)

Definition debug64 : Platform :=
  {| Size_bits := 64; size_t_bits := 64; Size_within_size_t := eq_refl;
     NDEBUG := false; CHI_ASSERT_halts_on := true |}.

(** A debug build in which [CHI_ASSERT] halts when its condition is false. *)
Definition debug64_assert_true : Platform :=
  {| Size_bits := 64; size_t_bits := 64; Size_within_size_t := eq_refl;
     NDEBUG := false; CHI_ASSERT_halts_on := false |}.

Definition release64 : Platform :=
  {| Size_bits := 64; size_t_bits := 64; Size_within_size_t := eq_refl;
     NDEBUG := true; CHI_ASSERT_halts_on := true |}.

(** An optimised build with a 32-bit [Size] and a 32-bit [size_t]. *)
Definition release32 : Platform :=
  {| Size_bits := 32; size_t_bits := 32; Size_within_size_t := eq_refl;
     NDEBUG := true; CHI_ASSERT_halts_on := true |}.

(** A one-byte element whose default value is 0. *)
Definition byte_Element : Element Z := {| T_default := 0; sizeof_T := 1 |}.

(** A four-byte element whose default value is 0. *)
Definition int_Element : Element Z := {| T_default := 0; sizeof_T := 4 |}.


(** The fresh allocators and a few buffers the examples start from. *)
Definition fresh_std : StdAllocator * World Z := (Std.new, empty_world).

Definition future_1_5 : FutureAllocator :=
  {| base := Std.new; multiplier := Float32.one_and_a_half |}.

Definition fresh_future : FutureAllocator * World Z := (future_1_5, empty_world).

(** The state a call leaves, for calls known to return. *)
Definition returned {S : Type} (o : outcome S) (default : S) : S :=
  match o with
  | Returns s => s
  | _ => default
  end.

(** [allocate(3)] on a fresh exact-fit allocator, debug build. *)
Definition three_ints : StdAllocator * World Z :=
  Eval vm_compute in
    returned (Std.allocate (H:=debug64) (H0:=int_Element) Init_default 3 true fresh_std)
      fresh_std.

(** [grow(2)] on [three_ints]. *)
Definition five_ints : StdAllocator * World Z :=
  Eval vm_compute in
    returned (Std._grow (H:=debug64) (H0:=int_Element) 2 true three_ints) three_ints.

(** [allocate(3)] on a fresh amortized allocator with multiplier 1.5, and
    [grow(2)] on the result. *)
Definition three_ints_future : FutureAllocator * World Z :=
  Eval vm_compute in
    returned (Future.allocate (H:=debug64) (H0:=int_Element) Init_default 3 true
                fresh_future) fresh_future.

Definition five_ints_future : FutureAllocator * World Z :=
  Eval vm_compute in
    returned (Future._grow (H:=debug64) (H0:=int_Element) 2 true three_ints_future)
      three_ints_future.

(** [shrink(2)] on [five_ints]. *)
Definition three_ints_again : StdAllocator * World Z :=
  Eval vm_compute in
    returned (Std._shrink (H:=debug64) 2 five_ints) five_ints.

(** [allocate(0)] followed by ten calls of [grow(1)], the heap obliging. *)
Definition ten_grows {T} : list (Op T) :=
  OpAllocate Init_default 0 true :: replicate 10 (OpGrow 1 true).

(** The capacity the specification states, [ceil(m * n)], for the
    multiplier [m = num / den]. *)
Definition spec_capacity (num den n : Z) : Z := (num * n + den - 1) / den.

(** [(Size)(1.5f * n)] is [3 * n / 2], rounded down, for every [n] below
    [bound]: checked by evaluation on the 64-bit build. *)
Definition floor_check (bound : nat) : bool :=
  forallb (fun n => match Float32.scale (H:=release64) Float32.one_and_a_half n with
                    | Some c => c =? 3 * n / 2
                    | None => false
                    end) (Zseq 0 bound).


(** ** Vocabulary for whole lives of a buffer *)

(** The calls that change the length of a buffer. *)
Definition resizing {T} (op : Op T) : bool :=
  match op with
  | OpGrow _ _ | OpShrink _ | OpResize _ _ => true
  | _ => false
  end.

(** The buffer of [this] holds [vs], no block but its own is on the heap,
    and every object constructed so far is either among [vs] or has been
    destructed. *)
Definition tidy {T} (this : StdAllocator) (w : World T) (vs : list T) : Prop :=
  holds this w vs /\
  (forall b, is_Some (heap w !! b) -> __ptr this = Blk b) /\
  length (constructed (trace w)) = (length (destructed (trace w)) + length vs)%nat.

(** What [free] leaves of [three_ints], debug build. *)
Definition freed_three_ints : StdAllocator * World Z :=
  Eval vm_compute in returned (Std.free (H:=debug64) three_ints) three_ints.

(** A second [allocate(2)] on [three_ints], optimised build. *)
Definition three_ints_twice : StdAllocator * World Z :=
  Eval vm_compute in
    returned (Std.allocate (H:=release64) (H0:=int_Element) Init_default 2 true three_ints)
      three_ints.

(** [grow(2)], [shrink(1)] and [resize(7)], to follow [allocate(3)]. *)
Definition some_resizing : list (Op Z) :=
  [OpGrow 2 true; OpShrink 1; OpResize 7 true].

Definition resized_std : StdAllocator * World Z :=
  Eval vm_compute in
    returned (run (H:=debug64) (H0:=int_Element)
                (OpAllocate Init_default 3 true :: some_resizing) fresh_std) fresh_std.

Definition resized_future : FutureAllocator * World Z :=
  Eval vm_compute in
    returned (run (H:=debug64) (H0:=int_Element)
                (OpAllocate Init_default 3 true :: some_resizing) fresh_future)
      fresh_future.

(** The same calls followed by [free]. *)
Definition released_std : StdAllocator * World Z :=
  Eval vm_compute in
    returned (run (H:=debug64) (H0:=int_Element)
                (OpAllocate Init_default 3 true :: some_resizing ++ [OpFree]) fresh_std)
      fresh_std.

Definition released_future : FutureAllocator * World Z :=
  Eval vm_compute in
    returned (run (H:=debug64) (H0:=int_Element)
                (OpAllocate Init_default 3 true :: some_resizing ++ [OpFree]) fresh_future)
      fresh_future.

(** The literal [0.5]. *)
Definition one_half : Float32.float := S754_finite false 8388608 (-24).

(** ** Calls within the contract *)

(** The count a sequence of [grow], [shrink] and [resize] leads to from
    the count [c], when the heap obliges and every call stays within what
    the buffer can take: no [shrink] beyond the count, no size whose byte
    count leaves [Size]. *)
Fixpoint in_contract `{Platform} {T : Type} `{Element T}
    (ops : list (Op T)) (c : Z) : option Z :=
  match ops with
  | [] => Some c
  | OpGrow k true :: ops' =>
      if (0 <=? k) && ((c + k) * Z.pos sizeof_T <? Size_modulus)
      then in_contract ops' (c + k) else None
  | OpShrink k :: ops' =>
      if (0 <=? k) && (k <=? c) then in_contract ops' (c - k) else None
  | OpResize c' true :: ops' =>
      if (0 <=? c') && (c' * Z.pos sizeof_T <? Size_modulus)
      then in_contract ops' c' else None
  | _ => None
  end.

(** The count and capacity the same calls lead to in the amortized
    strategy with the default multiplier 1.5: a [grow] beyond the capacity
    takes the capacity to [3 * n / 2]; [3 * n] has to stay below [2^24] for
    the product to be exact, and the new block has to fit [Size] in bytes. *)
Fixpoint in_contract_amortized `{Platform} {T : Type} `{Element T}
    (ops : list (Op T)) (c cap : Z) : option (Z * Z) :=
  let grown (n : Z) (ops' : list (Op T)) :=
    if cap <? n then
      if (3 * n <? 16777216) && (3 * n / 2 * Z.pos sizeof_T <? Size_modulus)
      then in_contract_amortized ops' n (3 * n / 2) else None
    else in_contract_amortized ops' n cap in
  match ops with
  | [] => Some (c, cap)
  | OpGrow k true :: ops' => if 0 <=? k then grown (c + k) ops' else None
  | OpShrink k :: ops' =>
      if (0 <=? k) && (k <=? c) then in_contract_amortized ops' (c - k) cap else None
  | OpResize c' true :: ops' =>
      if 0 <=? c' then
        if c <? c' then grown c' ops' else in_contract_amortized ops' c' cap
      else None
  | _ => None
  end.


(** ** The memory primitives and the loops *)

Arguments placement_new : simpl never.
Arguments destroy : simpl never.
Arguments read : simpl never.

Section MemoryFacts.
Context {T : Type} `{Element T}.
Implicit Types (w : World T) (blk : block T) (c : gmap Z T).

Lemma Zseq_length from n : length (Zseq from n) = n.
Proof. revert from; induction n; intros; simpl; auto. Qed.

Lemma Zseq_app from n m :
  Zseq from (n + m) = Zseq from n ++ Zseq (from + Z.of_nat n) m.
Proof.
  revert from; induction n as [|n IH]; intros from; simpl.
  - by rewrite Z.add_0_r.
  - rewrite IH. do 3 f_equal. lia.
Qed.

Lemma Zseq_snoc from n : Zseq from (S n) = Zseq from n ++ [from + Z.of_nat n].
Proof.
  replace (S n) with (n + 1)%nat by lia. by rewrite Zseq_app.
Qed.

Lemma Zseq_In from n i : In i (Zseq from n) <-> from <= i < from + Z.of_nat n.
Proof.
  revert from; induction n as [|n IH]; intros from; simpl.
  - lia.
  - rewrite IH. lia.
Qed.

Lemma Zseq_NoDup from n : NoDup (Zseq from n).
Proof.
  revert from; induction n as [|n IH]; intros from; simpl; constructor; auto.
  rewrite list_elem_of_In, Zseq_In. lia.
Qed.

Lemma Zseq_sorted from n : StronglySorted Z.lt (Zseq from n).
Proof.
  revert from; induction n as [|n IH]; intros from; simpl; constructor; auto.
  apply Forall_forall. intros i Hi. apply list_elem_of_In, Zseq_In in Hi. lia.
Qed.

Lemma sorted_gt_snoc (l : list Z) (a : Z) :
  StronglySorted Z.gt l -> (forall x, In x l -> x > a) ->
  StronglySorted Z.gt (l ++ [a]).
Proof.
  induction 1 as [|x l Hl IHl Hx]; intros Ha; simpl.
  - repeat constructor.
  - constructor.
    + apply IHl. intros y Hy. apply Ha. by right.
    + apply Forall_app; split; auto.
      repeat constructor. apply Ha. by left.
Qed.

Lemma Zseq_rev_sorted from n : StronglySorted Z.gt (rev (Zseq from n)).
Proof.
  revert from; induction n as [|n IH]; intros from; simpl; [constructor|].
  apply sorted_gt_snoc; auto.
  intros x Hx. apply in_rev, Zseq_In in Hx. lia.
Qed.

Lemma lookup_write_cells from (vs : list T) c i :
  write_cells from vs c !! i =
    if decide (from <= i < from + Z.of_nat (length vs))
    then vs !! Z.to_nat (i - from) else c !! i.
Proof.
  revert from c; induction vs as [|v vs IH]; intros from c; simpl.
  - case_decide; [lia | done].
  - rewrite IH. repeat case_decide; try lia.
    + replace (Z.to_nat (i - from)) with (S (Z.to_nat (i - (from + 1)))) by lia.
      done.
    + assert (i = from) as -> by lia.
      rewrite Z.sub_diag. simpl. by rewrite lookup_insert_eq.
    + rewrite lookup_insert_ne; [done | lia].
Qed.

Lemma lookup_remove_range from n c i :
  remove_range from n c !! i =
    if decide (from <= i < from + Z.of_nat n) then None else c !! i.
Proof.
  revert from c; induction n as [|n IH]; intros from c; simpl.
  - case_decide; [lia | done].
  - rewrite IH. repeat case_decide; try lia; try done.
    + assert (i = from) as -> by lia. by rewrite lookup_delete_eq.
    + rewrite lookup_delete_ne; [done | lia].
Qed.

Lemma upd_cells_id blk : upd_cells (fun c => c) blk = blk.
Proof. by destruct blk. Qed.

Lemma upd_cells_compose (f g : gmap Z T -> gmap Z T) blk :
  upd_cells f (upd_cells g blk) = upd_cells (fun c => f (g c)) blk.
Proof. done. Qed.

Lemma placement_new_inv b i v w w' :
  placement_new (Blk b) i v w = Some w' ->
  exists blk, heap w !! b = Some blk /\ 0 <= i /\
    (i + 1) * Z.pos sizeof_T <= bytes blk /\
    w' = {| heap := <[b := upd_cells (<[i := v]>) blk]> (heap w);
            trace := trace w ++ [EvConstruct b i v] |}.
Proof.
  unfold placement_new. intros Hp.
  destruct (heap w !! b) as [blk|] eqn:Hb; simpl in Hp; [|done].
  destruct (0 <=? i) eqn:H0; simpl in Hp; [|done].
  destruct ((i + 1) * Z.pos sizeof_T <=? bytes blk) eqn:H1; [|done].
  exists blk. repeat split; try lia. by injection Hp as <-.
Qed.

Lemma placement_new_Some b i v w blk :
  heap w !! b = Some blk -> 0 <= i -> (i + 1) * Z.pos sizeof_T <= bytes blk ->
  placement_new (Blk b) i v w =
    Some {| heap := <[b := upd_cells (<[i := v]>) blk]> (heap w);
            trace := trace w ++ [EvConstruct b i v] |}.
Proof.
  intros Hb H0 H1. unfold placement_new. rewrite Hb. simpl.
  destruct (0 <=? i) eqn:E0; [|lia].
  destruct ((i + 1) * Z.pos sizeof_T <=? bytes blk) eqn:E1; [done|lia].
Qed.

Lemma destroy_inv b i w w' :
  destroy (Blk b) i w = Some w' ->
  exists blk, heap w !! b = Some blk /\ is_Some (cells blk !! i) /\
    w' = {| heap := <[b := upd_cells (delete i) blk]> (heap w);
            trace := trace w ++ [EvDestruct b i] |}.
Proof.
  unfold destroy. intros Hd.
  destruct (heap w !! b) as [blk|] eqn:Hb; simpl in Hd; [|done].
  destruct (cells blk !! i) as [v|] eqn:Hc; simpl in Hd; [|done].
  exists blk. repeat split; eauto. by injection Hd as <-.
Qed.

Lemma destroy_Some b i w blk :
  heap w !! b = Some blk -> is_Some (cells blk !! i) ->
  destroy (Blk b) i w =
    Some {| heap := <[b := upd_cells (delete i) blk]> (heap w);
            trace := trace w ++ [EvDestruct b i] |}.
Proof.
  intros Hb [v Hv]. unfold destroy. rewrite Hb. simpl. by rewrite Hv.
Qed.

(** A loop that runs at least once dereferences its pointer. *)
Lemma construct_loop_pointer p src from n w w' :
  construct_loop p src from (S n) w = Some w' ->
  exists b blk, p = Blk b /\ heap w !! b = Some blk.
Proof.
  simpl. intros Hl.
  apply bind_Some in Hl as (v & _ & Hl).
  apply bind_Some in Hl as (w1 & Hp & _).
  destruct p as [| |b]; [done | done |].
  apply placement_new_inv in Hp as (blk & Hb & _). eauto.
Qed.

Lemma destruct_up_pointer p from n w w' :
  destruct_up p from (S n) w = Some w' ->
  exists b blk, p = Blk b /\ heap w !! b = Some blk.
Proof.
  simpl. intros Hl.
  apply bind_Some in Hl as (w1 & Hp & _).
  destruct p as [| |b]; [done | done |].
  apply destroy_inv in Hp as (blk & Hb & _). eauto.
Qed.

Lemma destruct_down_pointer p top n w w' :
  destruct_down p top (S n) w = Some w' ->
  exists b blk, p = Blk b /\ heap w !! b = Some blk.
Proof.
  simpl. intros Hl.
  apply bind_Some in Hl as (w1 & Hp & _).
  destruct p as [| |b]; [done | done |].
  apply destroy_inv in Hp as (blk & Hb & _). eauto.
Qed.

Lemma world_eta w : {| heap := heap w; trace := trace w |} = w.
Proof. by destruct w. Qed.

Lemma construct_loop_inv b src from n w w' blk :
  ignores b src -> heap w !! b = Some blk ->
  construct_loop (Blk b) src from n w = Some w' ->
  exists vs, length vs = n /\
    (forall k v, vs !! k = Some v -> src (from + Z.of_nat k) w = Some v) /\
    w' = {| heap := <[b := upd_cells (write_cells from vs) blk]> (heap w);
            trace := trace w ++ constructs b from vs |} /\
    (n <> O -> 0 <= from /\ (from + Z.of_nat n) * Z.pos sizeof_T <= bytes blk).
Proof.
  intros Hsrc. revert from w blk.
  induction n as [|n IH]; intros from w blk Hb Hl; simpl in Hl.
  - injection Hl as <-. exists []. repeat split; try done.
    simpl. rewrite app_nil_r, upd_cells_id, insert_id by done.
    by rewrite world_eta.
  - apply bind_Some in Hl as (v & Hv & Hl).
    apply bind_Some in Hl as (w1 & Hp & Hl).
    apply placement_new_inv in Hp as (blk' & Hb' & H0 & H1 & ->).
    rewrite Hb in Hb'. injection Hb' as <-.
    eapply IH in Hl as (vs & Hlen & Hvs & -> & Hbound);
      [| simpl; apply lookup_insert_eq].
    exists (v :: vs). simpl. repeat split.
    + by rewrite Hlen.
    + intros [|k] v' Hk; simpl in Hk.
      * injection Hk as <-. by rewrite Z.add_0_r.
      * apply Hvs in Hk. rewrite <- Hk.
        replace (from + Z.of_nat (S k)) with (from + 1 + Z.of_nat k) by lia.
        apply Hsrc. intros b' Hb'. simpl. by rewrite lookup_insert_ne.
    + rewrite insert_insert_eq, <- app_assoc. done.
    + done.
    + destruct n as [|n']; [simpl in *; lia|].
      destruct Hbound as [_ Hbd]; [done|]. simpl in Hbd. lia.
Qed.

Lemma construct_loop_Some b src from n w blk :
  ignores b src -> heap w !! b = Some blk ->
  (forall k, (k < n)%nat -> is_Some (src (from + Z.of_nat k) w)) ->
  0 <= from -> (from + Z.of_nat n) * Z.pos sizeof_T <= bytes blk ->
  is_Some (construct_loop (Blk b) src from n w).
Proof.
  intros Hsrc. revert from w blk.
  induction n as [|n IH]; intros from w blk Hb Hvs H0 H1; simpl; [eauto|].
  destruct (Hvs O) as [v Hv]; [lia|]. rewrite Z.add_0_r in Hv. rewrite Hv. simpl.
  erewrite placement_new_Some by (eauto; lia). simpl.
  eapply IH.
  - simpl. apply lookup_insert_eq.
  - intros k Hk. destruct (Hvs (S k)) as [v' Hv']; [lia|].
    exists v'. rewrite <- Hv'.
    replace (from + Z.of_nat (S k)) with (from + 1 + Z.of_nat k) by lia.
    apply Hsrc. intros b' Hb'. simpl. by rewrite lookup_insert_ne.
  - lia.
  - simpl. lia.
Qed.

Lemma destruct_up_inv b from n w w' blk :
  heap w !! b = Some blk ->
  destruct_up (Blk b) from n w = Some w' ->
  (forall i, from <= i < from + Z.of_nat n -> is_Some (cells blk !! i)) /\
  w' = {| heap := <[b := upd_cells (remove_range from n) blk]> (heap w);
          trace := trace w ++ map (EvDestruct b) (Zseq from n) |}.
Proof.
  revert from w blk.
  induction n as [|n IH]; intros from w blk Hb Hl; simpl in Hl.
  - injection Hl as <-. split; [lia|].
    simpl. rewrite app_nil_r, upd_cells_id, insert_id by done.
    by rewrite world_eta.
  - apply bind_Some in Hl as (w1 & Hd & Hl).
    apply destroy_inv in Hd as (blk' & Hb' & Hlive & ->).
    rewrite Hb in Hb'. injection Hb' as <-.
    eapply IH in Hl as (Hall & ->); [| simpl; apply lookup_insert_eq].
    split.
    + intros i Hi. destruct (decide (i = from)) as [->|Hne]; [done|].
      destruct (Hall i) as [v Hv]; [lia|].
      simpl in Hv. rewrite lookup_delete_ne in Hv by done. eauto.
    + simpl. rewrite insert_insert_eq, <- app_assoc. done.
Qed.

Lemma destruct_up_Some b from n w blk :
  heap w !! b = Some blk ->
  (forall i, from <= i < from + Z.of_nat n -> is_Some (cells blk !! i)) ->
  is_Some (destruct_up (Blk b) from n w).
Proof.
  revert from w blk.
  induction n as [|n IH]; intros from w blk Hb Hall; simpl; [eauto|].
  erewrite destroy_Some by (eauto; apply Hall; lia). simpl.
  eapply IH; [simpl; apply lookup_insert_eq|].
  intros i Hi. simpl. rewrite lookup_delete_ne by lia. apply Hall. lia.
Qed.

Lemma remove_range_snoc from n c :
  remove_range from n (delete (from + Z.of_nat n) c) = remove_range from (S n) c.
Proof.
  apply map_eq. intros i. rewrite !lookup_remove_range.
  repeat case_decide; try lia; try done.
  - assert (i = from + Z.of_nat n) as -> by lia. by rewrite lookup_delete_eq.
  - rewrite lookup_delete_ne; [done | lia].
Qed.

Lemma destruct_down_inv b top n w w' blk :
  heap w !! b = Some blk ->
  destruct_down (Blk b) top n w = Some w' ->
  (forall i, top - Z.of_nat n <= i < top -> is_Some (cells blk !! i)) /\
  w' = {| heap := <[b := upd_cells (remove_range (top - Z.of_nat n) n) blk]> (heap w);
          trace := trace w ++ map (EvDestruct b) (rev (Zseq (top - Z.of_nat n) n)) |}.
Proof.
  revert top w blk.
  induction n as [|n IH]; intros top w blk Hb Hl; simpl in Hl.
  - injection Hl as <-. split; [lia|].
    simpl. rewrite app_nil_r, upd_cells_id, insert_id by done.
    by rewrite world_eta.
  - apply bind_Some in Hl as (w1 & Hd & Hl).
    apply destroy_inv in Hd as (blk' & Hb' & Hlive & ->).
    rewrite Hb in Hb'. injection Hb' as <-.
    eapply IH in Hl as (Hall & ->); [| simpl; apply lookup_insert_eq].
    split.
    + intros i Hi. destruct (decide (i = top - 1)) as [->|Hne]; [done|].
      destruct (Hall i) as [v Hv]; [lia|].
      simpl in Hv. rewrite lookup_delete_ne in Hv by done. eauto.
    + simpl trace. simpl heap. rewrite insert_insert_eq, <- app_assoc.
      f_equal.
      * f_equal. unfold upd_cells. simpl. f_equal.
        replace (top - 1 - Z.of_nat n) with (top - Z.of_nat (S n)) by lia.
        replace (top - 1) with (top - Z.of_nat (S n) + Z.of_nat n) by lia.
        apply remove_range_snoc.
      * f_equal.
        rewrite Zseq_snoc, rev_app_distr. simpl.
        replace (top - Z.of_nat (S n) + Z.of_nat n) with (top - 1) by lia.
        replace (top - 1 - Z.of_nat n) with (top - Z.of_nat (S n)) by lia.
        done.
Qed.

Lemma destruct_down_Some b top n w blk :
  heap w !! b = Some blk ->
  (forall i, top - Z.of_nat n <= i < top -> is_Some (cells blk !! i)) ->
  is_Some (destruct_down (Blk b) top n w).
Proof.
  revert top w blk.
  induction n as [|n IH]; intros top w blk Hb Hall; simpl; [eauto|].
  erewrite destroy_Some by (eauto; apply Hall; lia). simpl.
  eapply IH; [simpl; apply lookup_insert_eq|].
  intros i Hi. simpl. rewrite lookup_delete_ne by lia. apply Hall. lia.
Qed.
End MemoryFacts.

(** ** What a call appends to the trace *)

Section TraceFacts.
Context {T : Type} `{Element T}.
Implicit Types (w : World T) (evs : list (event T)).

Lemma footprint_nil : footprint (T:=T) [] [] [] 0.
Proof. done. Qed.

Lemma footprint_app evs1 evs2 cs1 cs2 ds1 ds2 m1 m2 :
  footprint evs1 cs1 ds1 m1 -> footprint evs2 cs2 ds2 m2 ->
  footprint (evs1 ++ evs2) (cs1 ++ cs2) (ds1 ++ ds2) (m1 + m2).
Proof.
  unfold footprint, constructed, destructed, acquisitions.
  intros (<- & <- & <-) (<- & <- & <-).
  by rewrite !omap_app, length_app.
Qed.

Lemma extends_refl w : extends w w [] [] 0.
Proof. exists []. split; [by rewrite app_nil_r | apply footprint_nil]. Qed.

Lemma extends_trans w1 w2 w3 cs1 cs2 ds1 ds2 m1 m2 :
  extends w1 w2 cs1 ds1 m1 -> extends w2 w3 cs2 ds2 m2 ->
  extends w1 w3 (cs1 ++ cs2) (ds1 ++ ds2) (m1 + m2).
Proof.
  intros (e1 & E1 & F1) (e2 & E2 & F2). exists (e1 ++ e2). split.
  - by rewrite E2, E1, app_assoc.
  - by apply footprint_app.
Qed.

Lemma malloc_extends ok n w p w' :
  malloc ok n w = (p, w') ->
  extends w w' [] [] (if ok then 1 else 0) /\
  (ok = true <-> p <> Null) /\ (ok = false -> w' = w).
Proof.
  unfold malloc. destruct ok; intros [= <- <-].
  - split; [|split; [split|]; done]. by eexists.
  - split; [apply extends_refl | split; [split|]; done].
Qed.

Lemma c_free_extends p w w' :
  c_free p w = Some w' -> extends w w' [] [] 0.
Proof.
  destruct p as [| |b]; simpl; [intros [= <-]; apply extends_refl | done |].
  destruct (heap w !! b); [|done]. intros [= <-]. by eexists.
Qed.

Lemma placement_new_extends p i v w w' :
  placement_new p i v w = Some w' -> extends w w' [i] [] 0.
Proof.
  destruct p as [| |b]; [done | done |].
  intros (blk & _ & _ & _ & ->)%placement_new_inv. by eexists.
Qed.

Lemma destroy_extends p i w w' :
  destroy p i w = Some w' -> extends w w' [] [i] 0.
Proof.
  destruct p as [| |b]; [done | done |].
  intros (blk & _ & _ & ->)%destroy_inv. by eexists.
Qed.

Lemma construct_loop_extends p src from n w w' :
  construct_loop p src from n w = Some w' -> extends w w' (Zseq from n) [] 0.
Proof.
  revert from w. induction n as [|n IH]; intros from w Hl; simpl in Hl.
  - injection Hl as <-. apply extends_refl.
  - apply bind_Some in Hl as (v & _ & Hl).
    apply bind_Some in Hl as (w1 & Hp & Hl).
    apply placement_new_extends in Hp. apply IH in Hl.
    exact (extends_trans _ _ _ _ _ _ _ _ _ Hp Hl).
Qed.

Lemma destruct_up_extends p from n w w' :
  destruct_up p from n w = Some w' -> extends w w' [] (Zseq from n) 0.
Proof.
  revert from w. induction n as [|n IH]; intros from w Hl; simpl in Hl.
  - injection Hl as <-. apply extends_refl.
  - apply bind_Some in Hl as (w1 & Hp & Hl).
    apply destroy_extends in Hp. apply IH in Hl.
    exact (extends_trans _ _ _ _ _ _ _ _ _ Hp Hl).
Qed.

Lemma destruct_down_extends p top n w w' :
  destruct_down p top n w = Some w' ->
  extends w w' [] (rev (Zseq (top - Z.of_nat n) n)) 0.
Proof.
  revert top w. induction n as [|n IH]; intros top w Hl; simpl in Hl.
  - injection Hl as <-. apply extends_refl.
  - apply bind_Some in Hl as (w1 & Hp & Hl).
    apply destroy_extends in Hp. apply IH in Hl.
    pose proof (extends_trans _ _ _ _ _ _ _ _ _ Hp Hl) as Ht.
    rewrite Zseq_snoc, rev_app_distr.
    replace (top - Z.of_nat (S n) + Z.of_nat n) with (top - 1) by lia.
    replace (top - Z.of_nat (S n)) with (top - 1 - Z.of_nat n) by lia.
    exact Ht.
Qed.
End TraceFacts.

(** ** Blocks, sources and the buffer contents *)

Section BufferFacts.
Context {T : Type} `{Element T}.
Implicit Types (w : World T) (blk : block T) (vs : list T).

Lemma fresh_block w : heap w !! fresh (dom (heap w)) = None.
Proof. apply not_elem_of_dom, is_fresh. Qed.

Lemma malloc_inv ok n w p w' :
  malloc ok n w = (p, w') -> p <> Null ->
  ok = true /\ p = Blk (fresh (dom (heap w))) /\
  w' = {| heap := <[fresh (dom (heap w)) := {| bytes := n; cells := ∅ |}]> (heap w);
          trace := trace w ++ [EvMalloc n (fresh (dom (heap w)))] |}.
Proof.
  unfold malloc. destruct ok; intros [= <- <-] Hp; [done | by destruct Hp].
Qed.

Lemma malloc_fail n w : malloc false n w = (Null, w).
Proof. done. Qed.

Lemma ignores_read p b : p <> Blk b -> ignores b (read (T:=T) p).
Proof.
  intros Hp i w1 w2 Hagree. destruct p as [| |b']; try done.
  unfold read. rewrite Hagree; [done | congruence].
Qed.

Lemma ignores_const b (f : Z -> option T) : ignores b (fun i _ => f i).
Proof. by intros i w1 w2 _. Qed.

Lemma lookup_cells_of vs i :
  cells_of vs !! i =
    if decide (0 <= i < Z.of_nat (length vs)) then vs !! Z.to_nat i else None.
Proof.
  unfold cells_of. rewrite lookup_write_cells, Z.sub_0_r, Z.add_0_l.
  by case_decide.
Qed.

Lemma write_cells_app from vs1 vs2 (c : gmap Z T) :
  write_cells from (vs1 ++ vs2) c =
    write_cells (from + Z.of_nat (length vs1)) vs2 (write_cells from vs1 c).
Proof.
  revert from c; induction vs1 as [|v vs1 IH]; intros from c; simpl.
  - by rewrite Z.add_0_r.
  - rewrite IH. f_equal. lia.
Qed.

Lemma cells_of_app vs1 vs2 :
  write_cells (Z.of_nat (length vs1)) vs2 (cells_of vs1) = cells_of (vs1 ++ vs2).
Proof. unfold cells_of. by rewrite write_cells_app. Qed.

Lemma cells_of_take vs (n : nat) :
  (n <= length vs)%nat ->
  remove_range (Z.of_nat n) (length vs - n) (cells_of vs) = cells_of (take n vs).
Proof.
  intros Hn. apply map_eq. intros i.
  rewrite lookup_remove_range, !lookup_cells_of, length_take.
  repeat case_decide; try lia; try done.
  rewrite lookup_take_lt; [done | lia].
Qed.

(** Reading an element of a buffer that holds [vs]. *)
Lemma holds_read this w vs i :
  holds this w vs -> 0 <= i < Z.of_nat (length vs) ->
  read (__ptr this) i w = vs !! Z.to_nat i.
Proof.
  intros [Hc Hp] Hi. destruct (__ptr this) as [| |b]; try done.
  - subst vs. simpl in Hi. lia.
  - destruct Hp as (blk & Hb & Hcells). unfold read. rewrite Hb. simpl.
    rewrite Hcells, lookup_cells_of. case_decide; [done | lia].
Qed.

(** Two lists that agree at every index are equal. *)
Lemma values_determined vs vs' (f : nat -> option T) :
  length vs = length vs' ->
  (forall k v, vs !! k = Some v -> f k = Some v) ->
  (forall k v, vs' !! k = Some v -> f k = Some v) ->
  vs = vs'.
Proof.
  intros Hlen H1 H2. apply list_eq. intros k.
  destruct (vs !! k) as [v|] eqn:E1, (vs' !! k) as [v'|] eqn:E2; try done.
  - apply H1 in E1. apply H2 in E2. congruence.
  - apply lookup_lt_Some in E1. apply lookup_ge_None in E2. lia.
  - apply lookup_ge_None in E1. apply lookup_lt_Some in E2. lia.
Qed.

Lemma replicate_determined vs (d : T) :
  (forall k v, vs !! k = Some v -> Some d = Some v) ->
  vs = replicate (length vs) d.
Proof.
  intros Hd. apply list_eq. intros k.
  destruct (vs !! k) as [v|] eqn:E.
  - pose proof (lookup_lt_Some _ _ _ E) as Hk. apply Hd in E as [= <-].
    by rewrite lookup_replicate_2.
  - apply lookup_ge_None in E. symmetry. apply lookup_ge_None.
    by rewrite length_replicate.
Qed.
Lemma c_free_inv b w w' :
  c_free (Blk b) w = Some w' ->
  is_Some (heap w !! b) /\
  w' = {| heap := delete b (heap w); trace := trace w ++ [EvFree b] |}.
Proof.
  simpl. destruct (heap w !! b) as [blk|]; [|done].
  intros [= <-]. eauto.
Qed.

Lemma holds_cases this w vs :
  holds this w vs ->
  (__ptr this = Null /\ vs = [] /\ _count this = 0) \/
  (exists b blk, __ptr this = Blk b /\ heap w !! b = Some blk /\
     cells blk = cells_of vs /\ _count this = Z.of_nat (length vs)).
Proof.
  intros [Hc Hp]. destruct (__ptr this) as [| |b]; [left | done | right].
  - subst vs. done.
  - destruct Hp as (blk & ? & ?). eauto 10.
Qed.


(** Copying a buffer that holds [vs] into a block just acquired, then
    destructing and releasing the old block. *)
Lemma relocate_holds this w vs size tr w2 w3 w4 :
  holds this w vs ->
  let b' := fresh (dom (heap w)) in
  let n := Z.to_nat (_count this) in
  construct_loop (Blk b') (read (__ptr this)) 0 n
    {| heap := <[b' := {| bytes := size; cells := ∅ |}]> (heap w);
       trace := tr |} = Some w2 ->
  destruct_up (__ptr this) 0 n w2 = Some w3 ->
  c_free (__ptr this) w3 = Some w4 ->
  heap w4 !! b' = Some {| bytes := size; cells := cells_of vs |} /\
  forall b, __ptr this = Blk b -> heap w4 !! b = None.
Proof.
  intros Hh b' n H2 H3 H4. subst n.
  pose proof (fresh_block w) as Hfresh. fold b' in Hfresh.
  destruct (holds_cases _ _ _ Hh) as [(Hp & -> & Hc) | (b & blk & Hp & Hb & Hcells & Hc)].
  - rewrite Hp, Hc in *. simpl in *.
    injection H2 as E2. injection H3 as E3. injection H4 as E4.
    subst w2 w3 w4. simpl. rewrite lookup_insert_eq. done.
  - rewrite Hp, Hc, Nat2Z.id in *.
    assert (b <> b') as Hne by congruence.
    eapply construct_loop_inv in H2 as (vs1 & Hlen & Hvs1 & E2 & _);
      [| by apply ignores_read; congruence | simpl; apply lookup_insert_eq].
    subst w2.
    assert (vs1 = vs) as ->.
    { apply (values_determined _ _ (fun k => vs !! k)); [done | | done].
      intros k v Hk. pose proof (lookup_lt_Some _ _ _ Hk) as Hlt.
      apply Hvs1 in Hk. unfold read in Hk. simpl in Hk.
      rewrite lookup_insert_ne, Hb in Hk by done. simpl in Hk.
      rewrite Hcells, lookup_cells_of in Hk.
      case_decide; [|lia]. by rewrite Z.add_0_l, Nat2Z.id in Hk. }
    apply (destruct_up_inv _ _ _ _ _ blk) in H3 as (_ & E3);
      [| simpl; rewrite !lookup_insert_ne by done; exact Hb].
    subst w3.
    apply c_free_inv in H4 as (_ & E4). subst w4. simpl. split.
    + rewrite lookup_delete_ne, lookup_insert_ne, lookup_insert_eq by done.
      done.
    + intros ? [= <-]. by rewrite lookup_delete_eq.
Qed.

(** Default-constructing [k] more elements behind the live ones. *)
Lemma append_defaults b w vs size k w' :
  heap w !! b = Some {| bytes := size; cells := cells_of vs |} ->
  construct_loop (Blk b) (fun _ _ => Some T_default) (Z.of_nat (length vs)) k w
    = Some w' ->
  heap w' = <[b := {| bytes := size;
                      cells := cells_of (vs ++ replicate k T_default) |}]> (heap w).
Proof.
  intros Hb Hl.
  eapply construct_loop_inv in Hl as (vs2 & Hlen2 & Hvs2 & E & _);
    [| apply (ignores_const b (fun _ => Some T_default)) | exact Hb].
  apply replicate_determined in Hvs2. rewrite Hlen2 in Hvs2. subst vs2 w'.
  simpl. unfold upd_cells. simpl. by rewrite cells_of_app.
Qed.

(** The relocation of a buffer that holds [vs] goes through when the new
    block is large enough. *)
Lemma relocate_Some this w vs size tr :
  holds this w vs ->
  Z.of_nat (length vs) * Z.pos sizeof_T <= size ->
  let b' := fresh (dom (heap w)) in
  let n := Z.to_nat (_count this) in
  exists w2 w3 w4,
    construct_loop (Blk b') (read (__ptr this)) 0 n
      {| heap := <[b' := {| bytes := size; cells := ∅ |}]> (heap w);
         trace := tr |} = Some w2 /\
    destruct_up (__ptr this) 0 n w2 = Some w3 /\
    c_free (__ptr this) w3 = Some w4.
Proof.
  intros Hh Hsize b' n. subst n.
  pose proof (fresh_block w) as Hfresh. fold b' in Hfresh.
  destruct (holds_cases _ _ _ Hh) as [(Hp & -> & Hc) | (b & blk & Hp & Hb & Hcells & Hc)];
    rewrite Hp, Hc.
  - simpl. by do 3 eexists.
  - rewrite Nat2Z.id.
    assert (b <> b') as Hne by congruence.
    set (w1 := {| heap := <[b' := {| bytes := size; cells := ∅ |}]> (heap w);
                  trace := tr |}).
    destruct (construct_loop_Some b' (read (Blk b)) 0 (length vs) w1
                {| bytes := size; cells := ∅ |}) as [w2 H2].
    { apply ignores_read. congruence. }
    { simpl. apply lookup_insert_eq. }
    { intros k Hk. unfold read. simpl.
      rewrite lookup_insert_ne, Hb by done. simpl.
      rewrite Hcells, lookup_cells_of. case_decide; [|lia].
      apply lookup_lt_is_Some. lia. }
    { lia. }
    { simpl. lia. }
    exists w2. pose proof H2 as H2'.
    eapply construct_loop_inv in H2' as (vs1 & _ & _ & E2 & _);
      [| by apply ignores_read; congruence | simpl; apply lookup_insert_eq].
    destruct (destruct_up_Some b 0 (length vs) w2 blk) as [w3 H3].
    { subst w2. simpl. by rewrite !lookup_insert_ne. }
    { intros i Hi. rewrite Hcells, lookup_cells_of. case_decide; [|lia].
      apply lookup_lt_is_Some. lia. }
    exists w3. pose proof H3 as H3'.
    apply (destruct_up_inv _ _ _ _ _ blk) in H3' as (_ & E3);
      [| subst w2; simpl; by rewrite !lookup_insert_ne].
    assert (is_Some (c_free (Blk b) w3)) as [w4 H4].
    { subst w3. simpl. rewrite lookup_insert_eq. eauto. }
    exists w4. done.
Qed.

Lemma append_defaults_Some b w vs size k :
  heap w !! b = Some {| bytes := size; cells := cells_of vs |} ->
  (Z.of_nat (length vs) + Z.of_nat k) * Z.pos sizeof_T <= size ->
  is_Some (construct_loop (Blk b) (fun _ _ => Some T_default)
             (Z.of_nat (length vs)) k w).
Proof.
  intros Hb Hsize.
  eapply construct_loop_Some; [| exact Hb | eauto | lia | done].
  apply (ignores_const b (fun _ => Some T_default)).
Qed.
End BufferFacts.

(** ** StdAllocator, member by member *)

Section StdFacts.
Context `{Platform} {T : Type} `{Element T}.
Implicit Types (this : StdAllocator) (w : World T) (vs : list T).

Lemma size_add_range a b : 0 <= size_add a b < Size_modulus.
Proof. apply Z.mod_pos_bound. unfold Size_modulus. lia. Qed.

Lemma size_sub_range a b : 0 <= size_sub a b < Size_modulus.
Proof. apply Z.mod_pos_bound. unfold Size_modulus. lia. Qed.

(** Whatever fits [Size] fits [size_t]. *)
Lemma Size_modulus_le_size_t : Size_modulus <= size_t_modulus.
Proof.
  unfold Size_modulus, size_t_modulus. apply Z.pow_le_mono_r; [lia|].
  pose proof Size_within_size_t as Hle. apply Pos.leb_le in Hle. lia.
Qed.

Lemma size_mul_le a b : 0 <= a -> 0 <= b -> size_mul a b <= a * b.
Proof.
  intros Ha Hb. unfold size_mul. apply Z.mod_le; [nia|].
  unfold size_t_modulus. lia.
Qed.

Lemma size_add_exact a b :
  0 <= a -> 0 <= b -> a + b < Size_modulus -> size_add a b = a + b.
Proof. intros. unfold size_add. apply Z.mod_small. lia. Qed.

Lemma size_sub_exact a b : is_Size a -> 0 <= b <= a -> size_sub a b = a - b.
Proof. intros [? ?] ?. unfold size_sub. apply Z.mod_small. lia. Qed.

(** The steps of a call of [_grow] that returns. *)
Lemma Std_grow_inv increment ok this w st' :
  Std._grow increment ok (this, w) = Returns st' ->
  let new_size := size_add (_count this) increment in
  let n := Z.to_nat (_count this) in
  let b' := fresh (dom (heap w)) in
  let w1 := {| heap := <[b' := {| bytes := size_mul new_size (Z.pos sizeof_T);
                                  cells := ∅ |}]> (heap w);
               trace := trace w ++ [EvMalloc (size_mul new_size (Z.pos sizeof_T)) b'] |} in
  exists w2 w3 w4 w5,
    ok = true /\
    construct_loop (Blk b') (read (__ptr this)) 0 n w1 = Some w2 /\
    destruct_up (__ptr this) 0 n w2 = Some w3 /\
    c_free (__ptr this) w3 = Some w4 /\
    construct_loop (Blk b') (fun _ _ => Some T_default) (_count this)
      (Z.to_nat (new_size - _count this)) w4 = Some w5 /\
    st' = ({| __ptr := Blk b'; _count := Z.max (_count this) new_size;
              _cap := new_size |}, w5).
Proof.
  unfold Std._grow, malloc. destruct ok; [|done]. intros Hg. simpl.
  match type of Hg with
  | match ?c with _ => _ end = _ => destruct c as [w5|] eqn:E; [|done]
  end.
  injection Hg as <-.
  apply bind_Some in E as (w2 & E2 & E).
  apply bind_Some in E as (w3 & E3 & E).
  apply bind_Some in E as (w4 & E4 & E).
  exists w2, w3, w4, w5. done.
Qed.

(** Copying into a block that has just been acquired: the source is
    another block, and the copies fit. *)
Lemma copy_into_new_block b' p n w2 (h : gmap positive (block T)) tr size :
  n <> O ->
  construct_loop (Blk b') (read p) 0 n
    {| heap := <[b' := {| bytes := size; cells := ∅ |}]> h; trace := tr |} = Some w2 ->
  p <> Blk b' /\ Z.of_nat n * Z.pos sizeof_T <= size.
Proof.
  intros Hn Hl.
  assert (p <> Blk b') as Hp.
  { intros ->. destruct n as [|n]; [done|]. simpl in Hl.
    apply bind_Some in Hl as (v & Hv & _).
    unfold read in Hv. simpl in Hv. rewrite lookup_insert_eq in Hv.
    simpl in Hv. by rewrite lookup_empty in Hv. }
  split; [done|].
  eapply construct_loop_inv in Hl as (vs & _ & _ & _ & Hb);
    [| by apply ignores_read | simpl; apply lookup_insert_eq].
  destruct (Hb Hn) as [_ Hbd]. simpl in Hbd. lia.
Qed.

(** A call of [_grow] that returns never lowers the count. *)
Lemma Std_grow_count increment ok this w this' w' :
  Std._grow increment ok (this, w) = Returns (this', w') ->
  _count this <= size_add (_count this) increment.
Proof.
  intros Hg. apply Std_grow_inv in Hg as (w2 & w3 & w4 & w5 & _ & Hc & _).
  pose proof (size_add_range (_count this) increment) as Hr.
  destruct (Z.to_nat (_count this)) as [|n] eqn:En; [lia|].
  apply copy_into_new_block in Hc as [_ Hfit]; [|done].
  pose proof (size_mul_le (size_add (_count this) increment) (Z.pos sizeof_T)).
  nia.
Qed.

(** What [_grow] makes of a buffer that holds [vs]. *)
Lemma Std_grow_holds increment ok this w this' w' vs :
  holds this w vs ->
  Std._grow increment ok (this, w) = Returns (this', w') ->
  holds this' w'
    (vs ++ replicate (Z.to_nat (size_add (_count this) increment - _count this))
                     T_default) /\
  _cap this' = size_add (_count this) increment /\
  _count this' = size_add (_count this) increment /\
  __ptr this' = Blk (fresh (dom (heap w))) /\
  forall b, __ptr this = Blk b -> heap w' !! b = None.
Proof.
  intros Hh Hg.
  pose proof (Std_grow_count _ _ _ _ _ _ Hg) as Hle.
  pose proof (size_add_range (_count this) increment) as Hr.
  apply Std_grow_inv in Hg as (w2 & w3 & w4 & w5 & _ & H2 & H3 & H4 & H5 & Hst).
  injection Hst as -> ->. simpl.
  destruct (relocate_holds _ _ _ _ _ _ _ _ Hh H2 H3 H4) as [Hb4 Hgone].
  destruct Hh as [Hc _]. rewrite Hc in H5 at 1.
  apply (append_defaults _ _ _ _ _ _ Hb4) in H5.
  repeat split.
  - simpl. rewrite length_app, length_replicate. lia.
  - simpl. eexists. rewrite H5, lookup_insert_eq. done.
  - lia.
  - intros b Hb. rewrite H5, lookup_insert_ne; [by apply Hgone|].
    intros <-. apply Hgone in Hb. congruence.
Qed.

(** The steps of a call of [allocate] that returns. *)
Lemma Std_allocate_inv init count ok this w st' :
  Std.allocate init count ok (this, w) = Returns st' ->
  (count = 0 /\
   st' = ({| __ptr := Null; _count := 0; _cap := _cap this |}, w)) \/
  (count <> 0 /\ ok = true /\
   let b' := fresh (dom (heap w)) in
   let size := size_mul count (Z.pos sizeof_T) in
   exists w2,
     construct_loop (Blk b') (fun i _ => init_value init i) 0 (Z.to_nat count)
       {| heap := <[b' := {| bytes := size; cells := ∅ |}]> (heap w);
          trace := trace w ++ [EvMalloc size b'] |} = Some w2 /\
     st' = ({| __ptr := Blk b'; _count := count; _cap := _cap this |}, w2)).
Proof.
  unfold Std.allocate. destruct (CHI_ASSERT _ _); [done|].
  destruct (count =? 0) eqn:E0.
  - intros [= <-]. left. split; [lia|]. do 3 f_equal. lia.
  - unfold malloc. destruct ok; [|done]. intros Ha. right.
    split; [lia|]. split; [done|]. simpl.
    match type of Ha with
    | match ?c with _ => _ end = _ => destruct c as [w2|] eqn:E; [|done]
    end.
    injection Ha as <-. eauto.
Qed.

(** What [allocate] leaves: a buffer holding the initialisers. *)
Lemma Std_allocate_holds init count ok this w this' w' :
  0 <= count ->
  Std.allocate init count ok (this, w) = Returns (this', w') ->
  exists vs, holds this' w' vs /\ Z.of_nat (length vs) = count /\
    (forall k v, vs !! k = Some v -> init_value init (Z.of_nat k) = Some v) /\
    _cap this' = _cap this /\
    (count <> 0 -> __ptr this' = Blk (fresh (dom (heap w)))).
Proof.
  intros Hc Ha.
  apply Std_allocate_inv in Ha as [(-> & Hst) | (Hne & _ & w2 & Hl & Hst)];
    injection Hst as -> ->.
  - exists []. repeat split; done.
  - eapply construct_loop_inv in Hl as (vs & Hlen & Hvs & E2 & _);
      [| apply (ignores_const _ (init_value init)) | simpl; apply lookup_insert_eq].
    subst w2. exists vs. repeat split.
    + simpl. lia.
    + simpl. eexists. rewrite lookup_insert_eq. done.
    + lia.
    + intros k v Hk. apply Hvs in Hk. by rewrite Z.add_0_l in Hk.
Qed.

(** The steps of a call of [_shrink] that returns. *)
Lemma Std_shrink_inv decrement this w st' :
  Std._shrink decrement (this, w) = Returns st' ->
  let new_count := size_sub (_count this) decrement in
  exists w',
    destruct_down (__ptr this) (_count this)
      (Z.to_nat (_count this - new_count)) w = Some w' /\
    st' = ({| __ptr := __ptr this; _count := Z.min (_count this) new_count;
              _cap := _cap this |}, w').
Proof.
  unfold Std._shrink. simpl.
  destruct (destruct_down _ _ _ _) as [w'|]; [|done].
  intros [= <-]. eauto.
Qed.

(** What [_shrink] makes of a buffer that holds [vs]. *)
Lemma Std_shrink_holds decrement this w this' w' vs :
  holds this w vs ->
  Std._shrink decrement (this, w) = Returns (this', w') ->
  holds this' w' (take (Z.to_nat (size_sub (_count this) decrement)) vs) /\
  _count this' = Z.min (_count this) (size_sub (_count this) decrement) /\
  _cap this' = _cap this /\ __ptr this' = __ptr this.
Proof.
  intros Hh Hs. apply Std_shrink_inv in Hs as (w1 & Hd & Hst).
  injection Hst as -> ->. simpl.
  pose proof (size_sub_range (_count this) decrement) as Hr.
  set (new_count := size_sub (_count this) decrement) in *.
  split; [|done].
  destruct (Z.to_nat (_count this - new_count)) as [|j] eqn:Ej.
  - simpl in Hd. injection Hd as <-.
    destruct Hh as [Hc Hp]. rewrite take_ge by lia.
    split; simpl; [lia | done].
  - destruct (holds_cases _ _ _ Hh) as [(Hp & -> & Hc) | (b & blk & Hp & Hb & Hcells & Hc)];
      [lia|].
    rewrite Hp in Hd.
    apply (destruct_down_inv _ _ _ _ _ blk) in Hd as (_ & E1); [|done]. subst w1.
    split; [simpl|].
    + rewrite length_take. lia.
    + cbn [__ptr heap]. rewrite Hp. eexists. rewrite lookup_insert_eq. split; [done|].
      unfold upd_cells. cbn [cells].
      rewrite Hcells, <- (cells_of_take vs (Z.to_nat new_count)) by lia.
      replace (_count this - Z.of_nat (S j)) with (Z.of_nat (Z.to_nat new_count)) by lia.
      replace (S j) with (length vs - Z.to_nat new_count)%nat by lia.
      done.
Qed.

(** The steps of a call of [free] that returns. *)
Lemma Std_free_inv this w st' :
  Std.free (this, w) = Returns st' ->
  exists w1 w2,
    destruct_up (__ptr this) 0 (Z.to_nat (_count this)) w = Some w1 /\
    c_free (__ptr this) w1 = Some w2 /\
    st' = ({| __ptr := if NDEBUG then __ptr this else MinusOne;
              _count := _count this; _cap := _cap this |}, w2).
Proof.
  unfold Std.free, Std.destruct. simpl. destruct (CHI_ASSERT _ _); [done|].
  destruct (destruct_up _ _ _ _) as [w1|]; [|done]. simpl.
  destruct (c_free _ _) as [w2|] eqn:Ef; [|done].
  intros [= <-]. by exists w1, w2.
Qed.

(** [free] on a buffer that holds [vs] returns, provided the contract
    check lets it pass. *)
Lemma Std_free_holds this w vs :
  holds this w vs ->
  CHI_ASSERT false "Double free in StdAllocator" = None ->
  exists w',
    Std.free (this, w) =
      Returns ({| __ptr := if NDEBUG then __ptr this else MinusOne;
                  _count := _count this; _cap := _cap this |}, w') /\
    extends w w' [] (Zseq 0 (length vs)) 0 /\
    forall b, __ptr this = Blk b -> heap w' !! b = None.
Proof.
  intros Hh Hassert.
  assert (exists w1 w2,
            destruct_up (__ptr this) 0 (Z.to_nat (_count this)) w = Some w1 /\
            c_free (__ptr this) w1 = Some w2 /\
            extends w w2 [] (Zseq 0 (length vs)) 0 /\
            forall b, __ptr this = Blk b -> heap w2 !! b = None)
    as (w1 & w2 & Hd & Hf & Hext & Hgone).
  { destruct (holds_cases _ _ _ Hh) as [(Hp & -> & Hc) | (b & blk & Hp & Hb & Hcells & Hc)];
      rewrite Hp, Hc.
    - exists w, w. repeat split; [apply extends_refl | done].
    - rewrite Nat2Z.id.
      destruct (destruct_up_Some b 0 (length vs) w blk Hb) as [w1 Hd].
      { intros i Hi. rewrite Hcells, lookup_cells_of. case_decide; [|lia].
        apply lookup_lt_is_Some. lia. }
      pose proof (destruct_up_extends _ _ _ _ _ Hd) as Hext.
      pose proof Hd as Hd'.
      apply (destruct_up_inv _ _ _ _ _ blk) in Hd' as (_ & E1); [|done].
      assert (is_Some (c_free (Blk b) w1)) as [w2 Hf].
      { subst w1. simpl. rewrite lookup_insert_eq. eauto. }
      exists w1, w2. split; [done|]. split; [done|]. split.
      + pose proof (extends_trans _ _ _ _ _ _ _ _ _ Hext (c_free_extends _ _ _ Hf)) as Ht.
        by rewrite !app_nil_r in Ht.
      + intros ? [= <-]. apply c_free_inv in Hf as (_ & ->). simpl.
        by rewrite lookup_delete_eq. }
  exists w2. split; [|done].
  unfold Std.free, Std.destruct. cbn [fst snd].
  replace (pointer_eqb (__ptr this) MinusOne) with false.
  - rewrite Hassert, Hd. simpl. by rewrite Hf.
  - destruct Hh as [_ Hp]. by destruct (__ptr this).
Qed.

Lemma size_mul_exact a b :
  0 <= a -> 0 <= b -> a * b < Size_modulus -> size_mul a b = a * b.
Proof.
  intros. unfold size_mul. apply Z.mod_small.
  pose proof Size_modulus_le_size_t. nia.
Qed.

(** [allocate] returns when the contract check passes, the heap obliges,
    the byte count does not wrap and the initialisers are readable. *)
Lemma Std_allocate_returns init count this w :
  CHI_ASSERT (negb (pointer_eqb (__ptr this) Null)
              && negb (pointer_eqb (__ptr this) MinusOne))
    "Allocating with StdAllocator while already allocated, this is a memory leak"
    = None ->
  0 <= count -> count * Z.pos sizeof_T < Size_modulus ->
  (forall i, 0 <= i < count -> is_Some (init_value init i)) ->
  exists st', Std.allocate init count true (this, w) = Returns st'.
Proof.
  intros Hassert Hc Hfit Hinit. unfold Std.allocate. rewrite Hassert.
  destruct (count =? 0); [eauto|]. unfold malloc.
  edestruct (construct_loop_Some (fresh (dom (heap w)))
               (fun i (_ : World T) => init_value init i) 0 (Z.to_nat count))
    as [w2 Hl]; last (rewrite Hl; eauto).
  - apply (ignores_const _ (init_value init)).
  - simpl. apply lookup_insert_eq.
  - intros k Hk. apply Hinit. lia.
  - lia.
  - simpl. rewrite size_mul_exact by lia. lia.
Qed.

(** [_grow] returns on a buffer that holds [vs] when the heap obliges and
    neither the new count nor its byte count wraps. *)
Lemma Std_grow_returns increment this w vs :
  holds this w vs -> 0 <= increment ->
  (_count this + increment) * Z.pos sizeof_T < Size_modulus ->
  exists st', Std._grow increment true (this, w) = Returns st'.
Proof.
  intros Hh Hk Hfit. pose proof Hh as [Hc _].
  assert (size_add (_count this) increment = _count this + increment) as Hns.
  { apply size_add_exact; nia. }
  unfold Std._grow, malloc. rewrite Hns.
  set (size := size_mul _ _).
  assert (size = (_count this + increment) * Z.pos sizeof_T) as Hsize.
  { apply size_mul_exact; lia. }
  destruct (relocate_Some this w vs size
              (trace w ++ [EvMalloc size (fresh (dom (heap w)))]) Hh)
    as (w2 & w3 & w4 & H2 & H3 & H4); [nia|].
  destruct (relocate_holds _ _ _ _ _ _ _ _ Hh H2 H3 H4) as [Hb4 _].
  destruct (append_defaults_Some _ _ _ _ (Z.to_nat increment) Hb4) as [w5 H5]; [nia|].
  rewrite H2. simpl. rewrite H3. simpl. rewrite H4. simpl.
  replace (_count this + increment - _count this) with increment by lia.
  rewrite <- Hc in H5. rewrite H5. eauto.
Qed.

(** [_shrink] returns on every buffer that holds its elements, whatever
    the decrement. *)
Lemma Std_shrink_returns decrement this w vs :
  holds this w vs ->
  exists st', Std._shrink decrement (this, w) = Returns st'.
Proof.
  intros Hh. unfold Std._shrink.
  pose proof (size_sub_range (_count this) decrement) as Hr.
  set (new_count := size_sub (_count this) decrement) in *.
  destruct (Z.to_nat (_count this - new_count)) as [|j] eqn:Ej; [simpl; eauto|].
  destruct (holds_cases _ _ _ Hh) as [(Hp & -> & Hc) | (b & blk & Hp & Hb & Hcells & Hc)];
    [lia|].
  rewrite Hp.
  destruct (destruct_down_Some b (_count this) (S j) w blk Hb) as [w' Hd];
    [|rewrite Hd; eauto].
  intros i Hi. rewrite Hcells, lookup_cells_of. case_decide; [|lia].
  apply lookup_lt_is_Some. lia.
Qed.

(** *** What each member appends to the trace *)

Lemma Std_allocate_extends init count ok this w this' w' :
  Std.allocate init count ok (this, w) = Returns (this', w') ->
  extends w w' (Zseq 0 (Z.to_nat count)) [] (if count =? 0 then 0 else 1).
Proof.
  intros [(-> & Hst) | (Hne & _ & w2 & Hl & Hst)]%Std_allocate_inv;
    injection Hst as -> ->.
  - apply extends_refl.
  - apply construct_loop_extends in Hl.
    destruct (count =? 0) eqn:E; [lia|].
    eapply (extends_trans _ _ _ [] _ [] [] 1 0); [|exact Hl]. by eexists.
Qed.

Lemma Std_grow_extends increment ok this w this' w' :
  Std._grow increment ok (this, w) = Returns (this', w') ->
  let n := Z.to_nat (_count this) in
  let k := Z.to_nat (size_add (_count this) increment - _count this) in
  extends w w' (Zseq 0 n ++ Zseq (_count this) k) (Zseq 0 n) 1.
Proof.
  intros (w2 & w3 & w4 & w5 & _ & H2 & H3 & H4 & H5 & Hst)%Std_grow_inv.
  injection Hst as -> ->. simpl.
  apply construct_loop_extends in H2, H5. apply destruct_up_extends in H3.
  apply c_free_extends in H4.
  pose proof (extends_trans _ _ _ _ _ _ _ _ _
                (extends_trans _ _ _ _ _ _ _ _ _
                   (extends_trans _ _ _ _ _ _ _ _ _ H2 H3) H4) H5) as Ht.
  rewrite !app_nil_r in Ht. simpl in Ht.
  eapply (extends_trans _ _ _ [] _ [] _ 1 0); [|exact Ht]. by eexists.
Qed.

Lemma Std_shrink_extends decrement this w this' w' :
  Std._shrink decrement (this, w) = Returns (this', w') ->
  let j := Z.to_nat (_count this - size_sub (_count this) decrement) in
  extends w w' [] (rev (Zseq (_count this - Z.of_nat j) j)) 0.
Proof.
  intros (w1 & Hd & Hst)%Std_shrink_inv. injection Hst as -> ->.
  by apply destruct_down_extends in Hd.
Qed.

Lemma Std_free_extends this w this' w' :
  Std.free (this, w) = Returns (this', w') ->
  extends w w' [] (Zseq 0 (Z.to_nat (_count this))) 0.
Proof.
  intros (w1 & w2 & Hd & Hf & Hst)%Std_free_inv. injection Hst as -> ->.
  apply destruct_up_extends in Hd. apply c_free_extends in Hf.
  pose proof (extends_trans _ _ _ _ _ _ _ _ _ Hd Hf) as Ht.
  by rewrite !app_nil_r in Ht.
Qed.

(** *** Calls that leave by [AllocException] *)

Lemma Std_allocate_throws init count ok (st st' : StdAllocator * World T) :
  Std.allocate init count ok st = Throws st' -> st' = st.
Proof.
  destruct st as [this w]. unfold Std.allocate.
  destruct (CHI_ASSERT _ _); [done|]. destruct (count =? 0); [done|].
  unfold malloc. destruct ok.
  - by destruct (construct_loop _ _ _ _ _).
  - by intros [= <-].
Qed.

Lemma Std_grow_throws increment ok (st st' : StdAllocator * World T) :
  Std._grow increment ok st = Throws st' -> st' = st.
Proof.
  destruct st as [this w]. unfold Std._grow, malloc. destruct ok.
  - match goal with
    | |- match ?c with _ => _ end = _ -> _ => by destruct c
    end.
  - by intros [= <-].
Qed.

(** Without a contract check in its way, [_shrink] cannot halt. *)
Lemma Std_shrink_not_halted decrement (st : StdAllocator * World T) msg :
  Std._shrink decrement st <> Halts msg.
Proof.
  destruct st as [this w]. unfold Std._shrink.
  by destruct (destruct_down _ _ _ _).
Qed.
End StdFacts.

(** ** FutureAllocator, member by member *)

Section FutureFacts.
Context `{Platform} {T : Type} `{Element T}.
Implicit Types (this : FutureAllocator) (w : World T) (vs : list T).

Lemma inherited_Returns (f : Std.state -> outcome Std.state) this w this' w' :
  Future.inherited f (this, w) = Returns (this', w') <->
  exists b', f (base this, w) = Returns (b', w') /\ this' = Future.with_base this b'.
Proof.
  unfold Future.inherited. simpl. split.
  - destruct (f (base this, w)) as [[b1 w1]| | |]; simpl; try done.
    intros [= <- <-]. eauto.
  - intros (b' & -> & ->). done.
Qed.

(** The steps of a call of [allocate] that returns. *)
Lemma Future_allocate_inv init count ok this w st' :
  Future.allocate init count ok (this, w) = Returns st' ->
  exists cap, Float32.scale (multiplier this) count = Some cap /\
  ((count = 0 /\
    st' = (Future.with_base this {| __ptr := Null; _count := 0; _cap := cap |}, w)) \/
   (count <> 0 /\ ok = true /\
    let b' := fresh (dom (heap w)) in
    let size := size_mul cap (Z.pos sizeof_T) in
    exists w2,
      construct_loop (Blk b') (fun i _ => init_value init i) 0 (Z.to_nat count)
        {| heap := <[b' := {| bytes := size; cells := ∅ |}]> (heap w);
           trace := trace w ++ [EvMalloc size b'] |} = Some w2 /\
      st' = (Future.with_base this {| __ptr := Blk b'; _count := count; _cap := cap |},
             w2))).
Proof.
  unfold Future.allocate.
  destruct (Float32.scale _ _) as [cap|]; [|done]. intros Ha. exists cap.
  split; [done|]. revert Ha.
  destruct (count =? 0) eqn:E0.
  - intros [= <-]. left. split; [lia|]. do 4 f_equal. lia.
  - unfold malloc. destruct ok; [|done]. intros Ha. right.
    split; [lia|]. split; [done|]. simpl.
    match type of Ha with
    | match ?c with _ => _ end = _ => destruct c as [w2|] eqn:E; [|done]
    end.
    injection Ha as <-. eauto.
Qed.

(** What [allocate] leaves: a buffer holding the initialisers, and the
    capacity computed from the multiplier. *)
Lemma Future_allocate_holds init count ok this w this' w' :
  0 <= count ->
  Future.allocate init count ok (this, w) = Returns (this', w') ->
  exists vs, holds (base this') w' vs /\ Z.of_nat (length vs) = count /\
    (forall k v, vs !! k = Some v -> init_value init (Z.of_nat k) = Some v) /\
    Float32.scale (multiplier this) count = Some (_cap (base this')) /\
    multiplier this' = multiplier this.
Proof.
  intros Hc Ha.
  apply Future_allocate_inv in Ha
    as (cap & Hcap & [(-> & Hst) | (Hne & _ & w2 & Hl & Hst)]);
    injection Hst as -> ->.
  - exists []. repeat split; done.
  - eapply construct_loop_inv in Hl as (vs & Hlen & Hvs & E2 & _);
      [| apply (ignores_const _ (init_value init)) | simpl; apply lookup_insert_eq].
    subst w2. exists vs. repeat split.
    + simpl. lia.
    + simpl. eexists. rewrite lookup_insert_eq. done.
    + lia.
    + intros k v Hk. apply Hvs in Hk. by rewrite Z.add_0_l in Hk.
    + done.
Qed.

(** The steps of a call of [_grow] that returns: either the block is
    replaced or the new elements are constructed in place. *)
Lemma Future_grow_inv increment ok this w st' :
  Future._grow increment ok (this, w) = Returns st' ->
  let b := base this in
  let new_size := size_add (_count b) increment in
  let n := Z.to_nat (_count b) in
  let k := Z.to_nat (new_size - _count b) in
  (_cap b < new_size /\ ok = true /\
   exists new_capacity w2 w3 w4 w5,
     Float32.scale (multiplier this) new_size = Some new_capacity /\
     let b' := fresh (dom (heap w)) in
     let size := size_mul new_capacity (Z.pos sizeof_T) in
     construct_loop (Blk b') (read (__ptr b)) 0 n
       {| heap := <[b' := {| bytes := size; cells := ∅ |}]> (heap w);
          trace := trace w ++ [EvMalloc size b'] |} = Some w2 /\
     destruct_up (__ptr b) 0 n w2 = Some w3 /\
     c_free (__ptr b) w3 = Some w4 /\
     construct_loop (Blk b') (fun _ _ => Some T_default) (_count b) k w4 = Some w5 /\
     st' = (Future.with_base this
              {| __ptr := Blk b'; _count := Z.max (_count b) new_size;
                 _cap := new_capacity |}, w5)) \/
  (new_size <= _cap b /\
   exists w5,
     construct_loop (__ptr b) (fun _ _ => Some T_default) (_count b) k w = Some w5 /\
     st' = (Future.with_base this
              {| __ptr := __ptr b; _count := Z.max (_count b) new_size;
                 _cap := _cap b |}, w5)).
Proof.
  unfold Future._grow. simpl.
  destruct (_cap (base this) <? size_add (_count (base this)) increment) eqn:Ecap.
  - destruct (Float32.scale _ _) as [new_capacity|]; [|done].
    unfold malloc. destruct ok; [|done]. intros Hg. left.
    split; [lia|]. split; [done|].
    match type of Hg with
    | match ?c with _ => _ end = _ => destruct c as [w4|] eqn:E; [|done]
    end.
    match type of Hg with
    | match ?c with _ => _ end = _ => destruct c as [w5|] eqn:E5; [|done]
    end.
    injection Hg as <-.
    apply bind_Some in E as (w2 & E2 & E).
    apply bind_Some in E as (w3 & E3 & E).
    exists new_capacity, w2, w3, w4, w5. done.
  - intros Hg. right. split; [lia|].
    match type of Hg with
    | match ?c with _ => _ end = _ => destruct c as [w5|] eqn:E5; [|done]
    end.
    injection Hg as <-. eauto.
Qed.

(** What [_grow] makes of a buffer that holds [vs]. *)
Lemma Future_grow_holds increment ok this w this' w' vs :
  holds (base this) w vs ->
  Future._grow increment ok (this, w) = Returns (this', w') ->
  let new_size := size_add (_count (base this)) increment in
  holds (base this') w'
    (vs ++ replicate (Z.to_nat (new_size - _count (base this))) T_default) /\
  _count (base this') = Z.max (_count (base this)) new_size /\
  multiplier this' = multiplier this /\
  ((_cap (base this) < new_size /\
    Float32.scale (multiplier this) new_size = Some (_cap (base this')) /\
    __ptr (base this') = Blk (fresh (dom (heap w))) /\
    forall b, __ptr (base this) = Blk b -> heap w' !! b = None) \/
   (new_size <= _cap (base this) /\
    _cap (base this') = _cap (base this) /\
    __ptr (base this') = __ptr (base this))).
Proof.
  intros Hh Hg. simpl.
  pose proof (size_add_range (_count (base this)) increment) as Hr.
  apply Future_grow_inv in Hg
    as [(Hlt & _ & cap & w2 & w3 & w4 & w5 & Hcap & H2 & H3 & H4 & H5 & Hst)
       | (Hle & w5 & H5 & Hst)];
    injection Hst as -> ->; simpl.
  - destruct (relocate_holds _ _ _ _ _ _ _ _ Hh H2 H3 H4) as [Hb4 Hgone].
    pose proof Hh as [Hc _]. rewrite Hc in H5 at 1.
    apply (append_defaults _ _ _ _ _ _ Hb4) in H5.
    split; [split | split; [done | split; [done|]]].
    + simpl. rewrite length_app, length_replicate. lia.
    + simpl. eexists. rewrite H5, lookup_insert_eq. done.
    + left. repeat split; try done.
      intros b Hb. rewrite H5, lookup_insert_ne; [by apply Hgone|].
      intros <-. apply Hgone in Hb. congruence.
  - destruct (Z.to_nat (size_add (_count (base this)) increment - _count (base this)))
      as [|k] eqn:Ek.
    + simpl in H5. injection H5 as <-. rewrite app_nil_r.
      destruct Hh as [Hc Hp].
      split; [split | split; [simpl; lia | split; [done|]]].
      * simpl. lia.
      * exact Hp.
      * right. done.
    + pose proof H5 as (b0 & blk & Hp & Hb)%construct_loop_pointer.
      destruct (holds_cases _ _ _ Hh) as [(Hp' & _) | (b1 & blk1 & Hp1 & Hb1 & Hcells & Hc)];
        [congruence|].
      rewrite Hp in Hp1. injection Hp1 as <-. rewrite Hb in Hb1. injection Hb1 as <-.
      rewrite Hp, Hc in H5.
      assert (heap w !! b0 = Some {| bytes := bytes blk; cells := cells_of vs |}) as Hb'.
      { rewrite Hb, <- Hcells. by destruct blk. }
      apply (append_defaults _ _ _ _ _ _ Hb') in H5.
      split; [split | split; [done | split; [done|]]].
      * cbn [_count base Future.with_base].
        rewrite length_app, length_replicate. lia.
      * cbn [__ptr base Future.with_base].
        rewrite Hp. eexists. rewrite H5, lookup_insert_eq. done.
      * right. done.
Qed.

Lemma Future_shrink_holds decrement this w this' w' vs :
  holds (base this) w vs ->
  Future._shrink decrement (this, w) = Returns (this', w') ->
  holds (base this') w'
    (take (Z.to_nat (size_sub (_count (base this)) decrement)) vs) /\
  _count (base this') =
    Z.min (_count (base this)) (size_sub (_count (base this)) decrement) /\
  _cap (base this') = _cap (base this) /\
  __ptr (base this') = __ptr (base this) /\
  multiplier this' = multiplier this.
Proof.
  intros Hh (b' & Hs & ->)%inherited_Returns. simpl.
  destruct (Std_shrink_holds _ _ _ _ _ _ Hh Hs) as (? & ? & ? & ?). done.
Qed.

Lemma Future_free_holds this w vs :
  holds (base this) w vs ->
  CHI_ASSERT false "Double free in StdAllocator" = None ->
  exists w',
    Future.free (this, w) =
      Returns (Future.with_base this
                 {| __ptr := if NDEBUG then __ptr (base this) else MinusOne;
                    _count := _count (base this); _cap := _cap (base this) |}, w') /\
    extends w w' [] (Zseq 0 (length vs)) 0 /\
    forall b, __ptr (base this) = Blk b -> heap w' !! b = None.
Proof.
  intros Hh Hassert.
  destruct (Std_free_holds _ _ _ Hh Hassert) as (w' & Hf & Hext & Hgone).
  exists w'. split; [|done].
  unfold Future.free, Future.inherited. simpl. by rewrite Hf.
Qed.

(** *** What each member appends to the trace *)

Lemma Future_allocate_extends init count ok this w this' w' :
  Future.allocate init count ok (this, w) = Returns (this', w') ->
  extends w w' (Zseq 0 (Z.to_nat count)) [] (if count =? 0 then 0 else 1).
Proof.
  intros (cap & _ & [(-> & Hst) | (Hne & _ & w2 & Hl & Hst)])%Future_allocate_inv;
    injection Hst as -> ->.
  - apply extends_refl.
  - apply construct_loop_extends in Hl.
    destruct (count =? 0) eqn:E; [lia|].
    eapply (extends_trans _ _ _ [] _ [] [] 1 0); [|exact Hl]. by eexists.
Qed.

Lemma Future_grow_extends increment ok this w this' w' :
  Future._grow increment ok (this, w) = Returns (this', w') ->
  let b := base this in
  let new_size := size_add (_count b) increment in
  let n := Z.to_nat (_count b) in
  let k := Z.to_nat (new_size - _count b) in
  if _cap b <? new_size
  then extends w w' (Zseq 0 n ++ Zseq (_count b) k) (Zseq 0 n) 1
  else extends w w' (Zseq (_count b) k) [] 0.
Proof.
  intros [(Hlt & _ & cap & w2 & w3 & w4 & w5 & Hcap & H2 & H3 & H4 & H5 & Hst)
         | (Hle & w5 & H5 & Hst)]%Future_grow_inv;
    injection Hst as -> ->; simpl.
  - destruct (_ <? _) eqn:E; [|lia].
    apply construct_loop_extends in H2, H5. apply destruct_up_extends in H3.
    apply c_free_extends in H4.
    pose proof (extends_trans _ _ _ _ _ _ _ _ _
                  (extends_trans _ _ _ _ _ _ _ _ _
                     (extends_trans _ _ _ _ _ _ _ _ _ H2 H3) H4) H5) as Ht.
    rewrite !app_nil_r in Ht. simpl in Ht.
    eapply (extends_trans _ _ _ [] _ [] _ 1 0); [|exact Ht]. by eexists.
  - destruct (_ <? _) eqn:E; [lia|].
    by apply construct_loop_extends in H5.
Qed.

Lemma Future_shrink_extends decrement this w this' w' :
  Future._shrink decrement (this, w) = Returns (this', w') ->
  let c := _count (base this) in
  let j := Z.to_nat (c - size_sub c decrement) in
  extends w w' [] (rev (Zseq (c - Z.of_nat j) j)) 0.
Proof.
  intros (b' & Hs & ->)%inherited_Returns. by apply Std_shrink_extends in Hs.
Qed.

Lemma Future_free_extends this w this' w' :
  Future.free (this, w) = Returns (this', w') ->
  extends w w' [] (Zseq 0 (Z.to_nat (_count (base this)))) 0.
Proof.
  intros (b' & Hs & ->)%inherited_Returns. by apply Std_free_extends in Hs.
Qed.

(** *** Capacities computed from the multiplier *)

Lemma scale_range m n c : Float32.scale m n = Some c -> 0 <= c < Size_modulus.
Proof.
  unfold Float32.scale, Float32.to_Size.
  assert (0 < Size_modulus) by (unfold Size_modulus; lia).
  destruct (Float32.mul m (Float32.of_Size n)) as [s| | |s mm e]; try done.
  - intros [= <-]. lia.
  - pose proof (Z.shiftl_nonneg (Z.pos mm) e) as [_ Hn].
    specialize (Hn ltac:(lia)).
    destruct s.
    + destruct (_ =? 0); [|done]. intros [= <-]. lia.
    + destruct (_ <? _) eqn:E; [|done]. intros [= <-]. lia.
Qed.

Lemma scale_zero m c : Float32.scale m 0 = Some c -> c = 0.
Proof.
  unfold Float32.scale, Float32.of_Size. simpl.
  destruct m as [s| | |s mm e]; simpl; try done; by intros [= <-].
Qed.

(** *** When the members return *)

Lemma Future_allocate_returns init count cap this w :
  0 <= count -> Float32.scale (multiplier this) count = Some cap ->
  count <= cap -> cap * Z.pos sizeof_T < Size_modulus ->
  (forall i, 0 <= i < count -> is_Some (init_value init i)) ->
  exists st', Future.allocate init count true (this, w) = Returns st'.
Proof.
  intros Hc Hcap Hle Hfit Hinit. unfold Future.allocate. rewrite Hcap.
  destruct (count =? 0); [eauto|]. unfold malloc.
  edestruct (construct_loop_Some (fresh (dom (heap w)))
               (fun i (_ : World T) => init_value init i) 0 (Z.to_nat count))
    as [w2 Hl]; last (rewrite Hl; eauto).
  - apply (ignores_const _ (init_value init)).
  - simpl. apply lookup_insert_eq.
  - intros k Hk. apply Hinit. lia.
  - lia.
  - simpl. rewrite size_mul_exact by lia. nia.
Qed.

Lemma Future_allocate_roomy init count ok this w this' w' :
  Future.allocate init count ok (this, w) = Returns (this', w') ->
  _cap (base this') * Z.pos sizeof_T < Size_modulus ->
  roomy (base this') w'.
Proof.
  intros (cap & Hcap & [(-> & Hst) | (Hne & _ & w2 & Hl & Hst)])%Future_allocate_inv;
    injection Hst as -> ->; simpl; intros Hfit; unfold roomy; simpl.
  - by apply scale_zero in Hcap.
  - apply scale_range in Hcap.
    eapply construct_loop_inv in Hl as (vs & _ & _ & E2 & _);
      [| apply (ignores_const _ (init_value init)) | simpl; apply lookup_insert_eq].
    subst w2. simpl. intros blk. rewrite lookup_insert_eq. intros [= <-]. simpl.
    rewrite size_mul_exact by lia. lia.
Qed.

Lemma Future_grow_returns increment this w vs :
  holds (base this) w vs -> roomy (base this) w -> 0 <= increment ->
  let new_size := _count (base this) + increment in
  new_size < Size_modulus ->
  (_cap (base this) < new_size ->
   exists cap, Float32.scale (multiplier this) new_size = Some cap /\
     new_size <= cap /\ cap * Z.pos sizeof_T < Size_modulus) ->
  exists st', Future._grow increment true (this, w) = Returns st'.
Proof.
  intros Hh Hroom Hk new_size Hfit Hcap. pose proof Hh as [Hc _].
  assert (size_add (_count (base this)) increment = new_size) as Hns.
  { apply size_add_exact; lia. }
  unfold Future._grow. simpl. rewrite Hns.
  replace (new_size - _count (base this)) with increment by (unfold new_size; lia).
  destruct (_cap (base this) <? new_size) eqn:E.
  - destruct Hcap as (cap & -> & Hle & Hsz); [lia|]. unfold malloc.
    set (size := size_mul _ _).
    assert (size = cap * Z.pos sizeof_T) as Hsize.
    { apply size_mul_exact; lia. }
    destruct (relocate_Some (base this) w vs size
                (trace w ++ [EvMalloc size (fresh (dom (heap w)))]) Hh)
      as (w2 & w3 & w4 & H2 & H3 & H4); [nia|].
    destruct (relocate_holds _ _ _ _ _ _ _ _ Hh H2 H3 H4) as [Hb4 _].
    destruct (append_defaults_Some _ _ _ _ (Z.to_nat increment) Hb4) as [w5 H5]; [nia|].
    rewrite H2. simpl. rewrite H3. simpl. rewrite H4.
    rewrite <- Hc in H5. rewrite H5. eauto.
  - destruct (Z.to_nat increment) as [|k] eqn:Ek; [simpl; eauto|].
    destruct (holds_cases _ _ _ Hh) as [(Hp & -> & Hc') | (b & blk & Hp & Hb & Hcells & _)].
    + unfold roomy in Hroom. rewrite Hp in Hroom. lia.
    + unfold roomy in Hroom. rewrite Hp in Hroom. specialize (Hroom _ Hb).
      rewrite Hp, Hc.
      destruct (append_defaults_Some b w vs (bytes blk) (S k)) as [w5 H5].
      { rewrite Hb, <- Hcells. by destruct blk. }
      { nia. }
      rewrite H5. eauto.
Qed.

Lemma Future_grow_roomy increment ok this w this' w' vs :
  holds (base this) w vs -> roomy (base this) w ->
  Future._grow increment ok (this, w) = Returns (this', w') ->
  _cap (base this') * Z.pos sizeof_T < Size_modulus ->
  roomy (base this') w'.
Proof.
  intros Hh Hroom Hg.
  apply Future_grow_inv in Hg
    as [(Hlt & _ & cap & w2 & w3 & w4 & w5 & Hcap & H2 & H3 & H4 & H5 & Hst)
       | (Hle & w5 & H5 & Hst)];
    injection Hst as -> ->; simpl; intros Hfit; unfold roomy; simpl.
  - destruct (relocate_holds _ _ _ _ _ _ _ _ Hh H2 H3 H4) as [Hb4 _].
    pose proof Hh as [Hc _]. rewrite Hc in H5 at 1.
    apply (append_defaults _ _ _ _ _ _ Hb4) in H5.
    apply scale_range in Hcap.
    intros blk. rewrite H5, lookup_insert_eq. intros [= <-]. simpl.
    rewrite size_mul_exact by lia. lia.
  - destruct (Z.to_nat (size_add (_count (base this)) increment - _count (base this)))
      as [|k] eqn:Ek.
    + simpl in H5. injection H5 as <-. exact Hroom.
    + pose proof H5 as (b0 & blk & Hp & Hb)%construct_loop_pointer.
      destruct (holds_cases _ _ _ Hh) as [(Hp' & _) | (b1 & blk1 & Hp1 & Hb1 & Hcells & Hc)];
        [congruence|].
      rewrite Hp in Hp1. injection Hp1 as <-. rewrite Hb in Hb1. injection Hb1 as <-.
      unfold roomy in Hroom. rewrite Hp in Hroom. specialize (Hroom _ Hb).
      rewrite Hp, Hc in H5. rewrite Hp.
      assert (heap w !! b0 = Some {| bytes := bytes blk; cells := cells_of vs |}) as Hb'.
      { rewrite Hb, <- Hcells. by destruct blk. }
      apply (append_defaults _ _ _ _ _ _ Hb') in H5.
      intros blk'. rewrite H5, lookup_insert_eq. by intros [= <-].
Qed.

(** *** Calls that leave by [AllocException] *)

Lemma Future_grow_throws increment ok (st st' : FutureAllocator * World T) :
  Future._grow increment ok st = Throws st' -> st' = st.
Proof.
  destruct st as [this w]. unfold Future._grow. simpl.
  destruct (_ <? _).
  - destruct (Float32.scale _ _); [|done]. unfold malloc. destruct ok.
    + match goal with
      | |- match ?c with _ => _ end = _ -> _ => destruct c; [|done]
      end.
      by destruct (construct_loop _ _ _ _ _).
    + by intros [= <-].
  - by destruct (construct_loop _ _ _ _ _).
Qed.

(** [allocate] has stored the new capacity before it asks for memory. *)
Lemma Future_allocate_throws init count ok this w (st' : FutureAllocator * World T) :
  Future.allocate init count ok (this, w) = Throws st' ->
  exists cap, Float32.scale (multiplier this) count = Some cap /\
    st' = (Future.with_base this
             {| __ptr := __ptr (base this); _count := _count (base this);
                _cap := cap |}, w).
Proof.
  unfold Future.allocate.
  destruct (Float32.scale _ _) as [cap|]; [|done]. destruct (count =? 0); [done|].
  unfold malloc. destruct ok.
  - by destruct (construct_loop _ _ _ _ _).
  - intros [= <-]. eauto.
Qed.

Lemma Future_shrink_not_halted decrement (st : FutureAllocator * World T) msg :
  Future._shrink decrement st <> Halts msg.
Proof.
  unfold Future._shrink, Future.inherited.
  pose proof (Std_shrink_not_halted decrement (base (fst st), snd st)) as Hs.
  destruct (Std._shrink _ _); simpl; try done. intros [= <-]. by apply (Hs msg0).
Qed.

Lemma Future_allocate_not_halted init count ok (st : FutureAllocator * World T) msg :
  Future.allocate init count ok st <> Halts msg.
Proof.
  destruct st as [this w]. unfold Future.allocate.
  destruct (Float32.scale _ _); [|done]. destruct (count =? 0); [done|].
  unfold malloc. destruct ok; [|done].
  by destruct (construct_loop _ _ _ _ _).
Qed.

(** A [_grow] whose new size, after wrap-around, exceeds neither the count
    nor the capacity constructs nothing and changes nothing. *)
Lemma Future_grow_wrapped increment ok this w :
  size_add (_count (base this)) increment <= _count (base this) ->
  size_add (_count (base this)) increment <= _cap (base this) ->
  Future._grow increment ok (this, w) =
    Returns (Future.with_base this
               {| __ptr := __ptr (base this); _count := _count (base this);
                  _cap := _cap (base this) |}, w).
Proof.
  intros Hcount Hcap. unfold Future._grow. cbn [fst snd].
  destruct (_ <? _) eqn:E; [lia|].
  replace (Z.to_nat (size_add (_count (base this)) increment - _count (base this)))
    with O by lia.
  cbn [construct_loop]. by rewrite Z.max_l by lia.
Qed.
End FutureFacts.


(** ** Single-precision rounding: the capacity is never below the count *)

(** The lemmas below follow one multiplication [multiplier * count]
    through [SpecFloat]: the conversion of the count, the rounding of the
    product of the two mantissas, and the truncation back to [Size]. *)

Lemma digits2_bounds p :
  2 ^ (Z.pos (digits2_pos p) - 1) <= Z.pos p < 2 ^ Z.pos (digits2_pos p).
Proof.
  induction p as [p IH|p IH|]; simpl digits2_pos.
  - rewrite Pos2Z.inj_succ. change (Z.pos p~1) with (2 * Z.pos p + 1).
    replace (Z.succ (Z.pos (digits2_pos p)) - 1) with (Z.succ (Z.pos (digits2_pos p) - 1)) by lia.
    rewrite !Z.pow_succ_r by lia.
    remember (2 ^ (Z.pos (digits2_pos p) - 1)) as a.
    remember (2 ^ (Z.pos (digits2_pos p))) as b.
    remember (Z.pos p) as P. clear - IH. lia.
  - rewrite Pos2Z.inj_succ. change (Z.pos p~0) with (2 * Z.pos p).
    replace (Z.succ (Z.pos (digits2_pos p)) - 1) with (Z.succ (Z.pos (digits2_pos p) - 1)) by lia.
    rewrite !Z.pow_succ_r by lia.
    remember (2 ^ (Z.pos (digits2_pos p) - 1)) as a.
    remember (2 ^ (Z.pos (digits2_pos p))) as b.
    remember (Z.pos p) as P. clear - IH. lia.
  - simpl. lia.
Qed.

Lemma digits2_unique p d :
  2 ^ (d - 1) <= Z.pos p < 2 ^ d -> 0 < d -> Z.pos (digits2_pos p) = d.
Proof.
  intros [Hlo Hhi] Hd. pose proof (digits2_bounds p) as [Blo Bhi].
  set (d' := Z.pos (digits2_pos p)) in *.
  assert (d' - 1 < d) by (apply (Z.pow_lt_mono_r_iff 2); lia).
  assert (d - 1 < d') by (apply (Z.pow_lt_mono_r_iff 2); lia).
  lia.
Qed.

Lemma shr_1_m mrs : 0 <= shr_m mrs -> shr_m (shr_1 mrs) = shr_m mrs / 2.
Proof.
  destruct mrs as [m r s]. simpl. intros Hm.
  destruct m as [|q|q]; [reflexivity | | lia].
  destruct q as [p|p|]; simpl.
  - change (Z.pos p~1) with (2 * Z.pos p + 1). apply Z.div_unique with 1; lia.
  - change (Z.pos p~0) with (2 * Z.pos p). apply Z.div_unique with 0; lia.
  - reflexivity.
Qed.

Lemma iter_shr_1_m k mrs :
  0 <= shr_m mrs -> shr_m (SpecFloat.iter_pos shr_1 k mrs) = shr_m mrs / 2 ^ Z.pos k.
Proof.
  revert mrs. induction k as [k IH|k IH|]; intros mrs Hm; simpl SpecFloat.iter_pos.
  - assert (0 <= shr_m (shr_1 mrs)) as H1 by (rewrite shr_1_m by lia; apply Z.div_pos; lia).
    assert (0 <= shr_m (SpecFloat.iter_pos shr_1 k (shr_1 mrs))) as H2.
    { rewrite IH by lia. apply Z.div_pos; lia. }
    rewrite IH, IH, shr_1_m by lia.
    rewrite !Z.div_div by lia. f_equal.
    change (Z.pos k~1) with (2 * Z.pos k + 1). rewrite Z.pow_add_r, Z.pow_mul_r by lia.
    change (2 ^ 2) with 4. change (2 ^ 1) with 2.
    replace 4 with (2 * 2) by lia. rewrite Z.pow_mul_l. lia.
  - assert (0 <= shr_m (SpecFloat.iter_pos shr_1 k mrs)) as H2.
    { rewrite IH by lia. apply Z.div_pos; lia. }
    rewrite IH, IH by lia.
    rewrite !Z.div_div by lia. f_equal.
    change (Z.pos k~0) with (2 * Z.pos k). rewrite Z.pow_mul_r by lia.
    change (2 ^ 2) with 4. replace 4 with (2 * 2) by lia. rewrite Z.pow_mul_l. lia.
  - rewrite shr_1_m by lia. reflexivity.
Qed.

Lemma round_nearest_even_range q l :
  q <= round_nearest_even q l <= q + 1.
Proof.
  unfold round_nearest_even. destruct l as [|[| |]]; try lia.
  destruct (Z.even q); lia.
Qed.

Lemma shr_fexp_exact m E :
  0 < m -> 24 <= Zdigits2 m -> -149 <= Zdigits2 m + E - 24 ->
  shr_m (fst (shr_fexp 24 128 m E loc_Exact)) = m / 2 ^ (Zdigits2 m - 24) /\
  snd (shr_fexp 24 128 m E loc_Exact) = E + (Zdigits2 m - 24).
Proof.
  intros Hm Hd He. unfold shr_fexp, shr, fexp, emin.
  replace (Z.max (Zdigits2 m + E - 24) (3 - 128 - 24) - E) with (Zdigits2 m - 24) by lia.
  destruct (Zdigits2 m - 24) as [|k|k] eqn:Ek; simpl; try lia.
  - split; [|lia]. symmetry. apply Z.div_1_r.
  - split; [|lia]. apply iter_shr_1_m. simpl. lia.
Qed.

Lemma binary_round_aux_lower M E :
  let d := Z.pos (digits2_pos M) in
  24 <= d -> -149 <= d + E - 24 ->
  match binary_round_aux 24 128 false (Z.pos M) E loc_Exact with
  | S754_finite s m e =>
      s = false /\ E + (d - 24) <= e /\ 8388608 <= Z.pos m < 16777216 /\
      Z.pos M / 2 ^ (d - 24) <= Z.pos m * 2 ^ (e - (E + (d - 24)))
  | S754_infinity s => s = false
  | _ => False
  end.
Proof.
  intros d Hd He. unfold binary_round_aux.
  destruct (shr_fexp 24 128 (Z.pos M) E loc_Exact) as [mrs' e'] eqn:E1.
  pose proof (shr_fexp_exact (Z.pos M) E ltac:(lia) Hd He) as [Hq He'].
  rewrite E1 in Hq, He'. cbn [fst snd Zdigits2] in Hq, He'. fold d in Hq, He'.
  pose proof (digits2_bounds M) as [Blo Bhi]. fold d in Blo, Bhi.
  set (q := Z.pos M / 2 ^ (d - 24)) in *.
  assert (8388608 <= q < 16777216) as Hqr.
  { unfold q. split.
    - apply Z.div_le_lower_bound; [apply Z.pow_pos_nonneg; lia|].
      change 8388608 with (2 ^ 23).
      rewrite <- Z.pow_add_r by lia. replace (d - 24 + 23) with (d - 1) by lia. lia.
    - apply Z.div_lt_upper_bound; [apply Z.pow_pos_nonneg; lia|].
      change 16777216 with (2 ^ 24).
      rewrite <- Z.pow_add_r by lia. replace (d - 24 + 24) with d by lia. lia. }
  pose proof (round_nearest_even_range (shr_m mrs') (loc_of_shr_record mrs')) as Hm1.
  set (m1 := round_nearest_even (shr_m mrs') (loc_of_shr_record mrs')) in *.
  rewrite Hq in Hm1.
  destruct (shr_fexp 24 128 m1 e' loc_Exact) as [mrs'' e''] eqn:E2.
  assert (0 < m1) as Hm1pos by lia.
  destruct m1 as [|p1|p1] eqn:Em1; try lia.
  destruct (Z.eq_dec (Z.pos p1) 16777216) as [Heq|Hne].
  - assert (Zdigits2 (Z.pos p1) = 25) as Hd1.
    { cbn [Zdigits2]. apply digits2_unique; [|lia]. rewrite Heq.
      change (2 ^ (25 - 1)) with 16777216. change (2 ^ 25) with 33554432. lia. }
    pose proof (shr_fexp_exact (Z.pos p1) e' ltac:(lia) ltac:(lia) ltac:(lia)) as [Hq2 He2].
    rewrite E2, Hd1 in Hq2, He2. cbn [fst snd] in Hq2, He2.
    rewrite Hq2, Heq. change (16777216 / 2 ^ (25 - 24)) with (Z.pos 8388608).
    destruct (e'' <=? 128 - 24); [|reflexivity].
    split; [reflexivity|]. split; [lia|]. split; [lia|].
    subst e'' e'. replace (E + (d - 24) + (25 - 24) - (E + (d - 24))) with 1 by lia.
    change (Z.pos 8388608 * 2 ^ 1) with 16777216. lia.
  - assert (Zdigits2 (Z.pos p1) = 24) as Hd1.
    { cbn [Zdigits2]. apply digits2_unique; [|lia]. change (2 ^ (24 - 1)) with 8388608.
      change (2 ^ 24) with 16777216. lia. }
    pose proof (shr_fexp_exact (Z.pos p1) e' ltac:(lia) ltac:(lia) ltac:(lia)) as [Hq2 He2].
    rewrite E2, Hd1 in Hq2, He2. cbn [fst snd] in Hq2, He2.
    rewrite Hq2. change (2 ^ (24 - 24)) with 1. rewrite Z.div_1_r.
    destruct (e'' <=? 128 - 24); [|reflexivity].
    split; [reflexivity|]. split; [lia|]. split; [lia|].
    subst e'' e'. replace (E + (d - 24) + (24 - 24) - (E + (d - 24))) with 0 by lia.
    rewrite Z.pow_0_r. lia.
Qed.

Lemma iter_xO_pow p k : Z.pos (Pos.iter xO p k) = Z.pos p * 2 ^ Z.pos k.
Proof.
  induction k as [|k IH] using Pos.peano_ind.
  - simpl. lia.
  - rewrite Pos.iter_succ, Pos2Z.inj_succ, Z.pow_succ_r by lia.
    change (Z.pos (Pos.iter xO p k)~0) with (2 * Z.pos (Pos.iter xO p k)).
    rewrite IH. lia.
Qed.

Lemma of_Size_lower n :
  0 < n ->
  match binary_normalize 24 128 n 0 false with
  | S754_finite s X EX =>
      s = false /\ 8388608 <= Z.pos X < 16777216 /\ -23 <= EX /\
      n * 2 ^ 23 <= (Z.pos X + 1) * 2 ^ (EX + 23)
  | S754_infinity s => s = false
  | _ => False
  end.
Proof.
  intros Hn. destruct n as [|p|p]; try lia. clear Hn.
  unfold binary_normalize, binary_round, shl_align, fexp, emin.
  pose proof (digits2_bounds p) as [Blo Bhi].
  set (dn := Z.pos (digits2_pos p)) in *.
  assert (0 < dn) as Hdn by (unfold dn; lia).
  replace (Z.max (dn + 0 - 24) (3 - 128 - 24)) with (dn - 24) by lia.
  rewrite Z.sub_0_r.
  destruct (dn - 24) as [|k|k] eqn:Ek.
  - (* exactly 24 digits *)
    pose proof (binary_round_aux_lower p 0) as Hr. cbv zeta in Hr. fold dn in Hr.
    specialize (Hr ltac:(lia) ltac:(lia)).
    destruct (binary_round_aux 24 128 false (Z.pos p) 0 loc_Exact) as [| | |s X EX];
      try done.
    destruct Hr as (-> & He & HX & Hlow).
    split; [reflexivity|]. split; [lia|]. split; [lia|].
    replace (dn - 24) with 0 in * by lia. rewrite Z.div_1_r in Hlow.
    rewrite Z.add_0_r in *. rewrite Z.sub_0_r in Hlow.
    rewrite Z.pow_add_r by lia.
    assert (0 < 2 ^ EX) by (apply Z.pow_pos_nonneg; lia).
    assert (0 < 2 ^ 23) by (apply Z.pow_pos_nonneg; lia).
    remember (2 ^ EX) as a. remember (2 ^ 23) as b. remember (Z.pos p) as P.
    remember (Z.pos X) as XX. clear - Hlow H H0. nia.
  - (* more than 24 digits: the mantissa is rounded *)
    pose proof (binary_round_aux_lower p 0) as Hr. cbv zeta in Hr. fold dn in Hr.
    specialize (Hr ltac:(lia) ltac:(lia)).
    destruct (binary_round_aux 24 128 false (Z.pos p) 0 loc_Exact) as [| | |s X EX];
      try done.
    destruct Hr as (-> & He & HX & Hlow).
    split; [reflexivity|]. split; [lia|]. split; [lia|].
    rewrite Ek in *. rewrite Z.add_0_l in *.
    set (sh := Z.pos k) in *.
    assert (0 < 2 ^ sh) as Hsh by (apply Z.pow_pos_nonneg; lia).
    assert (0 < 2 ^ (EX - sh)) as Hd by (apply Z.pow_pos_nonneg; lia).
    assert (0 < 2 ^ 23) by (apply Z.pow_pos_nonneg; lia).
    replace (EX + 23) with (EX - sh + sh + 23) by lia.
    rewrite !Z.pow_add_r by lia.
    pose proof (Z.div_mod (Z.pos p) (2 ^ sh) ltac:(lia)) as Hdm.
    pose proof (Z.mod_pos_bound (Z.pos p) (2 ^ sh) Hsh) as Hmod.
    remember (Z.pos p / 2 ^ sh) as q. remember (Z.pos p mod 2 ^ sh) as r.
    remember (2 ^ sh) as a. remember (2 ^ (EX - sh)) as c. remember (2 ^ 23) as b.
    remember (Z.pos p) as P. remember (Z.pos X) as XX.
    clear - Hlow Hsh Hd H Hdm Hmod.
    assert (q + 1 <= (XX + 1) * c) as H1 by nia.
    assert ((q + 1) * a <= (XX + 1) * c * a) as H2 by nia.
    assert (P <= (XX + 1) * c * a) as H3 by nia.
    nia.
  - (* fewer than 24 digits: the mantissa is shifted left, exactly *)
    set (mz := Pos.iter xO p k).
    assert (Z.pos mz = Z.pos p * 2 ^ Z.pos k) as Hmz by apply iter_xO_pow.
    assert (Z.pos k = 24 - dn) as Hk by lia.
    assert (Z.pos (digits2_pos mz) = 24) as Hdz.
    { apply digits2_unique; [|lia]. rewrite Hmz, Hk.
      assert (2 ^ (24 - 1) = 2 ^ (dn - 1) * 2 ^ (24 - dn)) as ->
        by (rewrite <- Z.pow_add_r by lia; f_equal; lia).
      assert (2 ^ 24 = 2 ^ dn * 2 ^ (24 - dn)) as ->
        by (rewrite <- Z.pow_add_r by lia; f_equal; lia).
      assert (0 < 2 ^ (24 - dn)) by (apply Z.pow_pos_nonneg; lia).
      remember (2 ^ (24 - dn)) as a. remember (2 ^ (dn - 1)) as lo.
      remember (2 ^ dn) as hi. remember (Z.pos p) as P.
      clear - Blo Bhi H. nia. }
    pose proof (binary_round_aux_lower mz (Z.neg k)) as Hr. cbv zeta in Hr.
    rewrite Hdz in Hr. specialize (Hr ltac:(lia) ltac:(lia)).
    destruct (binary_round_aux 24 128 false (Z.pos mz) (Z.neg k) loc_Exact)
      as [| | |s X EX]; try done.
    destruct Hr as (-> & He & HX & Hlow).
    split; [reflexivity|]. split; [lia|]. split; [lia|].
    replace (24 - 24) with 0 in * by lia. rewrite Z.div_1_r in Hlow.
    rewrite Z.add_0_r in *. rewrite Hmz in Hlow.
    replace (EX + 23) with (EX - Z.neg k + (23 - Z.pos k)) by lia.
    replace 23 with (Z.pos k + (23 - Z.pos k)) at 1 by lia.
    rewrite !Z.pow_add_r by lia.
    assert (0 < 2 ^ (EX - Z.neg k)) by (apply Z.pow_pos_nonneg; lia).
    assert (0 < 2 ^ (23 - Z.pos k)) by (apply Z.pow_pos_nonneg; lia).
    assert (0 < 2 ^ Z.pos k) by (apply Z.pow_pos_nonneg; lia).
    remember (2 ^ (EX - Z.neg k)) as a. remember (2 ^ (23 - Z.pos k)) as b.
    remember (2 ^ Z.pos k) as c. remember (Z.pos p) as P. remember (Z.pos X) as XX.
    clear - Hlow H H0 H1. nia.
Qed.

Lemma shiftl_lower m e n K :
  0 <= m -> 0 <= K -> 0 <= e + K -> n * 2 ^ K <= m * 2 ^ (e + K) -> n <= Z.shiftl m e.
Proof.
  intros Hm HK HeK Hle.
  assert (0 < 2 ^ K) by (apply Z.pow_pos_nonneg; lia).
  destruct (Z_le_gt_dec 0 e) as [He|He].
  - rewrite Z.shiftl_mul_pow2 by lia. rewrite Z.pow_add_r in Hle by lia.
    assert (0 < 2 ^ e) by (apply Z.pow_pos_nonneg; lia).
    remember (2 ^ K) as a. remember (2 ^ e) as b. clear - Hle H H0. nia.
  - rewrite Z.shiftl_div_pow2 by lia.
    assert (0 < 2 ^ (- e)) by (apply Z.pow_pos_nonneg; lia).
    assert (0 < 2 ^ (e + K)) by (apply Z.pow_pos_nonneg; lia).
    apply Z.div_le_lower_bound; [lia|].
    replace K with (- e + (e + K)) in Hle at 1 by lia.
    rewrite Z.pow_add_r in Hle by lia.
    remember (2 ^ (- e)) as a. remember (2 ^ (e + K)) as b. clear - Hle H0 H1. nia.
Qed.

(** The truncated product of two 24-bit mantissas, the first one above
    2^23 scaled by 2^e, is at least (X + 1) * 2^23. *)
Lemma truncated_product_lower (Mm X : positive) (e : Z) :
  8388608 <= Z.pos Mm < 16777216 -> 8388608 <= Z.pos X < 16777216 ->
  0 <= e -> (e = 0 -> 8388608 < Z.pos Mm) ->
  let d := Z.pos (digits2_pos (Mm * X)) in
  47 <= d <= 48 /\
  (Z.pos X + 1) * 2 ^ 23 <= Z.pos (Mm * X) / 2 ^ (d - 24) * 2 ^ (d - 24) * 2 ^ e.
Proof.
  intros HM HX He He0 d.
  pose proof (digits2_bounds (Mm * X)) as [Blo Bhi]. fold d in Blo, Bhi.
  rewrite Pos2Z.inj_mul in *.
  assert (70368744177664 <= Z.pos Mm * Z.pos X < 281474976710656) as HP by nia.
  assert (46 < d) as Hd1.
  { apply (Z.pow_lt_mono_r_iff 2); [lia | lia|]. change (2 ^ 46) with 70368744177664. lia. }
  assert (d - 1 < 48) as Hd2.
  { apply (Z.pow_lt_mono_r_iff 2); [lia | lia|]. change (2 ^ 48) with 281474976710656. lia. }
  split; [lia|].
  assert (1 <= 2 ^ e) as Hpe by (apply (Z.pow_le_mono_r 2 0 e); lia).
  assert (e = 0 \/ 2 <= 2 ^ e) as Hcase.
  { destruct (Z.eq_dec e 0) as [->|Hne]; [by left|]. right.
    apply (Z.pow_le_mono_r 2 1 e); lia. }
  remember (2 ^ e) as pe. remember (Z.pos Mm) as A. remember (Z.pos X) as B.
  change (2 ^ 23) with 8388608.
  assert (d = 47 \/ d = 48) as [-> | ->] by lia.
  - change (2 ^ (47 - 24)) with 8388608 in *. change (2 ^ (47 - 1)) with 70368744177664 in *.
    pose proof (Z.div_mod (A * B) 8388608 ltac:(lia)) as Hdm.
    pose proof (Z.mod_pos_bound (A * B) 8388608 ltac:(lia)) as Hmod.
    remember (A * B / 8388608) as q. remember ((A * B) mod 8388608) as r.
    destruct Hcase as [-> | Hpe2].
    + specialize (He0 eq_refl). change (2 ^ 0) with 1 in Heqpe. subst pe.
      clear - HM HX He0 Hdm Hmod. nia.
    + clear - HM HX HP Hdm Hmod Hpe2. nia.
  - change (2 ^ (48 - 24)) with 16777216 in *. change (2 ^ (48 - 1)) with 140737488355328 in *.
    pose proof (Z.div_mod (A * B) 16777216 ltac:(lia)) as Hdm.
    pose proof (Z.mod_pos_bound (A * B) 16777216 ltac:(lia)) as Hmod.
    remember (A * B / 16777216) as q. remember ((A * B) mod 16777216) as r.
    assert (8388608 <= q) as Hq by (clear - Blo Hdm Hmod; lia).
    clear - HM HX Hq Hpe. nia.
Qed.

Lemma multiplier_above_one m :
  valid_binary 24 128 m = true ->
  SFltb (S754_finite false 8388608 (-23)) m = true ->
  m = S754_infinity false \/
  exists Mm Em, m = S754_finite false Mm Em /\
    8388608 <= Z.pos Mm < 16777216 /\ -23 <= Em /\ (Em = -23 -> 8388608 < Z.pos Mm).
Proof.
  intros Hvalid Hlt. unfold SFltb, SFcompare in Hlt.
  destruct m as [s|s| |s Mm Em]; try done.
  - destruct s; [done | by left].
  - destruct s; [done|]. right. exists Mm, Em. split; [done|].
    assert (-23 <= Em /\ (Em = -23 -> 8388608 < Z.pos Mm)) as [He He0].
    { destruct (Z.compare_spec (-23) Em) as [<- | Hlt' | Hgt];
        [| split; lia | done].
      split; [lia|]. intros _.
      change (Pos.compare_cont Eq 8388608 Mm) with (8388608 ?= Mm)%positive in Hlt.
      destruct (Pos.compare_spec 8388608 Mm); first [done | lia]. }
    split; [|done].
    simpl in Hvalid. apply andb_prop in Hvalid as [Hcan _].
    unfold canonical_mantissa, fexp, emin in Hcan. apply Z.eqb_eq in Hcan.
    assert (Z.pos (digits2_pos Mm) = 24) as Hd by lia.
    pose proof (digits2_bounds Mm) as HB. rewrite Hd in HB.
    change (2 ^ (24 - 1)) with 8388608 in HB. change (2 ^ 24) with 16777216 in HB. lia.
Qed.


Lemma scale_covers `{Platform} m n c :
  valid_binary Float32.prec Float32.emax m = true ->
  Float32.ltb Float32.one m = true ->
  Float32.scale m n = Some c -> n <= c.
Proof.
  intros Hvalid Hlt Hscale.
  destruct (Z_le_gt_dec n 0) as [Hn|Hn].
  { apply scale_range in Hscale. lia. }
  unfold Float32.scale, Float32.mul, Float32.of_Size, Float32.prec, Float32.emax in *.
  pose proof (of_Size_lower n ltac:(lia)) as Hx.
  destruct (multiplier_above_one m Hvalid Hlt) as [-> | (Mm & Em & -> & HM & HEm & HEm0)].
  { by destruct (binary_normalize 24 128 n 0 false) as [| | |[] ? ?]. }
  destruct (binary_normalize 24 128 n 0 false) as [| | |s X EX]; try done.
  destruct Hx as (-> & HX & HEX & Hxn).
  cbn [SFmul xorb] in Hscale.
  destruct (truncated_product_lower Mm X (Em + 23) HM HX ltac:(lia) ltac:(intros; apply HEm0; lia))
    as [Hd Hca].
  pose proof (binary_round_aux_lower (Mm * X) (Em + EX)) as Hr. cbv zeta in Hr.
  set (d := Z.pos (digits2_pos (Mm * X))) in *.
  specialize (Hr ltac:(lia) ltac:(lia)).
  destruct (binary_round_aux 24 128 false (Z.pos (Mm * X)) (Em + EX) loc_Exact)
    as [| | |s m2 e2]; try done.
  destruct Hr as (-> & He2 & Hm2 & Hlow).
  unfold Float32.to_Size in Hscale.
  destruct (Z.shiftl (Z.pos m2) e2 <? Size_modulus); [|done].
  injection Hscale as <-.
  apply (shiftl_lower _ _ _ 46); [lia | lia | lia |].
  set (sh := d - 24) in *.
  replace (e2 + 46) with ((e2 - (Em + EX + sh)) + sh + (Em + 23) + (EX + 23)) by lia.
  rewrite !Z.pow_add_r by lia.
  replace 46 with (23 + 23) by lia. rewrite Z.pow_add_r by lia.
  assert (0 < 2 ^ (e2 - (Em + EX + sh))) as P1 by (apply Z.pow_pos_nonneg; lia).
  assert (0 < 2 ^ sh) as P2 by (apply Z.pow_pos_nonneg; lia).
  assert (0 < 2 ^ (Em + 23)) as P3 by (apply Z.pow_pos_nonneg; lia).
  assert (0 < 2 ^ (EX + 23)) as P4 by (apply Z.pow_pos_nonneg; lia).
  assert (0 < 2 ^ 23) as P5 by (apply Z.pow_pos_nonneg; lia).
  remember (2 ^ (e2 - (Em + EX + sh))) as a. remember (2 ^ sh) as b.
  remember (2 ^ (Em + 23)) as c1. remember (2 ^ (EX + 23)) as c2.
  remember (2 ^ 23) as k. remember (Z.pos (Mm * X) / b) as q.
  remember (Z.pos m2) as M2. remember (Z.pos X) as XX.
  clear - Hlow Hca Hxn P1 P2 P3 P4 P5 Hn.
  assert (q * b * c1 <= M2 * a * b * c1) as S1.
  { apply Z.mul_le_mono_nonneg_r; [lia|]. apply Z.mul_le_mono_nonneg_r; lia. }
  assert ((XX + 1) * k * c2 <= M2 * a * b * c1 * c2) as S2.
  { apply Z.mul_le_mono_nonneg_r; lia. }
  assert (n * k * k <= (XX + 1) * c2 * k) as S3.
  { apply Z.mul_le_mono_nonneg_r; lia. }
  lia.
Qed.


(** ** Runs of calls *)

Section Steps.
Context `{Platform} {T : Type} `{Element T}.

Lemma extends_acquisitions (w w' : World T) cs ds m :
  extends w w' cs ds m ->
  acquisitions (trace w') = (acquisitions (trace w) + m)%nat.
Proof.
  intros (evs & -> & _ & _ & <-). unfold acquisitions.
  by rewrite omap_app, length_app.
Qed.

(** One [grow] of the amortized strategy on a well-formed buffer: it
    returns, and what it leaves is again well formed. *)
Lemma Future_grow_step k (this : FutureAllocator) (w : World T) vs cap' :
  holds (base this) w vs -> roomy (base this) w -> 0 <= k ->
  let new_size := _count (base this) + k in
  new_size < Size_modulus ->
  (if _cap (base this) <? new_size
   then Float32.scale (multiplier this) new_size = Some cap' /\
        new_size <= cap' /\ cap' * Z.pos sizeof_T < Size_modulus
   else cap' = _cap (base this) /\ cap' * Z.pos sizeof_T < Size_modulus) ->
  exists this' w',
    Future._grow k true (this, w) = Returns (this', w') /\
    holds (base this') w' (vs ++ replicate (Z.to_nat k) T_default) /\
    roomy (base this') w' /\
    multiplier this' = multiplier this /\
    _count (base this') = new_size /\ _cap (base this') = cap' /\
    acquisitions (trace w') =
      (acquisitions (trace w) + (if (_cap (base this) <? new_size)%Z then 1 else 0))%nat.
Proof.
  intros Hh Hroom Hk new_size Hfit Hcap. pose proof Hh as [Hc _].
  assert (size_add (_count (base this)) k = new_size) as Hns.
  { apply size_add_exact; lia. }
  destruct (Future_grow_returns k this w vs Hh Hroom Hk Hfit) as [[this' w'] Hg].
  { intros Hlt. fold new_size. destruct (_ <? _) eqn:E; [|lia]. eauto. }
  exists this', w'. split; [exact Hg|].
  pose proof (Future_grow_extends _ _ _ _ _ _ Hg) as Hext. cbv zeta in Hext.
  destruct (Future_grow_holds _ _ _ _ _ _ _ Hh Hg) as (Hh' & Hc' & Hm' & Hbranch).
  rewrite Hns in Hh', Hc', Hbranch, Hext.
  replace (new_size - _count (base this)) with k in Hh' by (unfold new_size; lia).
  assert (_cap (base this') = cap') as Hcap'.
  { destruct Hbranch as [(Hlt & Hs & _) | (Hle & Hs & _)].
    - destruct (_ <? _) eqn:E; [|lia]. destruct Hcap as (Hs' & _). congruence.
    - destruct (_ <? _) eqn:E; [lia|]. destruct Hcap as (-> & _). done. }
  split; [exact Hh'|]. split.
  { apply (Future_grow_roomy k true this w this' w' vs Hh Hroom Hg). rewrite Hcap'.
    destruct (_ <? _); destruct Hcap as (? & ?); lia. }
  split; [done|]. split; [lia|]. split; [done|].
  destruct (_ <? _); by eapply extends_acquisitions.
Qed.

Lemma Std_grow_one_step (this : StdAllocator) (w : World T) vs :
  holds this w vs -> (_count this + 1) * Z.pos sizeof_T < Size_modulus ->
  exists this' w',
    Std._grow 1 true (this, w) = Returns (this', w') /\
    holds this' w' (vs ++ [T_default]) /\
    _count this' = _count this + 1 /\
    acquisitions (trace w') = S (acquisitions (trace w)).
Proof.
  intros Hh Hfit. pose proof Hh as [Hc _].
  destruct (Std_grow_returns 1 this w vs Hh ltac:(lia) Hfit) as [[this' w'] Hg].
  exists this', w'. split; [exact Hg|].
  pose proof (Std_grow_extends _ _ _ _ _ _ Hg) as Hext. cbv zeta in Hext.
  destruct (Std_grow_holds _ _ _ _ _ _ _ Hh Hg) as (Hh' & _ & Hc' & _).
  rewrite size_add_exact in Hh', Hc' by nia.
  replace (_count this + 1 - _count this) with 1 in Hh' by lia.
  split; [exact Hh'|]. split; [exact Hc'|].
  rewrite (extends_acquisitions _ _ _ _ _ Hext). lia.
Qed.

Lemma run_cons {A : Type} `{!Allocator T A} op ops (st st1 : A * World T) :
  step op st = Returns st1 -> run (op :: ops) st = run ops st1.
Proof. intros Hs. simpl. by rewrite Hs. Qed.

(** [n] calls of [grow(1)] in the exact-fit strategy: [n] blocks. *)
Lemma Std_run_grows (n : nat) (this : StdAllocator) (w : World T) vs :
  holds this w vs -> (_count this + Z.of_nat n) * Z.pos sizeof_T < Size_modulus ->
  exists this' w',
    run (replicate n (OpGrow 1 true)) (this, w) = Returns (this', w') /\
    _count this' = _count this + Z.of_nat n /\
    acquisitions (trace w') = (acquisitions (trace w) + n)%nat.
Proof.
  revert this w vs. induction n as [|n IH]; intros this w vs Hh Hfit.
  - exists this, w. simpl. repeat split; lia.
  - destruct (Std_grow_one_step this w vs Hh) as (this1 & w1 & Hg & Hh1 & Hc1 & Ha1); [nia|].
    destruct (IH this1 w1 _ Hh1) as (this' & w' & Hrun & Hc' & Ha'); [rewrite Hc1; nia|].
    exists this', w'. split; [|split; lia].
    cbn [replicate]. rewrite (run_cons _ _ _ (this1, w1)); [exact Hrun | exact Hg].
Qed.

Lemma scale_any_platform (P1 P2 : Platform) m n c :
  Float32.scale (H:=P1) m n = Some c -> c < Size_modulus (H:=P2) ->
  Float32.scale (H:=P2) m n = Some c.
Proof.
  unfold Float32.scale, Float32.to_Size.
  destruct (Float32.mul m (Float32.of_Size n)) as [s| | |s mm e]; try done.
  destruct s; [done|].
  destruct (_ <? Size_modulus (H:=P1)); [|done]. intros [= <-] Hc.
  destruct (_ <? Size_modulus (H:=P2)) eqn:E; [done|lia].
Qed.
End Steps.


(** ** The capacity along a run of the amortized strategy *)

Section Invariant.
Context `{Platform} {T : Type} `{Element T}.

(** One call of the amortized strategy keeps the count within the
    capacity, for a multiplier above 1.0. *)
Lemma Future_step_invariant (op : Op T) (this : FutureAllocator) (w : World T) st' :
  valid_binary Float32.prec Float32.emax (multiplier this) = true ->
  Float32.ltb Float32.one (multiplier this) = true ->
  _count (base this) <= _cap (base this) ->
  step op (this, w) = Returns st' ->
  _count (base (fst st')) <= _cap (base (fst st')) /\
  multiplier (fst st') = multiplier this.
Proof.
  intros Hvalid Hlt Hinv.
  assert (forall k ok st', Future._grow k ok (this, w) = Returns st' ->
            _count (base (fst st')) <= _cap (base (fst st')) /\
            multiplier (fst st') = multiplier this) as Hgrow.
  { intros k ok st1 Hg.
    pose proof (size_add_range (_count (base this)) k) as Hr.
    apply Future_grow_inv in Hg
      as [(Hcap & _ & cap & w2 & w3 & w4 & w5 & Hs & _ & _ & _ & _ & ->)
         | (Hle & w5 & _ & ->)]; simpl; (split; [|done]).
    - apply (scale_covers _ _ _ Hvalid Hlt) in Hs. lia.
    - lia. }
  assert (forall k st', Future._shrink k (this, w) = Returns st' ->
            _count (base (fst st')) <= _cap (base (fst st')) /\
            multiplier (fst st') = multiplier this) as Hshrink.
  { intros k [this1 w1] (b' & Hs & ->)%inherited_Returns.
    apply Std_shrink_inv in Hs as (w2 & _ & [= -> ->]). simpl. split; [lia | done]. }
  destruct op as [init n ok|k ok|k|c ok|]; intros Hs.
  - change (Future.allocate init n ok (this, w) = Returns st') in Hs.
    apply Future_allocate_inv in Hs
      as (cap & Hcap & [(-> & ->) | (Hne & _ & w2 & _ & ->)]); simpl; (split; [|done]).
    + apply scale_range in Hcap. lia.
    + by apply (scale_covers _ _ _ Hvalid Hlt) in Hcap.
  - exact (Hgrow k ok st' Hs).
  - exact (Hshrink k st' Hs).
  - change (resize (A:=FutureAllocator) c ok (this, w) = Returns st') in Hs.
    unfold resize in Hs. destruct (_ <? _).
    + exact (Hgrow _ ok st' Hs).
    + destruct (_ <? _).
      * exact (Hshrink _ st' Hs).
      * by injection Hs as <-.
  - change (Future.inherited Std.free (this, w) = Returns st') in Hs.
    destruct st' as [this1 w1]. apply inherited_Returns in Hs as (b' & Hs & ->).
    apply Std_free_inv in Hs as (w2 & w3 & _ & _ & [= -> ->]). done.
Qed.

Lemma Future_run_invariant (ops : list (Op T)) (this : FutureAllocator) (w : World T) st' :
  valid_binary Float32.prec Float32.emax (multiplier this) = true ->
  Float32.ltb Float32.one (multiplier this) = true ->
  _count (base this) <= _cap (base this) ->
  run ops (this, w) = Returns st' ->
  _count (base (fst st')) <= _cap (base (fst st')) /\
  multiplier (fst st') = multiplier this.
Proof.
  revert this w. induction ops as [|op ops IH]; intros this w Hvalid Hlt Hinv Hrun.
  - simpl in Hrun. by injection Hrun as <-.
  - simpl in Hrun. destruct (step op (this, w)) as [[this1 w1]| | |] eqn:Hs; try done.
    destruct (Future_step_invariant _ _ _ _ Hvalid Hlt Hinv Hs) as [Hinv1 Hm1].
    simpl in Hinv1, Hm1.
    destruct (IH this1 w1) as [Hinv' Hm']; try done; try congruence.
    split; [done | congruence].
Qed.
End Invariant.

Lemma scale_one_and_a_half `{Platform} n :
  0 <= n < 4096 -> 6144 <= Size_modulus ->
  Float32.scale Float32.one_and_a_half n = Some (3 * n / 2).
Proof.
  intros Hn HM.
  assert (floor_check 4096 = true) as Hcheck by (by vm_compute).
  unfold floor_check in Hcheck. rewrite forallb_forall in Hcheck.
  specialize (Hcheck n). rewrite Zseq_In in Hcheck.
  change (Z.of_nat 4096) with 4096 in Hcheck.
  assert (0 <= n < 0 + 4096) as Hr by (clear - Hn; lia). specialize (Hcheck Hr).
  destruct (Float32.scale (H:=release64) Float32.one_and_a_half n) as [c|] eqn:Hs; [|done].
  apply Z.eqb_eq in Hcheck. subst c.
  apply (scale_any_platform release64 H _ _ _ Hs).
  assert (3 * n / 2 < 6144) by (apply Z.div_lt_upper_bound; lia). lia.
Qed.

Lemma holds_read_outside {T} (this : StdAllocator) (w : World T) vs i :
  holds this w vs -> Z.of_nat (length vs) <= i -> read (__ptr this) i w = None.
Proof.
  intros Hh Hi.
  destruct (holds_cases _ _ _ Hh) as [(Hp & _) | (b & blk & Hp & Hb & Hcells & _)];
    rewrite Hp; [done|].
  unfold read. rewrite Hb. simpl. rewrite Hcells, lookup_cells_of.
  case_decide; [lia | done].
Qed.


(** ** The size of a block *)

Section BlockSizes.
Context `{Platform} {T : Type} `{Element T}.
Implicit Types (w : World T) (p : pointer) (b : positive).

(** A byte count that fits [size_t] is not changed by the multiplication. *)
Lemma size_mul_small (a c : Z) :
  0 <= a -> 0 <= c -> a * c < size_t_modulus -> size_mul a c = a * c.
Proof. intros. unfold size_mul. apply Z.mod_small. nia. Qed.

(** Constructing and destructing elements leaves every block its size. *)
Lemma placement_new_bytes p i v w w' b blk :
  placement_new p i v w = Some w' -> heap w !! b = Some blk ->
  exists blk', heap w' !! b = Some blk' /\ bytes blk' = bytes blk.
Proof.
  destruct p as [| |b0]; try done. intros Hp Hb.
  apply placement_new_inv in Hp as (blk0 & Hb0 & _ & _ & ->). simpl.
  destruct (decide (b0 = b)) as [->|Hne].
  - rewrite lookup_insert_eq. assert (blk0 = blk) as -> by congruence. eauto.
  - rewrite lookup_insert_ne by done. eauto.
Qed.

Lemma destroy_bytes p i w w' b blk :
  destroy p i w = Some w' -> heap w !! b = Some blk ->
  exists blk', heap w' !! b = Some blk' /\ bytes blk' = bytes blk.
Proof.
  destruct p as [| |b0]; try done. intros Hp Hb.
  apply destroy_inv in Hp as (blk0 & Hb0 & _ & ->). simpl.
  destruct (decide (b0 = b)) as [->|Hne].
  - rewrite lookup_insert_eq. assert (blk0 = blk) as -> by congruence. eauto.
  - rewrite lookup_insert_ne by done. eauto.
Qed.

Lemma construct_loop_bytes p src from n w w' b blk :
  construct_loop p src from n w = Some w' -> heap w !! b = Some blk ->
  exists blk', heap w' !! b = Some blk' /\ bytes blk' = bytes blk.
Proof.
  revert from w blk. induction n as [|n IH]; intros from w blk Hl Hb; simpl in Hl.
  - injection Hl as <-. eauto.
  - apply bind_Some in Hl as (v & _ & Hl).
    apply bind_Some in Hl as (w1 & Hp & Hl).
    destruct (placement_new_bytes _ _ _ _ _ _ _ Hp Hb) as (blk1 & Hb1 & E1).
    destruct (IH _ _ _ Hl Hb1) as (blk' & Hb' & E'). exists blk'. split; [done|].
    congruence.
Qed.

Lemma destruct_up_bytes p from n w w' b blk :
  destruct_up p from n w = Some w' -> heap w !! b = Some blk ->
  exists blk', heap w' !! b = Some blk' /\ bytes blk' = bytes blk.
Proof.
  revert from w blk. induction n as [|n IH]; intros from w blk Hl Hb; simpl in Hl.
  - injection Hl as <-. eauto.
  - apply bind_Some in Hl as (w1 & Hp & Hl).
    destruct (destroy_bytes _ _ _ _ _ _ Hp Hb) as (blk1 & Hb1 & E1).
    destruct (IH _ _ _ Hl Hb1) as (blk' & Hb' & E'). exists blk'. split; [done|].
    congruence.
Qed.

(** The block an amortized [allocate] of at least one element leaves
    behind the pointer has the byte count that was passed to [::malloc]. *)
Lemma Future_allocate_block init n ok (this this' : FutureAllocator) w w' :
  n <> 0 -> Future.allocate init n ok (this, w) = Returns (this', w') ->
  exists blk,
    __ptr (base this') = Blk (fresh (dom (heap w))) /\
    heap w' !! fresh (dom (heap w)) = Some blk /\
    bytes blk = size_mul (_cap (base this')) (Z.pos sizeof_T).
Proof.
  intros Hn Ha.
  apply Future_allocate_inv in Ha as (cap & _ & [[-> _] | (_ & _ & w2 & Hl & Hst)]);
    [done|].
  injection Hst as -> ->.
  eapply construct_loop_bytes in Hl as (blk & Hb & E);
    [| by simpl; rewrite lookup_insert_eq].
  exists blk. by repeat split.
Qed.

(** The block a reallocating amortized [_grow] leaves behind the pointer
    has the byte count that was passed to [::malloc]. *)
Lemma Future_grow_block k ok (this this' : FutureAllocator) w w' :
  0 <= _cap (base this) ->
  _cap (base this) < size_add (_count (base this)) k ->
  Future._grow k ok (this, w) = Returns (this', w') ->
  exists blk,
    heap w' !! fresh (dom (heap w)) = Some blk /\
    bytes blk = size_mul (_cap (base this')) (Z.pos sizeof_T).
Proof.
  intros Hcap Hlt Hg.
  apply Future_grow_inv in Hg as
    [(_ & _ & cap & w2 & w3 & w4 & w5 & _ & H2 & H3 & H4 & H5 & Hst) | (Hle & _)];
    [|cbv zeta in Hle; lia].
  injection Hst as -> ->. cbn [base Future.with_base _cap].
  set (b' := fresh (dom (heap w))) in *.
  assert (__ptr (base this) <> Blk b') as Hold.
  { (* a stored pointer with the number of the new block was dangling *)
    intros Hp. destruct (Z.to_nat (_count (base this))) as [|n] eqn:En.
    - destruct (Z.to_nat (size_add (_count (base this)) k - _count (base this)))
        as [|j] eqn:Ej; [lia|].
      rewrite Hp in H4. apply c_free_inv in H4 as [_ ->].
      apply construct_loop_pointer in H5 as (b0 & blk0 & [= <-] & Hb0).
      simpl in Hb0. by rewrite lookup_delete_eq in Hb0.
    - by apply copy_into_new_block in H2 as [Hne _]. }
  eapply construct_loop_bytes in H2 as (blk2 & Hb2 & E2);
    [| by simpl; rewrite lookup_insert_eq].
  destruct (destruct_up_bytes _ _ _ _ _ _ _ H3 Hb2) as (blk3 & Hb3 & E3).
  assert (heap w4 !! b' = Some blk3) as Hb4.
  { destruct (__ptr (base this)) as [| |b] eqn:Hp; [| done |].
    - by injection H4 as <-.
    - apply c_free_inv in H4 as [_ ->]. simpl.
      rewrite lookup_delete_ne; [done | congruence]. }
  destruct (construct_loop_bytes _ _ _ _ _ _ _ _ H5 Hb4) as (blk5 & Hb5 & E5).
  exists blk5. split; [done|]. simpl in *. congruence.
Qed.
End BlockSizes.

(** ** The capacity along a run of the exact-fit strategy *)

Section StdInvariant.
Context `{Platform} {T : Type} `{Element T}.

(** Every call but [allocate] keeps the count within the capacity. *)
Lemma Std_step_invariant (op : Op T) (this : StdAllocator) (w : World T) st' :
  (forall init n ok, op <> OpAllocate init n ok) ->
  _count this <= _cap this ->
  step op (this, w) = Returns st' ->
  _count (fst st') <= _cap (fst st').
Proof.
  intros Hop Hinv.
  assert (Hgrow : forall k ok, Std._grow k ok (this, w) = Returns st' ->
            _count (fst st') <= _cap (fst st')).
  { intros k ok Hg. destruct st' as [this' w'].
    pose proof (Std_grow_count _ _ _ _ _ _ Hg) as Hle.
    apply Std_grow_inv in Hg as (w2 & w3 & w4 & w5 & _ & _ & _ & _ & _ & [= -> ->]).
    simpl. lia. }
  assert (Hshrink : forall k, Std._shrink k (this, w) = Returns st' ->
            _count (fst st') <= _cap (fst st')).
  { intros k Hs. apply Std_shrink_inv in Hs as (w1 & _ & ->). simpl. lia. }
  destruct op as [init n ok | k ok | k | c ok |]; simpl.
  - by destruct (Hop init n ok).
  - apply Hgrow.
  - apply Hshrink.
  - unfold resize, grow, shrink. cbn [fst count StdAllocator_Allocator _grow _shrink].
    destruct (_ <? _); [apply Hgrow|].
    destruct (_ <? _); [apply Hshrink|]. by intros [= <-].
  - intros Hf. apply Std_free_inv in Hf as (w1 & w2 & _ & _ & ->). simpl. lia.
Qed.

Lemma Std_run_invariant (ops : list (Op T)) (this : StdAllocator) (w : World T) st' :
  (forall init n ok, ~ In (OpAllocate init n ok) ops) ->
  _count this <= _cap this ->
  run ops (this, w) = Returns st' ->
  _count (fst st') <= _cap (fst st').
Proof.
  revert this w. induction ops as [|op ops IH]; intros this w Hops Hinv.
  - simpl. by intros [= <-].
  - cbn [run]. destruct (step op (this, w)) as [[this1 w1]| | |] eqn:E; try done.
    apply IH.
    + intros init n ok Hin. apply (Hops init n ok). by right.
    + apply (Std_step_invariant op this w (this1, w1)); [|done|done].
      intros init n ok ->. apply (Hops init n ok). by left.
Qed.
End StdInvariant.

(** The block [allocate] acquires in the amortized strategy has room for the
    capacity when [capacity * sizeof(T)] fits [size_t]. *)
Lemma Future_allocate_roomy_size_t `{Platform} {T : Type} `{Element T}
    (init : Init T) (count : Z) (ok : bool)
    (this this' : FutureAllocator) (w w' : World T) :
  Future.allocate init count ok (this, w) = Returns (this', w') ->
  _cap (base this') * Z.pos sizeof_T < size_t_modulus ->
  roomy (base this') w'.
Proof.
  intros (cap & Hcap & [(-> & Hst) | (Hne & _ & w2 & Hl & Hst)])%Future_allocate_inv;
    injection Hst as -> ->; simpl; intros Hfit; unfold roomy; simpl.
  - by apply scale_zero in Hcap.
  - apply scale_range in Hcap.
    eapply construct_loop_inv in Hl as (vs & _ & _ & E2 & _);
      [| apply (ignores_const _ (init_value init)) | simpl; apply lookup_insert_eq].
    subst w2. simpl. intros blk. rewrite lookup_insert_eq. intros [= <-]. simpl.
    rewrite size_mul_small by lia. lia.
Qed.

(** * The properties of the buffer *)

(** ** resize *)

(** C7. For every buffer and every count [c] that is a [Size]: [resize(c)]
    is the call [grow(c - count)] when [c > count], the call
    [shrink(count - c)] when [c < count], and returns with the state
    untouched when [c == count].  This holds for every implementation of
    the Allocator interface. *)
Theorem resize_is_grow_or_shrink `{Platform} {T : Type} `{Element T}
    {A : Type} `{!Allocator T A} (c : Z) (ok : bool) (st : A * World T) :
  is_Size c -> is_Size (count (fst st)) ->
  (count (fst st) < c -> resize c ok st = grow (c - count (fst st)) ok st) /\
  (c < count (fst st) -> resize c ok st = shrink (count (fst st) - c) st) /\
  (c = count (fst st) -> resize c ok st = Returns st).
Proof.
  intros [Hc0 Hc1] [Hn0 Hn1]. unfold resize. repeat split.
  - intros Hlt. destruct (count (fst st) <? c) eqn:E; [|lia].
    f_equal. unfold size_sub. apply Z.mod_small. lia.
  - intros Hlt. destruct (count (fst st) <? c) eqn:E; [lia|].
    destruct (c <? count (fst st)) eqn:E'; [|lia].
    f_equal. unfold size_sub. apply Z.mod_small. lia.
  - intros ->. by rewrite !Z.ltb_irrefl.
Qed.

(** The three cases of C7 on an exact-fit buffer of three elements. *)
Lemma resize_is_grow_or_shrink_witness :
  (is_Size (H:=debug64) 5 /\ is_Size (H:=debug64) 1 /\
   is_Size (H:=debug64) (_count (fst three_ints))) /\
  resize (H:=debug64) (H0:=int_Element) 5 true three_ints
    = grow (H:=debug64) (H0:=int_Element) (5 - 3) true three_ints /\
  resize (H:=debug64) (H0:=int_Element) 1 true three_ints
    = shrink (H:=debug64) (H0:=int_Element) (3 - 1) three_ints /\
  resize (H:=debug64) (H0:=int_Element) 3 true three_ints = Returns three_ints.
Proof.
  assert (forall z, 0 <= z < 10 -> is_Size (H:=debug64) z) as Hsz.
  { intros z Hz. unfold is_Size, Size_modulus. simpl. lia. }
  pose proof (@resize_is_grow_or_shrink debug64 Z int_Element StdAllocator _) as R.
  split; [|split; [|split]].
  - repeat split; apply Hsz; simpl; lia.
  - apply (R 5 true three_ints); [apply Hsz; simpl; lia .. | simpl; lia].
  - apply (R 1 true three_ints); [apply Hsz; simpl; lia .. | simpl; lia].
  - apply (R 3 true three_ints); [apply Hsz; simpl; lia .. | done].
Defined.

(** ** free *)

(** C10. When the contract check lets [free] pass (an optimised build, or
    a check that halts when its condition holds), [free] on a buffer that
    holds its elements returns; [count()] and [capacity()] then report what
    they reported before, the elements have been destructed and the block
    released, and with [NDEBUG] the stored pointer is the old one.  In
    both strategies; and whenever [free] returns at all, from any state,
    the two observers are unchanged. *)
Theorem free_keeps_count_and_capacity `{Platform} {T : Type} `{Element T} :
  NDEBUG = true \/ CHI_ASSERT_halts_on = true ->
  (forall (this : StdAllocator) (w : World T) vs, holds this w vs ->
     exists this' w', free (this, w) = Returns (this', w') /\
       count this' = count this /\ capacity this' = capacity this /\
       count this' = Z.of_nat (length vs) /\
       (NDEBUG = true -> _ptr this' = _ptr this) /\
       extends w w' [] (Zseq 0 (length vs)) 0 /\
       (forall b, _ptr this = Blk b -> heap w' !! b = None)) /\
  (forall (this : FutureAllocator) (w : World T) vs, holds (base this) w vs ->
     exists this' w', free (this, w) = Returns (this', w') /\
       count this' = count this /\ capacity this' = capacity this /\
       count this' = Z.of_nat (length vs) /\
       (NDEBUG = true -> _ptr this' = _ptr this) /\
       extends w w' [] (Zseq 0 (length vs)) 0 /\
       (forall b, _ptr this = Blk b -> heap w' !! b = None)) /\
  (forall (st st' : StdAllocator * World T), free st = Returns st' ->
     count (fst st') = count (fst st) /\ capacity (fst st') = capacity (fst st)) /\
  (forall (st st' : FutureAllocator * World T), free st = Returns st' ->
     count (fst st') = count (fst st) /\ capacity (fst st') = capacity (fst st)).
Proof.
  intros Hbuild.
  assert (CHI_ASSERT false "Double free in StdAllocator" = None) as Hassert.
  { unfold CHI_ASSERT. destruct Hbuild as [-> | ->]; [done|]. by destruct NDEBUG. }
  split; [|split; [|split]].
  - intros this w vs Hh.
    destruct (Std_free_holds _ _ _ Hh Hassert) as (w' & Hf & Hext & Hgone).
    eexists _, w'. split; [exact Hf|]. simpl. destruct Hh as [Hc _].
    repeat split; try done. by intros ->.
  - intros this w vs Hh.
    destruct (Future_free_holds _ _ _ Hh Hassert) as (w' & Hf & Hext & Hgone).
    eexists _, w'. split; [exact Hf|]. simpl. destruct Hh as [Hc _].
    repeat split; try done. unfold Future._ptr. simpl. by intros ->.
  - intros [this w] st' Hf. change (Std.free (this, w) = Returns st') in Hf.
    by apply Std_free_inv in Hf as (w1 & w2 & _ & _ & ->).
  - intros [this w] [this' w'] Hf.
    change (Future.inherited Std.free (this, w) = Returns (this', w')) in Hf.
    apply inherited_Returns in Hf as (b' & Hf & ->).
    by apply Std_free_inv in Hf as (w1 & w2 & _ & _ & [= -> ->]).
Qed.

(** C10 on the exact-fit buffer [three_ints]: after [free], [count()] is
    still 3. *)
Lemma free_keeps_count_and_capacity_witness :
  (NDEBUG (Platform:=debug64) = true \/ CHI_ASSERT_halts_on (Platform:=debug64) = true) /\
  holds (fst three_ints) (snd three_ints) [0; 0; 0] /\
  exists this' w',
    Std.free (H:=debug64) three_ints = Returns (this', w') /\
    _count this' = 3 /\ _cap this' = 0.
Proof.
  assert (holds (fst three_ints) (snd three_ints) [0; 0; 0]) as Hh.
  { split; [done|]. simpl. eexists. split; [reflexivity|]. by vm_compute. }
  split; [by right|]. split; [exact Hh|].
  destruct (free_keeps_count_and_capacity (H:=debug64) (H0:=int_Element)
              (or_intror eq_refl)) as (Hstd & _).
  destruct (Hstd _ _ _ Hh) as (this' & w' & Hf & Hc & Hcap & _).
  exists this', w'. split; [exact Hf|]. split; [exact Hc | exact Hcap].
Defined.

(** ** Allocation failure *)

(** C3 at the failing input: an amortized allocator with multiplier 1.5
    whose [allocate(4)] cannot get memory leaves by [AllocException] with
    [capacity()] changed from 0 to 6. *)
Theorem failed_allocate_changes_capacity :
  exists this',
    Future.allocate (H:=release64) (H0:=int_Element) Init_default 4 false fresh_future
      = Throws (this', empty_world) /\
    Future.capacity (fst fresh_future) = 0 /\
    Future.capacity this' = 6 /\
    Future.count this' = 0 /\ Future._ptr this' = Null.
Proof. eexists. split; [by vm_compute | done]. Qed.

(** The three other paths that ask for memory change nothing when they
    fail, and the failed amortized [allocate] changes the capacity only. *)
Lemma allocation_failure_elsewhere `{Platform} {T : Type} `{Element T} :
  (forall init n ok (st st' : StdAllocator * World T),
     Std.allocate init n ok st = Throws st' -> st' = st) /\
  (forall k ok (st st' : StdAllocator * World T),
     Std._grow k ok st = Throws st' -> st' = st) /\
  (forall k ok (st st' : FutureAllocator * World T),
     Future._grow k ok st = Throws st' -> st' = st) /\
  (forall init n ok (st st' : FutureAllocator * World T),
     Future.allocate init n ok st = Throws st' ->
     snd st' = snd st /\ Future.count (fst st') = Future.count (fst st) /\
     Future._ptr (fst st') = Future._ptr (fst st) /\
     Float32.scale (multiplier (fst st)) n = Some (Future.capacity (fst st'))).
Proof.
  split; [|split; [|split]].
  - intros *. apply Std_allocate_throws.
  - intros *. apply Std_grow_throws.
  - intros *. apply Future_grow_throws.
  - intros init n ok [this w] st' (cap & Hcap & ->)%Future_allocate_throws. done.
Qed.

(** ** Contract checks *)

(** C5 fails for [shrink]: in a debug build, whichever way the contract
    check is read, shrinking a buffer of three elements by five returns
    and leaves the buffer as it was.  It fails for the multiplier 1.0 as
    well, which the constructor accepts. *)
Lemma shrink_past_count_is_not_halted :
  Std._shrink (H:=debug64) 5 three_ints = Returns three_ints /\
  Std._shrink (H:=debug64_assert_true) 5 three_ints = Returns three_ints /\
  Future.new (H:=debug64) Float32.one
    = Returns {| base := Std.new; multiplier := Float32.one |}.
Proof. repeat split; by vm_compute. Qed.

(** C5, amended.  In a debug build whose contract check halts when its
    condition holds: the exact-fit [allocate] halts on a buffer whose
    pointer is a block (so after an [allocate] of at least one element a
    second [allocate] halts), [free] halts on a buffer that a returning
    [free] has left, in both strategies, and the amortized constructor
    halts for a multiplier below 1.0, each with its diagnostic.  A
    multiplier that is not below 1.0 is accepted; the exact-fit [allocate]
    after [allocate(0)] is not halted; [_shrink] and the amortized
    [allocate] are never halted, in any build. *)
Theorem contract_checks_in_debug_builds `{Platform} {T : Type} `{Element T} :
  NDEBUG = false -> CHI_ASSERT_halts_on = true ->
  (forall init n ok this (w : World T) b, __ptr this = Blk b ->
     Std.allocate init n ok (this, w) =
       Halts "Allocating with StdAllocator while already allocated, this is a memory leak") /\
  (forall init n ok (st st' : StdAllocator * World T) init' n' ok',
     n <> 0 -> Std.allocate init n ok st = Returns st' ->
     Std.allocate init' n' ok' st' =
       Halts "Allocating with StdAllocator while already allocated, this is a memory leak") /\
  (forall init ok (st st' : StdAllocator * World T) init' n' ok' msg,
     Std.allocate init 0 ok st = Returns st' ->
     Std.allocate init' n' ok' st' <> Halts msg) /\
  (forall (st st' : StdAllocator * World T),
     Std.free st = Returns st' -> Std.free st' = Halts "Double free in StdAllocator") /\
  (forall (st st' : FutureAllocator * World T),
     Future.free st = Returns st' -> Future.free st' = Halts "Double free in StdAllocator") /\
  (forall m, Float32.ltb m Float32.one = true ->
     Future.new m = Halts "Multiplier should not be less than 1.") /\
  (forall m, Float32.ltb m Float32.one = false ->
     Future.new m = Returns {| base := Std.new; multiplier := m |}) /\
  (forall k (st : StdAllocator * World T) msg, Std._shrink k st <> Halts msg) /\
  (forall k (st : FutureAllocator * World T) msg, Future._shrink k st <> Halts msg) /\
  (forall init n ok (st : FutureAllocator * World T) msg,
     Future.allocate init n ok st <> Halts msg).
Proof.
  intros Hdebug Hpol.
  assert (forall msg, CHI_ASSERT true msg = Some msg) as Hfire.
  { intros msg. unfold CHI_ASSERT. by rewrite Hdebug, Hpol. }
  assert (forall msg, CHI_ASSERT false msg = None) as Hpass.
  { intros msg. unfold CHI_ASSERT. by rewrite Hdebug, Hpol. }
  assert (forall init n ok this (w : World T) b, __ptr this = Blk b ->
     Std.allocate init n ok (this, w) =
       Halts "Allocating with StdAllocator while already allocated, this is a memory leak")
    as Hallocate.
  { intros init n ok this w b Hp. unfold Std.allocate. rewrite Hp. simpl.
    by rewrite Hfire. }
  assert (forall (st st' : StdAllocator * World T),
     Std.free st = Returns st' -> Std.free st' = Halts "Double free in StdAllocator")
    as Hfree.
  { intros [this w] st' (w1 & w2 & _ & _ & ->)%Std_free_inv.
    unfold Std.free. simpl. rewrite Hdebug. simpl. by rewrite Hfire. }
  split; [exact Hallocate|]. split; [|split; [|split; [exact Hfree|split]]].
  - intros init n ok [this w] st' init' n' ok' Hn Ha.
    apply Std_allocate_inv in Ha as [(-> & _) | (_ & _ & w2 & _ & ->)]; [done|].
    by eapply Hallocate.
  - intros init ok [this w] st' init' n' ok' msg Ha.
    apply Std_allocate_inv in Ha as [(_ & ->) | (Hne & _)]; [|done].
    unfold Std.allocate. simpl. rewrite Hpass.
    destruct (n' =? 0); [done|]. unfold malloc. destruct ok'; [|done].
    by destruct (construct_loop _ _ _ _ _).
  - intros [this w] [this' w'] (b' & Hf & ->)%inherited_Returns.
    apply Hfree in Hf. unfold Future.free, Future.inherited. simpl.
    by rewrite Hf.
  - split; [|split; [|split; [|split]]].
    + intros m Hm. unfold Future.new. by rewrite Hm, Hfire.
    + intros m Hm. unfold Future.new. by rewrite Hm, Hpass.
    + apply Std_shrink_not_halted.
    + apply Future_shrink_not_halted.
    + apply Future_allocate_not_halted.
Qed.

(** C5, amended, in the 64-bit debug build: a second [free] of the buffer
    [three_ints] halts. *)
Lemma contract_checks_in_debug_builds_witness :
  (NDEBUG (Platform:=debug64) = false /\
   CHI_ASSERT_halts_on (Platform:=debug64) = true) /\
  Std.free (H:=debug64) (returned (Std.free (H:=debug64) three_ints) three_ints)
    = Halts "Double free in StdAllocator".
Proof.
  split; [done|].
  destruct (contract_checks_in_debug_builds (H:=debug64) (H0:=int_Element)
              eq_refl eq_refl) as (_ & _ & _ & Hfree & _).
  apply (Hfree three_ints). by vm_compute.
Defined.

(** ** Order of construction and destruction *)

(** C4 fails for [free]: the three elements of [three_ints] are
    destructed at the indices 0, 1, 2, in that order. *)
Lemma free_destructs_low_to_high :
  exists st',
    Std.free (H:=debug64) three_ints = Returns st' /\
    trace (snd st') =
      trace (snd three_ints)
        ++ [EvDestruct 1 0; EvDestruct 1 1; EvDestruct 1 2; EvFree 1] /\
    ~ StronglySorted Z.gt
        (destructed (T:=Z) [EvDestruct 1 0; EvDestruct 1 1; EvDestruct 1 2; EvFree 1]).
Proof.
  eexists. split; [by vm_compute|]. split; [done|].
  intros Hs. apply StronglySorted_inv in Hs as [_ Hs].
  apply Forall_inv in Hs. done.
Qed.

(** C4, amended.  Every [grow] that returns constructs at strictly
    increasing indices (the copies at 0 .. count-1 when the block is
    replaced, then the new elements from count on); every [shrink] that
    returns destructs at strictly decreasing indices, from count-1 down;
    every [free] that returns destructs at strictly increasing indices,
    0 .. count-1.  In both strategies and from every state. *)
Theorem construction_and_destruction_order `{Platform} {T : Type} `{Element T} :
  (forall k ok (st st' : StdAllocator * World T),
     grow k ok st = Returns st' ->
     exists cs ds m, extends (snd st) (snd st') cs ds m /\ StronglySorted Z.lt cs) /\
  (forall k ok (st st' : FutureAllocator * World T),
     grow k ok st = Returns st' ->
     exists cs ds m, extends (snd st) (snd st') cs ds m /\ StronglySorted Z.lt cs) /\
  (forall k (st st' : StdAllocator * World T),
     shrink k st = Returns st' ->
     exists j, extends (snd st) (snd st') []
                 (rev (Zseq (count (fst st) - Z.of_nat j) j)) 0 /\
               StronglySorted Z.gt (rev (Zseq (count (fst st) - Z.of_nat j) j))) /\
  (forall k (st st' : FutureAllocator * World T),
     shrink k st = Returns st' ->
     exists j, extends (snd st) (snd st') []
                 (rev (Zseq (count (fst st) - Z.of_nat j) j)) 0 /\
               StronglySorted Z.gt (rev (Zseq (count (fst st) - Z.of_nat j) j))) /\
  (forall (st st' : StdAllocator * World T),
     free st = Returns st' ->
     extends (snd st) (snd st') [] (Zseq 0 (Z.to_nat (count (fst st)))) 0 /\
     StronglySorted Z.lt (Zseq 0 (Z.to_nat (count (fst st))))) /\
  (forall (st st' : FutureAllocator * World T),
     free st = Returns st' ->
     extends (snd st) (snd st') [] (Zseq 0 (Z.to_nat (count (fst st)))) 0 /\
     StronglySorted Z.lt (Zseq 0 (Z.to_nat (count (fst st))))).
Proof.
  assert (forall c k, StronglySorted Z.lt (Zseq 0 (Z.to_nat c) ++ Zseq c k)) as Hup.
  { intros c k. destruct (Z.to_nat c) as [|n] eqn:En; [apply Zseq_sorted|].
    assert (c = 0 + Z.of_nat (S n)) as -> by lia.
    rewrite <- Zseq_app. apply Zseq_sorted. }
  split; [|split; [|split; [|split; [|split]]]].
  - intros k ok [this w] [this' w'] Hg.
    change (Std._grow k ok (this, w) = Returns (this', w')) in Hg.
    apply Std_grow_extends in Hg. do 3 eexists. split; [exact Hg|]. apply Hup.
  - intros k ok [this w] [this' w'] Hg.
    change (Future._grow k ok (this, w) = Returns (this', w')) in Hg.
    apply Future_grow_extends in Hg. simpl in Hg. destruct (_ <? _).
    + do 3 eexists. split; [exact Hg|]. apply Hup.
    + do 3 eexists. split; [exact Hg|]. apply Zseq_sorted.
  - intros k [this w] [this' w'] Hs.
    change (Std._shrink k (this, w) = Returns (this', w')) in Hs.
    apply Std_shrink_extends in Hs. eexists. split; [exact Hs|].
    apply Zseq_rev_sorted.
  - intros k [this w] [this' w'] Hs.
    change (Future._shrink k (this, w) = Returns (this', w')) in Hs.
    apply Future_shrink_extends in Hs. eexists. split; [exact Hs|].
    apply Zseq_rev_sorted.
  - intros [this w] [this' w'] Hf.
    change (Std.free (this, w) = Returns (this', w')) in Hf.
    apply Std_free_extends in Hf. split; [exact Hf | apply Zseq_sorted].
  - intros [this w] [this' w'] Hf.
    change (Future.free (this, w) = Returns (this', w')) in Hf.
    apply Future_free_extends in Hf. split; [exact Hf | apply Zseq_sorted].
Qed.

(** ** allocate followed by grow *)

(** C6 fails when [n + k] wraps around: with multiplier 1.5 and 64-bit
    [Size], [allocate(1)] followed by [grow(2^64 - 1)] returns twice and
    [count()] is still 1. *)
Lemma grow_past_the_largest_Size :
  exists st1 st2,
    Future.allocate (H:=release64) (H0:=int_Element) Init_default 1 true fresh_future
      = Returns st1 /\
    Future._grow (H:=release64) (H0:=int_Element) 18446744073709551615 true st1
      = Returns st2 /\
    is_Size (H:=release64) 18446744073709551615 /\
    Future.count (fst st2) = 1 /\
    Future.count (fst st2) <> 1 + 18446744073709551615.
Proof.
  do 2 eexists. split; [by vm_compute|]. split; [by vm_compute|].
  split; [by vm_compute|]. split; [by vm_compute | by vm_compute].
Qed.

(** C6, amended: for [n >= 0] and [k >= 0] whose sum is a [Size], in
    either strategy and for every initialiser, after [allocate(n)]
    followed by [grow(k)], both returning, [count() == n + k], the
    elements at [0, n) are the ones [allocate] constructed, unchanged by
    the [grow], and the elements at [n, n + k) equal [T()]. *)
Theorem grow_after_allocate `{Platform} {T : Type} `{Element T} (n k : Z) :
  0 <= n -> 0 <= k -> n + k < Size_modulus ->
  (forall init ok1 ok2 (st0 st1 st2 : StdAllocator * World T),
     allocate init n ok1 st0 = Returns st1 -> grow k ok2 st1 = Returns st2 ->
     count (fst st2) = n + k /\
     (forall i, 0 <= i < n ->
        at_index i st2 = at_index i st1 /\ at_index i st1 = init_value init i /\
        is_Some (at_index i st1)) /\
     (forall i, n <= i < n + k -> at_index i st2 = Some T_default)) /\
  (forall init ok1 ok2 (st0 st1 st2 : FutureAllocator * World T),
     allocate init n ok1 st0 = Returns st1 -> grow k ok2 st1 = Returns st2 ->
     count (fst st2) = n + k /\
     (forall i, 0 <= i < n ->
        at_index i st2 = at_index i st1 /\ at_index i st1 = init_value init i /\
        is_Some (at_index i st1)) /\
     (forall i, n <= i < n + k -> at_index i st2 = Some T_default)).
Proof.
  intros Hn Hk Hsum.
  assert (forall (vs : list T) (init : Init T) (p1 p2 : pointer) (w1 w2 : World T)
            (this1 this2 : StdAllocator),
            Z.of_nat (length vs) = n ->
            (forall j v, vs !! j = Some v -> init_value init (Z.of_nat j) = Some v) ->
            holds this1 w1 vs ->
            holds this2 w2 (vs ++ replicate (Z.to_nat k) T_default) ->
            (forall i, 0 <= i < n ->
               read (__ptr this2) i w2 = read (__ptr this1) i w1 /\
               read (__ptr this1) i w1 = init_value init i /\
               is_Some (read (__ptr this1) i w1)) /\
            (forall i, n <= i < n + k -> read (__ptr this2) i w2 = Some T_default))
    as Helems.
  { intros vs init _ _ w1 w2 this1 this2 Hlen Hinit H1 H2. split.
    - intros i Hi.
      rewrite (holds_read _ _ _ _ H1) by lia.
      rewrite (holds_read _ _ _ _ H2) by (rewrite length_app, length_replicate; lia).
      rewrite lookup_app_l by lia.
      destruct (lookup_lt_is_Some_2 vs (Z.to_nat i)) as [v Hv]; [lia|].
      rewrite Hv. repeat split; [|eauto].
      apply Hinit in Hv. by rewrite Z2Nat.id in Hv by lia.
    - intros i Hi.
      rewrite (holds_read _ _ _ _ H2) by (rewrite length_app, length_replicate; lia).
      rewrite lookup_app_r by lia. apply lookup_replicate_2. lia. }
  split.
  - intros init ok1 ok2 [this0 w0] [this1 w1] [this2 w2] Ha Hg.
    change (Std.allocate init n ok1 (this0, w0) = Returns (this1, w1)) in Ha.
    change (Std._grow k ok2 (this1, w1) = Returns (this2, w2)) in Hg.
    apply Std_allocate_holds in Ha as (vs & H1 & Hlen & Hinit & _); [|done].
    pose proof H1 as [Hc _].
    apply (Std_grow_holds _ _ _ _ _ _ _ H1) in Hg as (H2 & _ & Hc2 & _).
    rewrite size_add_exact in H2, Hc2 by lia.
    replace (_count this1 + k - _count this1) with k in H2 by lia.
    split; [change (_count this2 = n + k); lia|].
    by apply (Helems vs init Null Null).
  - intros init ok1 ok2 [this0 w0] [this1 w1] [this2 w2] Ha Hg.
    change (Future.allocate init n ok1 (this0, w0) = Returns (this1, w1)) in Ha.
    change (Future._grow k ok2 (this1, w1) = Returns (this2, w2)) in Hg.
    apply Future_allocate_holds in Ha as (vs & H1 & Hlen & Hinit & _); [|done].
    pose proof H1 as [Hc _].
    apply (Future_grow_holds _ _ _ _ _ _ _ H1) in Hg as (H2 & Hc2 & _).
    rewrite size_add_exact in H2, Hc2 by lia.
    replace (_count (base this1) + k - _count (base this1)) with k in H2 by lia.
    split; [change (_count (base this2) = n + k); lia|].
    by apply (Helems vs init Null Null).
Qed.

(** C6, amended, on running code: [allocate(3)] then [grow(2)] in both
    strategies, 64-bit debug build. *)
Lemma grow_after_allocate_witness :
  (0 <= 3 /\ 0 <= 2 /\ 3 + 2 < Size_modulus (H:=debug64)) /\
  (Std.allocate (H:=debug64) (H0:=int_Element) Init_default 3 true fresh_std
     = Returns three_ints /\
   Std._grow (H:=debug64) (H0:=int_Element) 2 true three_ints = Returns five_ints /\
   Future.allocate (H:=debug64) (H0:=int_Element) Init_default 3 true fresh_future
     = Returns three_ints_future /\
   Future._grow (H:=debug64) (H0:=int_Element) 2 true three_ints_future
     = Returns five_ints_future) /\
  _count (fst five_ints) = 3 + 2 /\
  _count (base (fst five_ints_future)) = 3 + 2 /\
  at_index (H:=debug64) (H0:=int_Element) 4 five_ints_future = Some 0.
Proof.
  assert (3 + 2 < Size_modulus (H:=debug64)) as Hsum by (by vm_compute).
  assert (Std.allocate (H:=debug64) (H0:=int_Element) Init_default 3 true fresh_std
            = Returns three_ints) as A1 by (by vm_compute).
  assert (Std._grow (H:=debug64) (H0:=int_Element) 2 true three_ints
            = Returns five_ints) as G1 by (by vm_compute).
  assert (Future.allocate (H:=debug64) (H0:=int_Element) Init_default 3 true fresh_future
            = Returns three_ints_future) as A2 by (by vm_compute).
  assert (Future._grow (H:=debug64) (H0:=int_Element) 2 true three_ints_future
            = Returns five_ints_future) as G2 by (by vm_compute).
  destruct (grow_after_allocate (H:=debug64) (H0:=int_Element) 3 2
              ltac:(lia) ltac:(lia) Hsum) as [Hstd Hfut].
  destruct (Hstd _ _ _ _ _ _ A1 G1) as (C1 & _ & _).
  destruct (Hfut _ _ _ _ _ _ A2 G2) as (C2 & _ & E2).
  split; [repeat split; (lia || exact Hsum)|].
  split; [done|]. split; [exact C1|]. split; [exact C2|].
  apply (E2 4). lia.
Defined.

(** ** grow followed by shrink *)

(** C8 fails when [count + k] wraps around.  With a 32-bit [Size],
    one-byte elements and multiplier 1.5: after [allocate(2^31)] the call
    [grow(2^31)] returns without constructing anything, and the
    [shrink(2^31)] that follows destructs every element: [count()] is 0,
    not [2^31]. *)
Lemma shrink_after_wrapped_grow :
  exists st1 st2 st3,
    Future.allocate (H:=release32) (H0:=byte_Element) Init_default 2147483648 true
      fresh_future = Returns st1 /\
    Future._grow (H:=release32) (H0:=byte_Element) 2147483648 true st1 = Returns st2 /\
    Future._shrink (H:=release32) 2147483648 st2 = Returns st3 /\
    Future.count (fst st1) = 2147483648 /\
    Future.count (fst st3) = 0.
Proof.
  assert (Float32.scale (H:=release32) Float32.one_and_a_half 2147483648
            = Some 3221225472) as Hcap by (by vm_compute).
  destruct (Future_allocate_returns (H:=release32) (H0:=byte_Element)
              Init_default 2147483648 3221225472 future_1_5 empty_world)
    as [[this1 w1] Ha]; [lia | exact Hcap | lia | by vm_compute | by eauto |].
  destruct (Future_allocate_holds Init_default 2147483648 true future_1_5 empty_world
              this1 w1 ltac:(lia) Ha)
    as (vs & H1 & Hlen & _ & Hcap1 & _).
  pose proof H1 as [Hc1 _].
  assert (_cap (base this1) = 3221225472) as Hcap1'.
  { change (multiplier future_1_5) with Float32.one_and_a_half in Hcap1. congruence. }
  assert (size_add (H:=release32) (_count (base this1)) 2147483648 = 0) as Hwrap.
  { rewrite Hc1, Hlen. by vm_compute. }
  pose proof (Future_grow_wrapped (H:=release32) (H0:=byte_Element)
                2147483648 true this1 w1) as Hg.
  rewrite Hwrap in Hg. specialize (Hg ltac:(lia) ltac:(lia)).
  set (this2 := Future.with_base this1 _) in Hg.
  assert (holds (base this2) w1 vs) as H2 by exact H1.
  destruct (Std_shrink_returns (H:=release32) 2147483648 (base this2) w1 vs H2)
    as [[b3 w3] Hs].
  destruct (Std_shrink_holds _ _ _ _ _ _ H2 Hs) as (_ & Hc3 & _).
  exists (this1, w1), (this2, w1), (Future.with_base this2 b3, w3).
  split; [exact Ha|]. split; [exact Hg|]. split.
  - unfold Future._shrink, Future.inherited. cbn [fst snd]. by rewrite Hs.
  - split; [unfold Future.count, Std.count; cbn [fst]; lia|].
    unfold Future.count, Std.count. cbn [fst base Future.with_base].
    rewrite Hc3. change (_count (base this2)) with (_count (base this1)).
    rewrite Hc1, Hlen. by vm_compute.
Qed.

(** C8, amended: on a buffer that holds [n] elements, for [k >= 0] with
    [n + k] a [Size], in either strategy: after a [grow(k)] and a
    [shrink(k)] that both return, [count()] is [n] again and the elements
    at [0, n) are the ones held before the [grow]; the [shrink] has
    destructed the indices [n + k - 1] down to [n]; and, when the contract
    check lets it pass, the [free] that follows returns, having destructed
    each index of [0, n) once. *)
Theorem grow_then_shrink `{Platform} {T : Type} `{Element T} (k : Z) (vs : list T) :
  0 <= k -> Z.of_nat (length vs) + k < Size_modulus ->
  NDEBUG = true \/ CHI_ASSERT_halts_on = true ->
  (forall ok (this : StdAllocator) (w : World T) st1 st2,
     holds this w vs ->
     grow k ok (this, w) = Returns st1 -> shrink k st1 = Returns st2 ->
     count (fst st2) = count this /\
     (forall i, 0 <= i < count this ->
        at_index i st2 = at_index i (this, w) /\ is_Some (at_index i st2)) /\
     extends (snd st1) (snd st2) [] (rev (Zseq (count this) (Z.to_nat k))) 0 /\
     exists st3, free st2 = Returns st3 /\
       extends (snd st2) (snd st3) [] (Zseq 0 (length vs)) 0 /\
       NoDup (Zseq 0 (length vs))) /\
  (forall ok (this : FutureAllocator) (w : World T) st1 st2,
     holds (base this) w vs ->
     grow k ok (this, w) = Returns st1 -> shrink k st1 = Returns st2 ->
     count (fst st2) = count this /\
     (forall i, 0 <= i < count this ->
        at_index i st2 = at_index i (this, w) /\ is_Some (at_index i st2)) /\
     extends (snd st1) (snd st2) [] (rev (Zseq (count this) (Z.to_nat k))) 0 /\
     exists st3, free st2 = Returns st3 /\
       extends (snd st2) (snd st3) [] (Zseq 0 (length vs)) 0 /\
       NoDup (Zseq 0 (length vs))).
Proof.
  intros Hk Hsum Hbuild.
  assert (CHI_ASSERT false "Double free in StdAllocator" = None) as Hassert.
  { unfold CHI_ASSERT. destruct Hbuild as [-> | ->]; [done|]. by destruct NDEBUG. }
  assert (0 < Size_modulus) as HM by (unfold Size_modulus; lia).
  assert (forall c, c = Z.of_nat (length vs) ->
            size_add c k = c + k /\ size_sub (c + k) k = c) as Harith.
  { intros c ->. split; [apply size_add_exact; lia|].
    unfold size_sub. replace (Z.of_nat (length vs) + k - k) with (Z.of_nat (length vs)) by lia.
    apply Z.mod_small. lia. }
  assert (forall (this0 this2 : StdAllocator) (w0 w2 : World T),
            holds this0 w0 vs -> holds this2 w2 vs ->
            forall i, 0 <= i < _count this0 ->
              read (__ptr this2) i w2 = read (__ptr this0) i w0 /\
              is_Some (read (__ptr this2) i w2)) as Helems.
  { intros this0 this2 w0 w2 H0' H2' i Hi. pose proof H0' as [Hc0 _].
    rewrite (holds_read _ _ _ _ H0'), (holds_read _ _ _ _ H2') by lia.
    split; [done|]. apply lookup_lt_is_Some. lia. }
  split.
  - intros ok this w [this1 w1] [this2 w2] Hh Hg Hs.
    change (Std._grow k ok (this, w) = Returns (this1, w1)) in Hg.
    change (Std._shrink k (this1, w1) = Returns (this2, w2)) in Hs.
    pose proof Hh as [Hc _]. destruct (Harith _ Hc) as [Hadd Hsub].
    destruct (Std_grow_holds _ _ _ _ _ _ _ Hh Hg) as (H1 & _ & Hc1 & _).
    pose proof (Std_shrink_extends _ _ _ _ _ Hs) as Hext. simpl in Hext.
    destruct (Std_shrink_holds _ _ _ _ _ _ H1 Hs) as (H2 & Hc2 & _).
    rewrite Hc1, Hadd, Hsub in H2, Hc2, Hext.
    rewrite Hc, Nat2Z.id, take_app_length in H2.
    replace (_count this + k - _count this) with k in Hext by lia.
    replace (_count this + k - Z.of_nat (Z.to_nat k)) with (_count this) in Hext by lia.
    split; [change (_count this2 = _count this); lia|].
    split; [by apply (Helems this this2)|]. split; [exact Hext|].
    destruct (Std_free_holds _ _ _ H2 Hassert) as (w3 & Hf & Hext3 & _).
    eexists. split; [exact Hf|]. split; [exact Hext3 | apply Zseq_NoDup].
  - intros ok this w [this1 w1] [this2 w2] Hh Hg Hs.
    change (Future._grow k ok (this, w) = Returns (this1, w1)) in Hg.
    change (Future._shrink k (this1, w1) = Returns (this2, w2)) in Hs.
    pose proof Hh as [Hc _]. destruct (Harith _ Hc) as [Hadd Hsub].
    destruct (Future_grow_holds _ _ _ _ _ _ _ Hh Hg) as (H1 & Hc1 & _).
    pose proof (Future_shrink_extends _ _ _ _ _ Hs) as Hext. simpl in Hext.
    destruct (Future_shrink_holds _ _ _ _ _ _ H1 Hs) as (H2 & Hc2 & _).
    rewrite Hadd in H1, Hc1. rewrite Z.max_r in Hc1 by lia.
    rewrite Hc1, Hsub in H2, Hc2, Hext.
    rewrite Hc, Nat2Z.id, take_app_length in H2.
    replace (_count (base this) + k - _count (base this)) with k in Hext by lia.
    replace (_count (base this) + k - Z.of_nat (Z.to_nat k))
      with (_count (base this)) in Hext by lia.
    split; [change (_count (base this2) = _count (base this)); lia|].
    split; [by apply (Helems (base this) (base this2))|]. split; [exact Hext|].
    destruct (Future_free_holds _ _ _ H2 Hassert) as (w3 & Hf & Hext3 & _).
    eexists. split; [exact Hf|]. split; [exact Hext3 | apply Zseq_NoDup].
Qed.

(** C8, amended, on running code: [grow(2)] then [shrink(2)] on the
    exact-fit buffer [three_ints], then [free]. *)
Lemma grow_then_shrink_witness :
  (0 <= 2 /\ Z.of_nat (length [0; 0; 0]) + 2 < Size_modulus (H:=debug64) /\
   (NDEBUG (Platform:=debug64) = true \/ CHI_ASSERT_halts_on (Platform:=debug64) = true)) /\
  (holds (fst three_ints) (snd three_ints) [0; 0; 0] /\
   Std._grow (H:=debug64) (H0:=int_Element) 2 true three_ints = Returns five_ints /\
   Std._shrink (H:=debug64) 2 five_ints = Returns three_ints_again) /\
  _count (fst three_ints_again) = 3 /\
  exists st3, Std.free (H:=debug64) three_ints_again = Returns st3.
Proof.
  assert (Z.of_nat (length [0; 0; 0]) + 2 < Size_modulus (H:=debug64)) as Hsum
    by (by vm_compute).
  assert (holds (fst three_ints) (snd three_ints) [0; 0; 0]) as Hh.
  { split; [done|]. simpl. eexists. split; [reflexivity|]. by vm_compute. }
  assert (Std._grow (H:=debug64) (H0:=int_Element) 2 true three_ints = Returns five_ints)
    as G by (by vm_compute).
  assert (Std._shrink (H:=debug64) 2 five_ints = Returns three_ints_again)
    as S by (by vm_compute).
  destruct (grow_then_shrink (H:=debug64) (H0:=int_Element) 2 [0; 0; 0]
              ltac:(lia) Hsum (or_intror eq_refl)) as [Hstd _].
  destruct (Hstd true (fst three_ints) (snd three_ints) five_ints three_ints_again
              Hh G S) as (Hc & _ & _ & st3 & Hf & _).
  split; [split; [lia | split; [exact Hsum | by right]]|].
  split; [done|]. split; [exact Hc|]. by exists st3.
Defined.


(** ** Ten appends *)

(** The side conditions of one [grow(1)] on a buffer of known count and
    capacity, multiplier 1.5. *)
Ltac future_grow_one Hc Hp Hm :=
  rewrite ?Hc, ?Hp, ?Hm; cbn [Z.add Z.ltb Z.compare Pos.compare Pos.compare_cont Pos.add Pos.succ];
  first
    [ lia
    | split; [|lia]; first [reflexivity | lia]
    | split; [|lia];
      match goal with
      | Hscale : forall n c, _ -> c < 16 -> _ |- _ => apply Hscale; [by vm_compute | lia]
      end ].

(** C9. Starting from [allocate(0)], ten calls of [grow(1)] acquire four
    heap blocks in the amortized strategy with multiplier 1.5 and ten in
    the exact-fit strategy, where every [grow] that returns acquires one.
    Both runs return when the heap obliges, the contract check lets
    [allocate] pass, and fifteen elements fit a [Size]. *)
Theorem ten_grows_by_one `{Platform} {T : Type} `{Element T} :
  NDEBUG = true \/ CHI_ASSERT_halts_on = true ->
  15 * Z.pos sizeof_T < Size_modulus ->
  exists (st_std : StdAllocator * World T) (st_fut : FutureAllocator * World T),
    run ten_grows (Std.new, empty_world) = Returns st_std /\
    run ten_grows ({| base := Std.new; multiplier := Float32.one_and_a_half |},
                   empty_world) = Returns st_fut /\
    count (fst st_std) = 10 /\ count (fst st_fut) = 10 /\
    acquisitions (trace (snd st_std)) = 10%nat /\
    acquisitions (trace (snd st_fut)) = 4%nat /\
    (acquisitions (trace (snd st_fut)) < acquisitions (trace (snd st_std)))%nat /\
    forall k ok (st st' : StdAllocator * World T),
      grow k ok st = Returns st' ->
      acquisitions (trace (snd st')) = S (acquisitions (trace (snd st))).
Proof.
  intros Hbuild Hfit.
  assert (forall msg, CHI_ASSERT false msg = None) as Hpass.
  { intros msg. unfold CHI_ASSERT. destruct Hbuild as [-> | ->]; [done|]. by destruct NDEBUG. }
  assert (15 < Size_modulus) as HM by lia.
  (* exact fit *)
  destruct (Std_run_grows 10 {| __ptr := Null; _count := 0; _cap := 0 |}
              (empty_world (T:=T)) []) as (s' & w' & Hrun & Hc & Ha);
    [done | simpl; lia |].
  assert (run (A:=StdAllocator) ten_grows (Std.new, empty_world) = Returns (s', w')) as Hstd.
  { unfold ten_grows. rewrite (run_cons _ _ _ ({| __ptr := Null; _count := 0; _cap := 0 |}, empty_world)); [exact Hrun|].
    cbn [step allocate StdAllocator_Allocator]. unfold Std.allocate. simpl. by rewrite Hpass. }
  (* amortized *)
  assert (forall n c, Float32.scale (H:=release64) Float32.one_and_a_half n = Some c ->
            c < 16 -> Float32.scale Float32.one_and_a_half n = Some c) as Hscale.
  { intros n c Hs Hlt. apply (scale_any_platform release64 H _ _ _ Hs). lia. }
  pose (f0 := {| base := {| __ptr := Null; _count := 0; _cap := 0 |};
                 multiplier := Float32.one_and_a_half |}).
  assert (holds (base f0) (empty_world (T:=T)) []) as Hh0 by done.
  assert (roomy (base f0) (empty_world (T:=T))) as Hr0 by done.
  assert (_count (base f0) = 0 /\ _cap (base f0) = 0 /\
          multiplier f0 = Float32.one_and_a_half /\
          acquisitions (trace (empty_world (T:=T))) = 0%nat) as (Hc0 & Hp0 & Hm0 & A0)
    by done.
  destruct (Future_grow_step 1 f0 empty_world _ 1 Hh0 Hr0)
    as (f1 & w1 & G1 & Hh1 & Hr1 & Hm1 & Hc1 & Hp1 & A1); [future_grow_one Hc0 Hp0 Hm0 ..|].
  rewrite Hc0, Hp0, Hm0, A0 in *. simpl in Hc1, A1.
  destruct (Future_grow_step 1 f1 w1 _ 3 Hh1 Hr1)
    as (f2 & w2 & G2 & Hh2 & Hr2 & Hm2 & Hc2 & Hp2 & A2); [future_grow_one Hc1 Hp1 Hm1 ..|].
  rewrite Hc1, Hp1, Hm1, A1 in *. simpl in Hc2, A2.
  destruct (Future_grow_step 1 f2 w2 _ 3 Hh2 Hr2)
    as (f3 & w3 & G3 & Hh3 & Hr3 & Hm3 & Hc3 & Hp3 & A3); [future_grow_one Hc2 Hp2 Hm2 ..|].
  rewrite Hc2, Hp2, Hm2, A2 in *. simpl in Hc3, A3.
  destruct (Future_grow_step 1 f3 w3 _ 6 Hh3 Hr3)
    as (f4 & w4 & G4 & Hh4 & Hr4 & Hm4 & Hc4 & Hp4 & A4); [future_grow_one Hc3 Hp3 Hm3 ..|].
  rewrite Hc3, Hp3, Hm3, A3 in *. simpl in Hc4, A4.
  destruct (Future_grow_step 1 f4 w4 _ 6 Hh4 Hr4)
    as (f5 & w5 & G5 & Hh5 & Hr5 & Hm5 & Hc5 & Hp5 & A5); [future_grow_one Hc4 Hp4 Hm4 ..|].
  rewrite Hc4, Hp4, Hm4, A4 in *. simpl in Hc5, A5.
  destruct (Future_grow_step 1 f5 w5 _ 6 Hh5 Hr5)
    as (f6 & w6 & G6 & Hh6 & Hr6 & Hm6 & Hc6 & Hp6 & A6); [future_grow_one Hc5 Hp5 Hm5 ..|].
  rewrite Hc5, Hp5, Hm5, A5 in *. simpl in Hc6, A6.
  destruct (Future_grow_step 1 f6 w6 _ 10 Hh6 Hr6)
    as (f7 & w7 & G7 & Hh7 & Hr7 & Hm7 & Hc7 & Hp7 & A7); [future_grow_one Hc6 Hp6 Hm6 ..|].
  rewrite Hc6, Hp6, Hm6, A6 in *. simpl in Hc7, A7.
  destruct (Future_grow_step 1 f7 w7 _ 10 Hh7 Hr7)
    as (f8 & w8 & G8 & Hh8 & Hr8 & Hm8 & Hc8 & Hp8 & A8); [future_grow_one Hc7 Hp7 Hm7 ..|].
  rewrite Hc7, Hp7, Hm7, A7 in *. simpl in Hc8, A8.
  destruct (Future_grow_step 1 f8 w8 _ 10 Hh8 Hr8)
    as (f9 & w9 & G9 & Hh9 & Hr9 & Hm9 & Hc9 & Hp9 & A9); [future_grow_one Hc8 Hp8 Hm8 ..|].
  rewrite Hc8, Hp8, Hm8, A8 in *. simpl in Hc9, A9.
  destruct (Future_grow_step 1 f9 w9 _ 10 Hh9 Hr9)
    as (f10 & w10 & G10 & Hh10 & Hr10 & Hm10 & Hc10 & Hp10 & A10);
    [future_grow_one Hc9 Hp9 Hm9 ..|].
  rewrite Hc9, Hp9, Hm9, A9 in *. simpl in Hc10, A10.
  assert (run (A:=FutureAllocator) ten_grows
            ({| base := Std.new; multiplier := Float32.one_and_a_half |}, empty_world)
          = Returns (f10, w10)) as Hfut.
  { unfold ten_grows. rewrite (run_cons _ _ _ (f0, empty_world)).
    2:{ cbn [step allocate FutureAllocator_Allocator]. unfold Future.allocate.
        cbn [multiplier]. by rewrite (Hscale 0 0 ltac:(by vm_compute) ltac:(lia)). }
    cbn [replicate].
    rewrite (run_cons _ _ _ (f1, w1)) by exact G1.
    rewrite (run_cons _ _ _ (f2, w2)) by exact G2.
    rewrite (run_cons _ _ _ (f3, w3)) by exact G3.
    rewrite (run_cons _ _ _ (f4, w4)) by exact G4.
    rewrite (run_cons _ _ _ (f5, w5)) by exact G5.
    rewrite (run_cons _ _ _ (f6, w6)) by exact G6.
    rewrite (run_cons _ _ _ (f7, w7)) by exact G7.
    rewrite (run_cons _ _ _ (f8, w8)) by exact G8.
    rewrite (run_cons _ _ _ (f9, w9)) by exact G9.
    rewrite (run_cons _ _ _ (f10, w10)) by exact G10.
    done. }
  exists (s', w'), (f10, w10).
  split; [exact Hstd|]. split; [exact Hfut|].
  assert (acquisitions (trace w10) = 4%nat) as A by exact A10.
  assert (acquisitions (trace w') = 10%nat) as A' by exact Ha.
  split; [exact Hc|]. split; [exact Hc10|]. split; [exact A'|]. split; [exact A|].
  split; [cbn [snd]; lia|].
  intros k ok [this w] [this' w''] Hg.
  change (Std._grow k ok (this, w) = Returns (this', w'')) in Hg.
  apply Std_grow_extends in Hg. cbv zeta in Hg. cbn [snd].
  rewrite (extends_acquisitions _ _ _ _ _ Hg). lia.
Qed.


(** C9 in the 64-bit debug build, four-byte elements. *)
Lemma ten_grows_by_one_witness :
  ((NDEBUG (Platform:=debug64) = true \/ CHI_ASSERT_halts_on (Platform:=debug64) = true) /\
   15 * Z.pos (sizeof_T (Element:=int_Element)) < Size_modulus (H:=debug64)) /\
  exists (st_std : StdAllocator * World Z) (st_fut : FutureAllocator * World Z),
    run (H:=debug64) (H0:=int_Element) ten_grows fresh_std = Returns st_std /\
    run (H:=debug64) (H0:=int_Element) ten_grows fresh_future = Returns st_fut /\
    acquisitions (trace (snd st_std)) = 10%nat /\
    acquisitions (trace (snd st_fut)) = 4%nat.
Proof.
  assert (15 * Z.pos (sizeof_T (Element:=int_Element)) < Size_modulus (H:=debug64))
    as Hfit by (by vm_compute).
  split; [split; [by right | exact Hfit]|].
  destruct (ten_grows_by_one (H:=debug64) (H0:=int_Element) (or_intror eq_refl) Hfit)
    as (st_std & st_fut & R1 & R2 & _ & _ & A1 & A2 & _).
  exists st_std, st_fut. split; [exact R1|]. split; [exact R2|]. split; [exact A1 | exact A2].
Defined.


(** ** Capacity and count *)

(** C1 fails in the exact-fit strategy: after [allocate(3)] on a fresh
    allocator [capacity()] is 0 while [count()] is 3, and after the
    [grow(2)] and [shrink(2)] that follow [capacity()] is 5 while
    [count()] is 3. *)
Lemma exact_fit_capacity_differs_from_count :
  Std.allocate (H:=debug64) (H0:=int_Element) Init_default 3 true fresh_std
    = Returns three_ints /\
  Std.capacity (fst three_ints) = 0 /\ Std.count (fst three_ints) = 3 /\
  Std._grow (H:=debug64) (H0:=int_Element) 2 true three_ints = Returns five_ints /\
  Std._shrink (H:=debug64) 2 five_ints = Returns three_ints_again /\
  Std.capacity (fst three_ints_again) = 5 /\ Std.count (fst three_ints_again) = 3.
Proof. repeat split; by vm_compute. Qed.

(** C1, amended.  Exact-fit strategy: every [grow] that returns leaves
    [capacity() == count()]; [shrink] and [free] leave [capacity()] as it
    was, and [shrink] does not raise [count()]; so [capacity() >= count()]
    holds after every sequence of [grow], [shrink], [resize] and [free]
    that return, started where it holds (a freshly constructed allocator
    in particular).  Amortized strategy with a multiplier above 1.0: after
    every [allocate(n)] that returns, [count() == n] and
    [capacity() >= n]; and [capacity() >= count()] holds after every
    sequence of calls that return, started where it holds (a freshly
    constructed allocator in particular). *)
Theorem capacity_and_count `{Platform} {T : Type} `{Element T} (m : Float32.float) :
  valid_binary Float32.prec Float32.emax m = true ->
  Float32.ltb Float32.one m = true ->
  (forall k ok (st st' : StdAllocator * World T),
     grow k ok st = Returns st' -> capacity (fst st') = count (fst st')) /\
  (forall k (st st' : StdAllocator * World T),
     shrink k st = Returns st' ->
     capacity (fst st') = capacity (fst st) /\ count (fst st') <= count (fst st)) /\
  (forall (st st' : StdAllocator * World T),
     free st = Returns st' ->
     capacity (fst st') = capacity (fst st) /\ count (fst st') = count (fst st)) /\
  (forall ops (this : StdAllocator) (w : World T) st',
     (forall init n ok, ~ In (OpAllocate init n ok) ops) ->
     count this <= capacity this ->
     run ops (this, w) = Returns st' ->
     count (fst st') <= capacity (fst st')) /\
  (forall ops (w : World T) (st' : StdAllocator * World T),
     (forall init n ok, ~ In (OpAllocate init n ok) ops) ->
     run ops (Std.new, w) = Returns st' ->
     count (fst st') <= capacity (fst st')) /\
  (forall init n ok (this : FutureAllocator) (w : World T) st',
     multiplier this = m -> 0 <= n ->
     allocate init n ok (this, w) = Returns st' ->
     count (fst st') = n /\ n <= capacity (fst st')) /\
  (forall ops (this : FutureAllocator) (w : World T) st',
     multiplier this = m -> count this <= capacity this ->
     run ops (this, w) = Returns st' ->
     count (fst st') <= capacity (fst st')) /\
  (forall ops (w : World T) st',
     run ops ({| base := Std.new; multiplier := m |}, w) = Returns st' ->
     count (fst st') <= capacity (fst st')).
Proof.
  intros Hvalid Hlt.
  assert (forall ops (this : FutureAllocator) (w : World T) st',
            multiplier this = m -> count this <= capacity this ->
            run ops (this, w) = Returns st' ->
            count (fst st') <= capacity (fst st')) as Hrun.
  { intros ops this w st' Hm Hinv Hr.
    eapply (Future_run_invariant ops this w st'); try done; by rewrite Hm. }
  assert (forall ops (this : StdAllocator) (w : World T) st',
            (forall init n ok, ~ In (OpAllocate init n ok) ops) ->
            count this <= capacity this ->
            run ops (this, w) = Returns st' ->
            count (fst st') <= capacity (fst st')) as Hstd.
  { intros ops this w st' Hops Hinv Hr.
    exact (Std_run_invariant ops this w st' Hops Hinv Hr). }
  split; [|split; [|split; [|split; [exact Hstd|split; [|split; [|split;
    [exact Hrun|]]]]]]].
  - intros k ok [this w] [this' w'] Hg.
    change (Std._grow k ok (this, w) = Returns (this', w')) in Hg.
    pose proof (Std_grow_count _ _ _ _ _ _ Hg) as Hle.
    apply Std_grow_inv in Hg as (w2 & w3 & w4 & w5 & _ & _ & _ & _ & _ & [= -> ->]).
    change (size_add (_count this) k = Z.max (_count this) (size_add (_count this) k)).
    lia.
  - intros k [this w] [this' w'] Hs.
    change (Std._shrink k (this, w) = Returns (this', w')) in Hs.
    apply Std_shrink_inv in Hs as (w1 & _ & [= -> ->]).
    split; [done|].
    change (Z.min (_count this) (size_sub (_count this) k) <= _count this). lia.
  - intros [this w] [this' w'] Hf.
    change (Std.free (this, w) = Returns (this', w')) in Hf.
    by apply Std_free_inv in Hf as (w1 & w2 & _ & _ & [= -> ->]).
  - intros ops w st' Hops Hr.
    apply (Hstd ops Std.new w st' Hops); [|done]. by cbn.
  - intros init n ok this w [this' w'] Hm Hn Ha.
    change (Future.allocate init n ok (this, w) = Returns (this', w')) in Ha.
    apply Future_allocate_inv in Ha
      as (cap & Hcap & [(-> & [= -> ->]) | (Hne & _ & w2 & _ & [= -> ->])]).
    + split; [done|]. apply scale_range in Hcap.
      change (0 <= cap). lia.
    + split; [done|]. rewrite Hm in Hcap.
      by apply (scale_covers _ _ _ Hvalid Hlt) in Hcap.
  - intros ops w st' Hr.
    by apply (Hrun ops {| base := Std.new; multiplier := m |} w st').
Qed.

(** C1, amended, on running code: multiplier 1.5, 64-bit debug build. *)
Lemma capacity_and_count_witness :
  (valid_binary Float32.prec Float32.emax Float32.one_and_a_half = true /\
   Float32.ltb Float32.one Float32.one_and_a_half = true) /\
  Std.capacity (fst five_ints) = Std.count (fst five_ints) /\
  Std.count (fst three_ints_again) <= Std.capacity (fst three_ints_again) /\
  Future.count (fst five_ints_future) <= Future.capacity (fst five_ints_future) /\
  Future.capacity (fst five_ints_future) = 7.
Proof.
  split; [done|].
  destruct (capacity_and_count (H:=debug64) (H0:=int_Element) Float32.one_and_a_half
              eq_refl eq_refl) as (Hgrow & _ & _ & Hstd & _ & _ & _ & Hrun).
  split; [|split; [|split; [|done]]].
  - apply (Hgrow 2 true three_ints five_ints). by vm_compute.
  - apply (Hstd [OpShrink 2] (fst five_ints) (snd five_ints) three_ints_again).
    + intros init n ok [Hin|[]]. discriminate Hin.
    + by vm_compute.
    + by vm_compute.
  - apply (Hrun [OpAllocate Init_default 3 true; OpGrow 2 true] empty_world five_ints_future).
    by vm_compute.
Defined.


(** ** The capacity of the amortized strategy *)

(** C2 fails: with multiplier 1.5, [allocate(1)] reserves room for one
    element, where [ceil(1.5 * 1)] is 2; and [allocate(3)] reserves room
    for four, where [ceil(1.5 * 3)] is 5. *)
Lemma capacity_is_not_the_ceiling :
  (exists st',
     Future.allocate (H:=release64) (H0:=int_Element) Init_default 1 true fresh_future
       = Returns st' /\
     Future.capacity (fst st') = 1 /\ spec_capacity 3 2 1 = 2) /\
  Future.allocate (H:=debug64) (H0:=int_Element) Init_default 3 true fresh_future
    = Returns three_ints_future /\
  Future.capacity (fst three_ints_future) = 4 /\ spec_capacity 3 2 3 = 5.
Proof.
  split; [eexists; split; [by vm_compute | done] | repeat split; by vm_compute].
Qed.

(** C2, amended.  In the amortized strategy, [allocate(n, ...)] that
    returns has set the capacity to [(Size)(multiplier * n)], the
    single-precision product truncated toward zero, and constructed the
    [n] elements at [0, n) and nothing behind them; for [n > 0] the block
    it has acquired has [capacity * sizeof(T)] bytes, the product computed
    in [size_t], so room for [capacity] elements whenever that product
    fits [size_t].  [grow(k)] that returns has acquired a block exactly
    when [count + k] (wrapped to [Size]) exceeds the capacity, the new
    capacity then being [(Size)(multiplier * (count + k))] and the new
    block having [capacity * sizeof(T)] bytes in the same sense, and has
    otherwise kept the block, its size and the capacity.  For a multiplier
    above 1.0 the truncated product is at least its argument, and for 1.5
    and [n < 4096] it is [3 * n / 2] rounded down. *)
Theorem amortized_capacity `{Platform} {T : Type} `{Element T} :
  (forall init n ok (st st' : FutureAllocator * World T),
     0 <= n -> allocate init n ok st = Returns st' ->
     Float32.scale (multiplier (fst st)) n = Some (capacity (fst st')) /\
     count (fst st') = n /\
     extends (snd st) (snd st') (Zseq 0 (Z.to_nat n)) [] (if n =? 0 then 0 else 1) /\
     (forall i, 0 <= i < n -> at_index i st' = init_value init i) /\
     (forall i, n <= i -> at_index i st' = None) /\
     (n <> 0 ->
      exists blk,
        ptr (fst st') = Blk (fresh (dom (heap (snd st)))) /\
        heap (snd st') !! fresh (dom (heap (snd st))) = Some blk /\
        bytes blk = size_mul (capacity (fst st')) (Z.pos sizeof_T) /\
        (capacity (fst st') * Z.pos sizeof_T < size_t_modulus ->
         bytes blk = capacity (fst st') * Z.pos sizeof_T))) /\
  (forall k ok (st st' : FutureAllocator * World T),
     grow k ok st = Returns st' ->
     let new_size := size_add (count (fst st)) k in
     if capacity (fst st) <? new_size
     then Float32.scale (multiplier (fst st)) new_size = Some (capacity (fst st')) /\
          ptr (fst st') = Blk (fresh (dom (heap (snd st)))) /\
          (exists cs ds, extends (snd st) (snd st') cs ds 1) /\
          (0 <= capacity (fst st) ->
           exists blk,
             heap (snd st') !! fresh (dom (heap (snd st))) = Some blk /\
             bytes blk = size_mul (capacity (fst st')) (Z.pos sizeof_T) /\
             (capacity (fst st') * Z.pos sizeof_T < size_t_modulus ->
              bytes blk = capacity (fst st') * Z.pos sizeof_T))
     else capacity (fst st') = capacity (fst st) /\
          ptr (fst st') = ptr (fst st) /\
          (exists cs, extends (snd st) (snd st') cs [] 0) /\
          (forall b blk, ptr (fst st) = Blk b -> heap (snd st) !! b = Some blk ->
             exists blk', heap (snd st') !! b = Some blk' /\
                          bytes blk' = bytes blk)) /\
  (forall m n c,
     valid_binary Float32.prec Float32.emax m = true ->
     Float32.ltb Float32.one m = true ->
     Float32.scale m n = Some c -> n <= c) /\
  (forall n, 0 <= n < 4096 -> 6144 <= Size_modulus ->
     Float32.scale Float32.one_and_a_half n = Some (3 * n / 2)).
Proof.
  split; [|split; [|split]].
  - intros init n ok [this w] [this' w'] Hn Ha.
    change (Future.allocate init n ok (this, w) = Returns (this', w')) in Ha.
    pose proof (Future_allocate_extends _ _ _ _ _ _ _ Ha) as Hext.
    pose proof (fun Hne => Future_allocate_block _ _ _ _ _ _ _ Hne Ha) as Hblock.
    apply Future_allocate_holds in Ha as (vs & Hh & Hlen & Hinit & Hcap & _); [|done].
    pose proof Hh as [Hc _].
    split; [exact Hcap|]. split; [change (_count (base this') = n); lia|].
    split; [exact Hext|]. split; [|split].
    + intros i Hi. change (read (__ptr (base this')) i w' = init_value init i).
      rewrite (holds_read _ _ _ _ Hh) by lia.
      destruct (lookup_lt_is_Some_2 vs (Z.to_nat i)) as [v Hv]; [lia|].
      rewrite Hv. apply Hinit in Hv. by rewrite Z2Nat.id in Hv by lia.
    + intros i Hi. change (read (__ptr (base this')) i w' = None).
      apply (holds_read_outside _ _ vs); [done | lia].
    + intros Hne. destruct (Hblock Hne) as (blk & Hp & Hb & Hbytes).
      exists blk. split; [exact Hp|]. split; [exact Hb|]. split; [exact Hbytes|].
      intros Hfit. rewrite Hbytes. apply scale_range in Hcap.
      apply size_mul_small; [|lia|exact Hfit]. apply Hcap.
  - intros k ok [this w] [this' w'] Hg.
    change (Future._grow k ok (this, w) = Returns (this', w')) in Hg.
    pose proof (Future_grow_extends _ _ _ _ _ _ Hg) as Hext. cbv zeta in Hext.
    pose proof (fun H0c Hlt => Future_grow_block _ _ _ _ _ _ H0c Hlt Hg) as Hblock.
    cbv zeta. change (count (this, w).1) with (_count (base this)).
    change (capacity (this, w).1) with (_cap (base this)).
    apply Future_grow_inv in Hg
      as [(Hcap & _ & cap & w2 & w3 & w4 & w5 & Hs & _ & _ & _ & _ & [= -> ->])
         | (Hle & w5 & H5 & [= -> ->])].
    + destruct (_ <? _) eqn:E; [|lia]. split; [exact Hs|]. split; [done|].
      split; [eauto|]. intros H0c.
      destruct (Hblock H0c Hcap) as (blk & Hb & Hbytes).
      exists blk. split; [exact Hb|]. split; [exact Hbytes|].
      intros Hfit. rewrite Hbytes. apply scale_range in Hs.
      apply size_mul_small; [|lia|exact Hfit]. apply Hs.
    + destruct (_ <? _) eqn:E; [lia|]. split; [done|]. split; [done|].
      split; [eauto|]. intros b blk _ Hb.
      exact (construct_loop_bytes _ _ _ _ _ _ _ _ H5 Hb).
  - intros m n c. apply scale_covers.
  - apply @scale_one_and_a_half.
Qed.

(** * Whole lives of a buffer, edges and failures: lemmas *)

(** ** [_shrink] when nothing is left to destruct *)

Section ShrinkEdge.
Context `{Platform} {T : Type} `{Element T}.

Lemma Std_shrink_nothing d (this : StdAllocator) (w : World T) :
  is_Size (_count this) -> d = 0 \/ _count this < d < Size_modulus ->
  Std._shrink d (this, w) = Returns (this, w).
Proof.
  intros Hc Hd. unfold Std._shrink.
  assert (Hn : _count this <= size_sub (_count this) d).
  { unfold size_sub. destruct Hd as [-> | Hd].
    - rewrite Z.sub_0_r, Z.mod_small; [lia | exact Hc].
    - unfold is_Size in Hc.
      rewrite <- (Z.mod_add (_count this - d) 1 Size_modulus) by lia.
      rewrite Z.mod_small; lia. }
  replace (Z.to_nat (_count this - size_sub (_count this) d)) with O by lia.
  simpl. rewrite Z.min_l by lia. by destruct this.
Qed.
End ShrinkEdge.

(** ** Blocks a call does not touch *)

Section Frame.
Context {T : Type} `{Element T}.
Implicit Types (w : World T) (p : pointer) (b : positive).

Lemma placement_new_frame p i v w w' b :
  placement_new p i v w = Some w' -> p <> Blk b -> heap w' !! b = heap w !! b.
Proof.
  destruct p as [| |b0]; try done. intros Hp Hne.
  apply placement_new_inv in Hp as (blk & _ & _ & _ & ->). simpl.
  apply lookup_insert_ne. congruence.
Qed.

Lemma destroy_frame p i w w' b :
  destroy p i w = Some w' -> p <> Blk b -> heap w' !! b = heap w !! b.
Proof.
  destruct p as [| |b0]; try done. intros Hp Hne.
  apply destroy_inv in Hp as (blk & _ & _ & ->). simpl.
  apply lookup_insert_ne. congruence.
Qed.

Lemma c_free_frame p w w' b :
  c_free p w = Some w' -> p <> Blk b -> heap w' !! b = heap w !! b.
Proof.
  destruct p as [| |b0]; try done.
  - by intros [= ->].
  - intros Hp Hne. apply c_free_inv in Hp as [_ ->]. simpl.
    apply lookup_delete_ne. congruence.
Qed.

Lemma malloc_frame ok n w p w' b :
  malloc ok n w = (p, w') -> p <> Blk b -> heap w' !! b = heap w !! b.
Proof.
  unfold malloc. destruct ok; intros [= <- <-] Hne; [|done]. simpl.
  apply lookup_insert_ne. congruence.
Qed.

Lemma construct_loop_frame p src from n w w' b :
  construct_loop p src from n w = Some w' -> p <> Blk b ->
  heap w' !! b = heap w !! b.
Proof.
  revert from w. induction n as [|n IH]; intros from w Hl Hne; simpl in Hl.
  - by injection Hl as ->.
  - apply bind_Some in Hl as (v & _ & Hl).
    apply bind_Some in Hl as (w1 & Hp & Hl).
    rewrite (IH _ _ Hl Hne). eauto using placement_new_frame.
Qed.

Lemma destruct_up_frame p from n w w' b :
  destruct_up p from n w = Some w' -> p <> Blk b -> heap w' !! b = heap w !! b.
Proof.
  revert from w. induction n as [|n IH]; intros from w Hl Hne; simpl in Hl.
  - by injection Hl as ->.
  - apply bind_Some in Hl as (w1 & Hp & Hl).
    rewrite (IH _ _ Hl Hne). eauto using destroy_frame.
Qed.

Lemma destruct_down_frame p top n w w' b :
  destruct_down p top n w = Some w' -> p <> Blk b -> heap w' !! b = heap w !! b.
Proof.
  revert top w. induction n as [|n IH]; intros top w Hl Hne; simpl in Hl.
  - by injection Hl as ->.
  - apply bind_Some in Hl as (w1 & Hp & Hl).
    rewrite (IH _ _ Hl Hne). eauto using destroy_frame.
Qed.
End Frame.

(** The same for the members. *)
Section OpFrame.
Context `{Platform} {T : Type} `{Element T}.
Implicit Types (w : World T) (b : positive).

Lemma Std_grow_frame k ok (this this' : StdAllocator) w w' b :
  Std._grow k ok (this, w) = Returns (this', w') ->
  __ptr this <> Blk b -> __ptr this' <> Blk b -> heap w' !! b = heap w !! b.
Proof.
  intros Hg Ho Hn.
  apply Std_grow_inv in Hg as (w2 & w3 & w4 & w5 & _ & H2 & H3 & H4 & H5 & Hst).
  injection Hst as -> ->. simpl in Hn.
  rewrite (construct_loop_frame _ _ _ _ _ _ _ H5 Hn).
  rewrite (c_free_frame _ _ _ _ H4 Ho).
  rewrite (destruct_up_frame _ _ _ _ _ _ H3 Ho).
  rewrite (construct_loop_frame _ _ _ _ _ _ _ H2 Hn). simpl.
  apply lookup_insert_ne. congruence.
Qed.

Lemma Std_shrink_frame k (this this' : StdAllocator) w w' b :
  Std._shrink k (this, w) = Returns (this', w') ->
  __ptr this <> Blk b -> heap w' !! b = heap w !! b.
Proof.
  intros Hs Ho. apply Std_shrink_inv in Hs as (w1 & Hd & Hst).
  injection Hst as -> ->. eauto using destruct_down_frame.
Qed.

Lemma Std_free_frame (this this' : StdAllocator) w w' b :
  Std.free (this, w) = Returns (this', w') ->
  __ptr this <> Blk b -> heap w' !! b = heap w !! b.
Proof.
  intros Hf Ho. apply Std_free_inv in Hf as (w1 & w2 & Hd & Hc & Hst).
  injection Hst as -> ->.
  rewrite (c_free_frame _ _ _ _ Hc Ho). eauto using destruct_up_frame.
Qed.

Lemma Std_allocate_frame init n ok (this this' : StdAllocator) w w' b :
  Std.allocate init n ok (this, w) = Returns (this', w') ->
  __ptr this' <> Blk b -> heap w' !! b = heap w !! b.
Proof.
  intros Ha Hn. apply Std_allocate_inv in Ha as [[_ Hst] | (_ & _ & w2 & Hl & Hst)].
  - by injection Hst as -> ->.
  - injection Hst as -> ->. simpl in Hn.
    rewrite (construct_loop_frame _ _ _ _ _ _ _ Hl Hn). simpl.
    apply lookup_insert_ne. congruence.
Qed.

Lemma Future_allocate_frame init n ok (this this' : FutureAllocator) w w' b :
  Future.allocate init n ok (this, w) = Returns (this', w') ->
  __ptr (base this') <> Blk b -> heap w' !! b = heap w !! b.
Proof.
  intros Ha Hn.
  apply Future_allocate_inv in Ha as (cap & _ & [[_ Hst] | (_ & _ & w2 & Hl & Hst)]).
  - by injection Hst as -> ->.
  - injection Hst as -> ->. simpl in Hn.
    rewrite (construct_loop_frame _ _ _ _ _ _ _ Hl Hn). simpl.
    apply lookup_insert_ne. congruence.
Qed.

Lemma Future_grow_frame k ok (this this' : FutureAllocator) w w' b :
  Future._grow k ok (this, w) = Returns (this', w') ->
  __ptr (base this) <> Blk b -> __ptr (base this') <> Blk b ->
  heap w' !! b = heap w !! b.
Proof.
  intros Hg Ho Hn.
  apply Future_grow_inv in Hg as
    [(_ & _ & cap & w2 & w3 & w4 & w5 & _ & H2 & H3 & H4 & H5 & Hst) | (_ & w5 & H5 & Hst)].
  - injection Hst as -> ->. simpl in Hn.
    rewrite (construct_loop_frame _ _ _ _ _ _ _ H5 Hn).
    rewrite (c_free_frame _ _ _ _ H4 Ho).
    rewrite (destruct_up_frame _ _ _ _ _ _ H3 Ho).
    rewrite (construct_loop_frame _ _ _ _ _ _ _ H2 Hn). simpl.
    apply lookup_insert_ne. congruence.
  - injection Hst as -> ->. eauto using construct_loop_frame.
Qed.
End OpFrame.

(** ** Sizes that wrap around *)

Section Overflow.
Context `{Platform} {T : Type} `{Element T}.

Lemma size_mul_range a b : 0 <= size_mul a b < size_t_modulus.
Proof.
  unfold size_mul. apply Z.mod_pos_bound. unfold size_t_modulus.
  apply Z.pow_pos_nonneg; lia.
Qed.

Lemma Std_grow_not_halted k ok (st : StdAllocator * World T) msg :
  Std._grow k ok st <> Halts msg.
Proof.
  destruct st as [this w]. unfold Std._grow.
  destruct (malloc ok _ w) as [[| |b] w1]; try done;
    match goal with |- context [match ?x with Some _ => _ | None => _ end] =>
      destruct x end; done.
Qed.

Lemma Std_grow_true_not_thrown k (st st' : StdAllocator * World T) :
  Std._grow k true st <> Throws st'.
Proof.
  destruct st as [this w]. unfold Std._grow, malloc.
  match goal with |- context [match ?x with Some _ => _ | None => _ end] =>
    destruct x end; done.
Qed.


Lemma construct_loop_fits b src from n (w w' : World T) blk :
  heap w !! b = Some blk -> n <> O ->
  construct_loop (Blk b) src from n w = Some w' ->
  (from + Z.of_nat n) * Z.pos sizeof_T <= bytes blk.
Proof.
  revert from w blk. induction n as [|n IH]; [done|]. intros from w blk Hb _ Hl.
  simpl in Hl. apply bind_Some in Hl as (v & _ & Hl).
  apply bind_Some in Hl as (w1 & Hp & Hl).
  apply placement_new_inv in Hp as (blk' & Hb' & Hi & Hfit & ->).
  assert (blk' = blk) as -> by congruence.
  destruct n as [|n].
  - replace (from + Z.of_nat 1) with (from + 1) by lia. done.
  - eapply IH in Hl; [| by simpl; rewrite lookup_insert_eq | done].
    simpl in Hl. replace (from + Z.of_nat (S (S n))) with (from + 1 + Z.of_nat (S n)) by lia.
    done.
Qed.

End Overflow.

(** ** [resize] *)

Section Resize.
Context `{Platform} {T : Type} `{Element T}.

Lemma size_sub_add_back a b : is_Size a -> is_Size b -> b <= a ->
  size_add b (size_sub a b) = a.
Proof.
  intros Ha Hb Hle. unfold is_Size in Hb.
  rewrite size_sub_exact by (done || lia).
  unfold size_add. replace (b + (a - b)) with a by lia. by apply Z.mod_small.
Qed.

Lemma size_sub_sub_back a b : is_Size a -> is_Size b -> b <= a ->
  size_sub a (size_sub a b) = b.
Proof.
  intros Ha Hb Hle. pose proof Ha as Ha'. unfold is_Size in Hb, Ha'.
  rewrite (size_sub_exact a b) by (done || lia).
  rewrite size_sub_exact; [lia | done | lia].
Qed.

(** The list a buffer holding [vs] holds after [resize(c)]. *)
Lemma Std_resize_holds c ok (this this' : StdAllocator) (w w' : World T) vs :
  is_Size c -> is_Size (_count this) -> holds this w vs ->
  resize c ok (this, w) = Returns (this', w') ->
  holds this' w'
    (take (Z.to_nat c) vs ++ replicate (Z.to_nat c - length vs) T_default).
Proof.
  intros Hc Hn Hh. pose proof Hh as [Hlen _].
  pose proof Hc as Hc'. unfold is_Size in Hc'.
  unfold resize, grow, shrink. cbn [fst count StdAllocator_Allocator _grow _shrink].
  unfold Std.count.
  destruct (Z.ltb_spec (_count this) c) as [Hlt|Hge].
  - intros Hg. apply (Std_grow_holds _ _ _ _ _ _ _ Hh) in Hg as (Hh' & _).
    rewrite size_sub_add_back in Hh' by (done || lia).
    rewrite take_ge by lia.
    by replace (Z.to_nat c - length vs)%nat with (Z.to_nat (c - _count this)) by lia.
  - destruct (Z.ltb_spec c (_count this)) as [Hlt|Hge'].
    + intros Hs. apply (Std_shrink_holds _ _ _ _ _ _ Hh) in Hs as (Hh' & _).
      rewrite size_sub_sub_back in Hh' by (done || lia).
      replace (Z.to_nat c - length vs)%nat with O by lia.
      by rewrite app_nil_r.
    + intros [= <- <-]. rewrite take_ge by lia.
      replace (Z.to_nat c - length vs)%nat with O by lia.
      by rewrite app_nil_r.
Qed.

Lemma Future_resize_holds c ok (this this' : FutureAllocator) (w w' : World T) vs :
  is_Size c -> is_Size (_count (base this)) -> holds (base this) w vs ->
  resize c ok (this, w) = Returns (this', w') ->
  holds (base this') w'
    (take (Z.to_nat c) vs ++ replicate (Z.to_nat c - length vs) T_default).
Proof.
  intros Hc Hn Hh. pose proof Hh as [Hlen _].
  pose proof Hc as Hc'. unfold is_Size in Hc'.
  unfold resize, grow, shrink. cbn [fst count FutureAllocator_Allocator _grow _shrink].
  unfold Future.count, Std.count.
  destruct (Z.ltb_spec (_count (base this)) c) as [Hlt|Hge].
  - intros Hg. apply (Future_grow_holds _ _ _ _ _ _ _ Hh) in Hg as (Hh' & _).
    rewrite size_sub_add_back in Hh' by (done || lia).
    rewrite take_ge by lia.
    by replace (Z.to_nat c - length vs)%nat with (Z.to_nat (c - _count (base this))) by lia.
  - destruct (Z.ltb_spec c (_count (base this))) as [Hlt|Hge'].
    + intros Hs. apply (Future_shrink_holds _ _ _ _ _ _ Hh) in Hs as (Hh' & _).
      rewrite size_sub_sub_back in Hh' by (done || lia).
      replace (Z.to_nat c - length vs)%nat with O by lia.
      by rewrite app_nil_r.
    + intros [= <- <-]. rewrite take_ge by lia.
      replace (Z.to_nat c - length vs)%nat with O by lia.
      by rewrite app_nil_r.
Qed.

Lemma holds_at (this : StdAllocator) (w : World T) vs i :
  holds this w vs ->
  read (__ptr this) i w =
    if decide (0 <= i < Z.of_nat (length vs)) then vs !! Z.to_nat i else None.
Proof.
  intros Hh. apply holds_cases in Hh as [(-> & -> & _) | (b & blk & -> & Hb & Hc & _)].
  - by case_decide.
  - unfold read. rewrite Hb. simpl. rewrite Hc. apply lookup_cells_of.
Qed.

Lemma resized_lookup (vs : list T) c i :
  0 <= c -> 0 <= i ->
  (take (Z.to_nat c) vs ++ replicate (Z.to_nat c - length vs) T_default) !! Z.to_nat i =
    if decide (i < c) then
      if decide (i < Z.of_nat (length vs)) then vs !! Z.to_nat i else Some T_default
    else None.
Proof.
  intros Hc Hi. case_decide as Hic.
  - case_decide as Hin.
    + rewrite lookup_app_l by (rewrite length_take; lia).
      apply lookup_take_lt. lia.
    + rewrite lookup_app_r by (rewrite length_take; lia).
      apply lookup_replicate_2. rewrite length_take. lia.
  - apply lookup_ge_None. rewrite length_app, length_take, length_replicate. lia.
Qed.

Lemma resized_buffer (b b' : StdAllocator) (w w' : World T) vs c :
  is_Size c -> holds b w vs ->
  holds b' w' (take (Z.to_nat c) vs ++ replicate (Z.to_nat c - length vs) T_default) ->
  _count b' = c /\
  (forall i, 0 <= i < Z.min (Z.of_nat (length vs)) c ->
     read (__ptr b') i w' = read (__ptr b) i w /\ is_Some (read (__ptr b') i w')) /\
  (forall i, Z.of_nat (length vs) <= i < c -> read (__ptr b') i w' = Some T_default) /\
  (forall i, c <= i -> read (__ptr b') i w' = None).
Proof.
  intros Hc Hh Hh'. unfold is_Size in Hc.
  assert (Hlen : Z.of_nat (length (take (Z.to_nat c) vs ++
            replicate (Z.to_nat c - length vs) T_default)) = c).
  { rewrite length_app, length_take, length_replicate. lia. }
  split; [destruct Hh' as [-> _]; exact Hlen|].
  split; [|split].
  - intros i Hi. rewrite (holds_at _ _ _ i Hh'), (holds_at _ _ _ i Hh), Hlen.
    rewrite !decide_True by lia. rewrite resized_lookup by lia.
    rewrite !decide_True by lia. split; [done|].
    apply lookup_lt_is_Some. lia.
  - intros i Hi. rewrite (holds_at _ _ _ i Hh'), Hlen.
    rewrite decide_True by lia. rewrite resized_lookup by lia.
    rewrite decide_True by lia. by rewrite decide_False by lia.
  - intros i Hi. rewrite (holds_at _ _ _ i Hh'), Hlen.
    by rewrite decide_False by lia.
Qed.

Lemma Std_resize_returns c (this : StdAllocator) (w : World T) vs :
  is_Size c -> c * Z.pos sizeof_T < Size_modulus -> is_Size (_count this) ->
  holds this w vs ->
  exists st', resize c true (this, w) = Returns st'.
Proof.
  intros Hc Hfit Hn Hh. pose proof Hc as Hc'. unfold is_Size in Hc'.
  unfold resize, grow, shrink. cbn [fst count StdAllocator_Allocator _grow _shrink].
  unfold Std.count.
  destruct (Z.ltb_spec (_count this) c) as [Hlt|Hge].
  - unfold is_Size in Hn. rewrite size_sub_exact by (done || lia).
    eapply Std_grow_returns; [exact Hh | lia |].
    by replace (_count this + (c - _count this)) with c by lia.
  - destruct (Z.ltb_spec c (_count this)) as [Hlt|Hge']; [|by eexists].
    eapply Std_shrink_returns, Hh.
Qed.

End Resize.

(** ** One block, and every object accounted for *)

Section Tidy.
Context `{Platform} {T : Type} `{Element T}.
Implicit Types (w : World T) (vs : list T).

Lemma extends_lengths w w' cs ds m :
  extends w w' cs ds m ->
  length (constructed (trace w')) = (length (constructed (trace w)) + length cs)%nat /\
  length (destructed (trace w')) = (length (destructed (trace w)) + length ds)%nat.
Proof.
  intros (evs & -> & <- & <- & _). unfold constructed, destructed.
  by rewrite !omap_app, !length_app.
Qed.

Lemma pointer_cases (p : pointer) (b : positive) : p = Blk b \/ p <> Blk b.
Proof.
  destruct p as [| |b0]; [by right | by right |].
  destruct (decide (b0 = b)) as [->|]; [by left | right; congruence].
Qed.

Lemma tidy_step (b b' : StdAllocator) w w' vs vs' cs ds m :
  tidy b w vs -> holds b' w' vs' -> extends w w' cs ds m ->
  (length cs + length vs = length ds + length vs')%nat ->
  (forall blk, __ptr b <> Blk blk -> __ptr b' <> Blk blk ->
     heap w' !! blk = heap w !! blk) ->
  (forall blk, __ptr b = Blk blk -> __ptr b' <> Blk blk -> heap w' !! blk = None) ->
  tidy b' w' vs'.
Proof.
  intros (Hh & Hsole & Hbal) Hh' Hext Hlen Hframe Hgone.
  split; [done|split].
  - intros b0 Hb0.
    destruct (pointer_cases (__ptr b') b0) as [|Hn]; [done|].
    destruct (pointer_cases (__ptr b) b0) as [Ho|Ho].
    + rewrite (Hgone _ Ho Hn) in Hb0. by destruct Hb0.
    + rewrite (Hframe _ Ho Hn) in Hb0. by apply Hsole in Hb0.
  - apply extends_lengths in Hext as [-> ->]. lia.
Qed.

Lemma Std_grow_tidy k ok (this this' : StdAllocator) w w' vs :
  tidy this w vs -> Std._grow k ok (this, w) = Returns (this', w') ->
  exists vs', tidy this' w' vs'.
Proof.
  intros Ht Hg. pose proof Ht as (Hh & _).
  pose proof (Std_grow_holds _ _ _ _ _ _ _ Hh Hg) as (Hh' & _ & _ & _ & Hgone).
  eexists. eapply tidy_step; [exact Ht | exact Hh' | eapply Std_grow_extends, Hg | | |].
  - destruct Hh as [Hc _]. rewrite !length_app, !Zseq_length, length_replicate. lia.
  - intros blk Ho Hn. eapply Std_grow_frame; eauto.
  - intros blk Ho _. by apply Hgone.
Qed.

Lemma Std_shrink_tidy k (this this' : StdAllocator) w w' vs :
  tidy this w vs -> Std._shrink k (this, w) = Returns (this', w') ->
  exists vs', tidy this' w' vs'.
Proof.
  intros Ht Hs. pose proof Ht as (Hh & _).
  pose proof (Std_shrink_holds _ _ _ _ _ _ Hh Hs) as (Hh' & _ & _ & Hp).
  eexists. eapply tidy_step; [exact Ht | exact Hh' | eapply Std_shrink_extends, Hs | | |].
  - destruct Hh as [Hc _]. pose proof (size_sub_range (_count this) k).
    cbv zeta. rewrite length_rev, Zseq_length, length_take. simpl. lia.
  - intros blk Ho _. eapply Std_shrink_frame; eauto.
  - intros blk Ho Hn. congruence.
Qed.

Lemma Std_free_tidy (this this' : StdAllocator) w w' vs :
  tidy this w vs -> Std.free (this, w) = Returns (this', w') ->
  heap w' = ∅ /\
  length (constructed (trace w')) = length (destructed (trace w')).
Proof.
  intros (Hh & Hsole & Hbal) Hf. split.
  - apply map_empty. intros b.
    destruct (pointer_cases (__ptr this) b) as [Ho|Ho].
    + apply Std_free_inv in Hf as (w1 & w2 & _ & Hc & Hst).
      injection Hst as _ ->. rewrite Ho in Hc.
      apply c_free_inv in Hc as [_ ->]. simpl. apply lookup_delete_eq.
    + rewrite (Std_free_frame _ _ _ _ _ Hf Ho).
      destruct (heap w !! b) eqn:E; [|done].
      exfalso. apply Ho, Hsole. by rewrite E.
  - apply Std_free_extends, extends_lengths in Hf as [-> ->].
    destruct Hh as [Hc _]. rewrite Zseq_length. simpl. lia.
Qed.

Lemma Std_allocate_tidy init n ok (this' : StdAllocator) w' :
  0 <= n ->
  Std.allocate init n ok (Std.new, empty_world) = Returns (this', w') ->
  exists vs, tidy this' w' vs.
Proof.
  intros Hn Ha.
  destruct (Std_allocate_holds _ _ _ _ _ _ _ Hn Ha) as (vs & Hh & Hlen & _).
  exists vs. split; [done|split].
  - intros b Hb. destruct (pointer_cases (__ptr this') b) as [|Hne]; [done|].
    rewrite (Std_allocate_frame _ _ _ _ _ _ _ _ Ha Hne) in Hb. simpl in Hb.
    rewrite lookup_empty in Hb. by destruct Hb.
  - apply Std_allocate_extends, extends_lengths in Ha as [-> ->].
    rewrite Zseq_length. simpl. lia.
Qed.

Lemma Std_step_tidy (op : Op T) (this this' : StdAllocator) w w' vs :
  resizing op = true -> tidy this w vs ->
  step op (this, w) = Returns (this', w') ->
  exists vs', tidy this' w' vs'.
Proof.
  destruct op as [| k ok | k | c ok |]; try done; intros _ Ht; simpl.
  - exact (Std_grow_tidy _ _ _ _ _ _ _ Ht).
  - exact (Std_shrink_tidy _ _ _ _ _ _ Ht).
  - unfold resize, grow, shrink. cbn [fst count StdAllocator_Allocator _grow _shrink].
    destruct (_ <? _); [exact (Std_grow_tidy _ _ _ _ _ _ _ Ht)|].
    destruct (_ <? _); [exact (Std_shrink_tidy _ _ _ _ _ _ Ht)|].
    intros [= <- <-]. eauto.
Qed.

Lemma Std_run_tidy (ops : list (Op T)) (this : StdAllocator) w vs st' :
  forallb resizing ops = true -> tidy this w vs ->
  run (ops ++ [OpFree]) (this, w) = Returns st' ->
  heap (snd st') = ∅ /\
  length (constructed (trace (snd st'))) = length (destructed (trace (snd st'))).
Proof.
  revert this w vs. induction ops as [|op ops IH]; intros this w vs Hops Ht.
  - simpl. destruct (Std.free (this, w)) as [[this' w']| | |] eqn:E; try done.
    intros [= <-]. simpl. eapply Std_free_tidy; eauto.
  - simpl in Hops. apply andb_prop in Hops as [Hop Hops].
    cbn [app run]. destruct (step op (this, w)) as [[this1 w1]| | |] eqn:E; try done.
    destruct (Std_step_tidy _ _ _ _ _ _ Hop Ht E) as [vs1 Ht1]. eauto.
Qed.

Lemma Future_grow_tidy k ok (this this' : FutureAllocator) w w' vs :
  tidy (base this) w vs -> Future._grow k ok (this, w) = Returns (this', w') ->
  exists vs', tidy (base this') w' vs'.
Proof.
  intros Ht Hg. pose proof Ht as (Hh & _).
  pose proof (Future_grow_holds _ _ _ _ _ _ _ Hh Hg) as (Hh' & _ & _ & Hcase).
  pose proof (Future_grow_extends _ _ _ _ _ _ Hg) as Hext. cbv zeta in Hext.
  destruct Hh as [Hc _].
  destruct Hcase as [(Hlt & _ & _ & Hgone) | (Hge & _ & Hp)].
  - apply Z.ltb_lt in Hlt. rewrite Hlt in Hext.
    eexists. eapply tidy_step; [exact Ht | exact Hh' | exact Hext | | |].
    + rewrite !length_app, !Zseq_length, length_replicate. lia.
    + intros blk Ho Hn. eapply Future_grow_frame; eauto.
    + intros blk Ho _. by apply Hgone.
  - apply Z.ltb_ge in Hge. rewrite Hge in Hext.
    eexists. eapply tidy_step; [exact Ht | exact Hh' | exact Hext | | |].
    + rewrite !length_app, !Zseq_length, length_replicate. simpl. lia.
    + intros blk Ho Hn. eapply Future_grow_frame; eauto.
    + intros blk Ho Hn. congruence.
Qed.

Lemma Future_shrink_tidy k (this this' : FutureAllocator) w w' vs :
  tidy (base this) w vs -> Future._shrink k (this, w) = Returns (this', w') ->
  exists vs', tidy (base this') w' vs'.
Proof.
  intros Ht Hs. apply inherited_Returns in Hs as (b' & Hs & ->).
  exact (Std_shrink_tidy _ _ _ _ _ _ Ht Hs).
Qed.

Lemma Future_free_tidy (this this' : FutureAllocator) w w' vs :
  tidy (base this) w vs -> Future.free (this, w) = Returns (this', w') ->
  heap w' = ∅ /\
  length (constructed (trace w')) = length (destructed (trace w')).
Proof.
  intros Ht Hf. apply inherited_Returns in Hf as (b' & Hf & ->).
  exact (Std_free_tidy _ _ _ _ _ Ht Hf).
Qed.

Lemma Future_allocate_tidy init n ok m (this' : FutureAllocator) w' :
  0 <= n ->
  Future.allocate init n ok ({| base := Std.new; multiplier := m |}, empty_world)
    = Returns (this', w') ->
  exists vs, tidy (base this') w' vs.
Proof.
  intros Hn Ha.
  destruct (Future_allocate_holds _ _ _ _ _ _ _ Hn Ha) as (vs & Hh & Hlen & _).
  exists vs. split; [done|split].
  - intros b Hb. destruct (pointer_cases (__ptr (base this')) b) as [|Hne]; [done|].
    rewrite (Future_allocate_frame _ _ _ _ _ _ _ _ Ha Hne) in Hb. simpl in Hb.
    rewrite lookup_empty in Hb. by destruct Hb.
  - apply Future_allocate_extends, extends_lengths in Ha as [-> ->].
    rewrite Zseq_length. simpl. lia.
Qed.

Lemma Future_step_tidy (op : Op T) (this this' : FutureAllocator) w w' vs :
  resizing op = true -> tidy (base this) w vs ->
  step op (this, w) = Returns (this', w') ->
  exists vs', tidy (base this') w' vs'.
Proof.
  destruct op as [| k ok | k | c ok |]; try done; intros _ Ht; simpl.
  - exact (Future_grow_tidy _ _ _ _ _ _ _ Ht).
  - exact (Future_shrink_tidy _ _ _ _ _ _ Ht).
  - unfold resize, grow, shrink. cbn [fst count FutureAllocator_Allocator _grow _shrink].
    destruct (_ <? _); [exact (Future_grow_tidy _ _ _ _ _ _ _ Ht)|].
    destruct (_ <? _); [exact (Future_shrink_tidy _ _ _ _ _ _ Ht)|].
    intros [= <- <-]. eauto.
Qed.

Lemma Future_run_tidy (ops : list (Op T)) (this : FutureAllocator) w vs st' :
  forallb resizing ops = true -> tidy (base this) w vs ->
  run (ops ++ [OpFree]) (this, w) = Returns st' ->
  heap (snd st') = ∅ /\
  length (constructed (trace (snd st'))) = length (destructed (trace (snd st'))).
Proof.
  revert this w vs. induction ops as [|op ops IH]; intros this w vs Hops Ht.
  - simpl. destruct (Future.free (this, w)) as [[this' w']| | |] eqn:E; try done.
    intros [= <-]. simpl. eapply Future_free_tidy; eauto.
  - simpl in Hops. apply andb_prop in Hops as [Hop Hops].
    cbn [app run]. destruct (step op (this, w)) as [[this1 w1]| | |] eqn:E; try done.
    destruct (Future_step_tidy _ _ _ _ _ _ Hop Ht E) as [vs1 Ht1]. eauto.
Qed.

End Tidy.

(** ** The events of a relocation *)

Section Relocation.
Context `{Platform} {T : Type} `{Element T}.
Implicit Types (w : World T) (vs : list T).

Lemma relocate_trace (this : StdAllocator) w vs size tr w2 w3 w4 b :
  holds this w vs -> __ptr this = Blk b ->
  let b' := fresh (dom (heap w)) in
  let n := Z.to_nat (_count this) in
  construct_loop (Blk b') (read (__ptr this)) 0 n
    {| heap := <[b' := {| bytes := size; cells := ∅ |}]> (heap w);
       trace := tr |} = Some w2 ->
  destruct_up (__ptr this) 0 n w2 = Some w3 ->
  c_free (__ptr this) w3 = Some w4 ->
  b' <> b /\
  trace w4 = tr ++ constructs b' 0 vs ++ map (EvDestruct b) (Zseq 0 (length vs))
                ++ [EvFree b].
Proof.
  intros Hh Hp b' n H2 H3 H4. subst n.
  pose proof (fresh_block w) as Hfresh. fold b' in Hfresh.
  destruct (holds_cases _ _ _ Hh) as [(Hp' & _) | (b0 & blk & Hp' & Hb & Hcells & Hc)];
    [congruence|].
  assert (b0 = b) as -> by congruence.
  rewrite Hp, Hc, Nat2Z.id in *.
  assert (b <> b') as Hne by congruence.
  eapply construct_loop_inv in H2 as (vs1 & Hlen & Hvs1 & E2 & _);
    [| by apply ignores_read; congruence | simpl; apply lookup_insert_eq].
  subst w2.
  assert (vs1 = vs) as ->.
  { apply (values_determined _ _ (fun k => vs !! k)); [done | | done].
    intros k v Hk. pose proof (lookup_lt_Some _ _ _ Hk) as Hlt.
    apply Hvs1 in Hk. unfold read in Hk. simpl in Hk.
    rewrite lookup_insert_ne, Hb in Hk by done. simpl in Hk.
    rewrite Hcells, lookup_cells_of in Hk.
    case_decide; [|lia]. by rewrite Z.add_0_l, Nat2Z.id in Hk. }
  apply (destruct_up_inv _ _ _ _ _ blk) in H3 as (_ & E3);
    [| simpl; rewrite !lookup_insert_ne by done; exact Hb].
  subst w3.
  apply c_free_inv in H4 as (_ & E4). subst w4. simpl.
  split; [done|]. by rewrite <- !app_assoc.
Qed.

Lemma append_defaults_trace b w vs size k w' :
  heap w !! b = Some {| bytes := size; cells := cells_of vs |} ->
  construct_loop (Blk b) (fun _ _ => Some T_default) (Z.of_nat (length vs)) k w
    = Some w' ->
  trace w' = trace w ++ constructs b (Z.of_nat (length vs)) (replicate k T_default).
Proof.
  intros Hb Hl.
  eapply construct_loop_inv in Hl as (vs2 & Hlen2 & Hvs2 & E & _);
    [| apply (ignores_const b (fun _ => Some T_default)) | exact Hb].
  apply replicate_determined in Hvs2. rewrite Hlen2 in Hvs2. by subst vs2 w'.
Qed.

End Relocation.

(** ** What [allocate] leaves alone *)

Section Leak.
Context `{Platform} {T : Type} `{Element T}.
Implicit Types (w : World T) (vs : list T).

Lemma holds_transfer (this : StdAllocator) w w' vs :
  holds this w vs ->
  (forall b blk, heap w !! b = Some blk -> heap w' !! b = Some blk) ->
  holds this w' vs.
Proof.
  intros [Hc Hp] Hkeep. split; [done|].
  destruct (__ptr this) as [| |b]; try done.
  destruct Hp as (blk & Hb & Hcells). eauto.
Qed.

Lemma Std_allocate_keeps init n ok (this this' : StdAllocator) w w' b blk :
  Std.allocate init n ok (this, w) = Returns (this', w') ->
  heap w !! b = Some blk ->
  heap w' !! b = Some blk /\ __ptr this' <> Blk b.
Proof.
  intros Ha Hb.
  assert (Hne : __ptr this' <> Blk b).
  { apply Std_allocate_inv in Ha as [[_ Hst] | (_ & _ & w2 & _ & Hst)];
      injection Hst as -> _; simpl; [done|].
    intros [= <-]. rewrite fresh_block in Hb. done. }
  split; [|done]. by rewrite (Std_allocate_frame _ _ _ _ _ _ _ _ Ha Hne).
Qed.

Lemma Future_allocate_keeps init n ok (this this' : FutureAllocator) w w' b blk :
  Future.allocate init n ok (this, w) = Returns (this', w') ->
  heap w !! b = Some blk ->
  heap w' !! b = Some blk /\ __ptr (base this') <> Blk b.
Proof.
  intros Ha Hb.
  assert (Hne : __ptr (base this') <> Blk b).
  { apply Future_allocate_inv in Ha as (cap & _ & [[_ Hst] | (_ & _ & w2 & _ & Hst)]);
      injection Hst as -> _; simpl; [done|].
    intros [= <-]. rewrite fresh_block in Hb. done. }
  split; [|done]. by rewrite (Future_allocate_frame _ _ _ _ _ _ _ _ Ha Hne).
Qed.


End Leak.

(** ** After [free] *)

Section AfterFree.
Context `{Platform} {T : Type} `{Element T}.
Implicit Types (w : World T) (vs : list T).

(** What [free] leaves of a buffer that held [vs]: no block behind the
    stored pointer. *)
Lemma Std_free_dangling (this this' : StdAllocator) w w' vs :
  holds this w vs -> Std.free (this, w) = Returns (this', w') ->
  _count this' = _count this /\
  forall i, read (__ptr this') i w' = None.
Proof.
  intros Hh Hf. pose proof Hf as Hf'.
  apply Std_free_inv in Hf as (w1 & w2 & Hd & Hc & Hst).
  injection Hst as -> ->. split; [done|]. intros i. simpl.
  destruct NDEBUG; [|done].
  destruct (__ptr this) as [| |b] eqn:Hp; try done.
  apply c_free_inv in Hc as [_ ->]. unfold read. simpl.
  by rewrite lookup_delete_eq.
Qed.

Lemma construct_loop_reads p q n (w w' : World T) :
  construct_loop p (read q) 0 (S n) w = Some w' -> is_Some (read q 0 w).
Proof.
  simpl. intros Hl. apply bind_Some in Hl as (v & Hv & _). by rewrite Hv.
Qed.

Lemma destroy_reads p i (w w' : World T) :
  destroy p i w = Some w' -> is_Some (read p i w).
Proof.
  destruct p as [| |b]; try done. intros Hd.
  apply destroy_inv in Hd as (blk & Hb & Hi & _). unfold read. rewrite Hb. done.
Qed.


End AfterFree.

(** ** Growing within the capacity *)

Section InPlace.
Context `{Platform} {T : Type} `{Element T}.
Implicit Types (w : World T) (vs : list T).

Lemma Future_grow_in_place k ok (this : FutureAllocator) w :
  size_add (_count (base this)) k <= _cap (base this) ->
  Future._grow k ok (this, w) = Future._grow k true (this, w).
Proof.
  intros Hle. unfold Future._grow. apply Z.ltb_ge in Hle. by rewrite Hle.
Qed.


Lemma shrunk_grown_lookup vs (k i : Z) :
  0 <= k <= Z.of_nat (length vs) -> 0 <= i ->
  (take (Z.to_nat (Z.of_nat (length vs) - k)) vs ++ replicate (Z.to_nat k) T_default)
    !! Z.to_nat i =
    if decide (i < Z.of_nat (length vs) - k) then vs !! Z.to_nat i
    else if decide (i < Z.of_nat (length vs)) then Some T_default else None.
Proof.
  intros Hk Hi. case_decide.
  - rewrite lookup_app_l by (rewrite length_take; lia). apply lookup_take_lt. lia.
  - case_decide.
    + rewrite lookup_app_r by (rewrite length_take; lia).
      apply lookup_replicate_2. rewrite length_take. lia.
    + apply lookup_ge_None. rewrite length_app, length_take, length_replicate. lia.
Qed.

Lemma shrunk_grown_buffer (b b2 : StdAllocator) w w2 vs k :
  0 <= k <= Z.of_nat (length vs) -> holds b w vs ->
  holds b2 w2
    (take (Z.to_nat (Z.of_nat (length vs) - k)) vs ++ replicate (Z.to_nat k) T_default) ->
  _count b2 = Z.of_nat (length vs) /\
  (forall i, 0 <= i < Z.of_nat (length vs) - k ->
     read (__ptr b2) i w2 = read (__ptr b) i w /\ is_Some (read (__ptr b2) i w2)) /\
  (forall i, Z.of_nat (length vs) - k <= i < Z.of_nat (length vs) ->
     read (__ptr b2) i w2 = Some T_default).
Proof.
  intros Hk Hh Hh2.
  assert (Hlen : Z.of_nat (length (take (Z.to_nat (Z.of_nat (length vs) - k)) vs ++
            replicate (Z.to_nat k) T_default)) = Z.of_nat (length vs)).
  { rewrite length_app, length_take, length_replicate. lia. }
  split; [destruct Hh2 as [-> _]; exact Hlen|]. split.
  - intros i Hi. rewrite (holds_at _ _ _ i Hh2), (holds_at _ _ _ i Hh), Hlen.
    rewrite !decide_True by lia. rewrite shrunk_grown_lookup by lia.
    rewrite decide_True by lia. split; [done|]. apply lookup_lt_is_Some. lia.
  - intros i Hi. rewrite (holds_at _ _ _ i Hh2), Hlen.
    rewrite decide_True by lia. rewrite shrunk_grown_lookup by lia.
    rewrite decide_False by lia. by rewrite decide_True by lia.
Qed.

End InPlace.

(** ** Exceptions, halts and tails *)

Section Failure.
Context `{Platform} {T : Type} `{Element T}.
Implicit Types (w : World T) (vs : list T).

Lemma Std_shrink_not_thrown k (st st' : StdAllocator * World T) :
  Std._shrink k st <> Throws st'.
Proof.
  destruct st as [this w]. unfold Std._shrink.
  by destruct (destruct_down _ _ _ _).
Qed.

Lemma Future_shrink_not_thrown k (st st' : FutureAllocator * World T) :
  Future._shrink k st <> Throws st'.
Proof.
  destruct st as [this w]. unfold Future._shrink, Future.inherited, Std._shrink.
  simpl. by destruct (destruct_down _ _ _ _).
Qed.

Lemma Std_grow_thrown k ok (st st' : StdAllocator * World T) :
  Std._grow k ok st = Throws st' -> ok = false.
Proof.
  destruct ok; [|done]. intros Hg. by apply Std_grow_true_not_thrown in Hg.
Qed.

Lemma Future_grow_thrown k ok (st st' : FutureAllocator * World T) :
  Future._grow k ok st = Throws st' ->
  ok = false /\
  _cap (base (fst st)) < size_add (_count (base (fst st))) k.
Proof.
  destruct st as [this w]. unfold Future._grow. simpl.
  destruct (Z.ltb_spec (_cap (base this)) (size_add (_count (base this)) k)).
  - destruct (Float32.scale _ _); [|done]. unfold malloc. destruct ok; [|done].
    match goal with
    | |- match ?c with _ => _ end = _ -> _ => destruct c; [|done]
    end.
    by destruct (construct_loop _ _ _ _ _).
  - by destruct (construct_loop _ _ _ _ _).
Qed.

Lemma Future_grow_not_halted k ok (st : FutureAllocator * World T) msg :
  Future._grow k ok st <> Halts msg.
Proof.
  destruct st as [this w]. unfold Future._grow. simpl.
  destruct (_ <? _).
  - destruct (Float32.scale _ _); [|done]. unfold malloc. destruct ok; [|done].
    match goal with
    | |- match ?c with _ => _ end <> _ => destruct c; [|done]
    end.
    by destruct (construct_loop _ _ _ _ _).
  - by destruct (construct_loop _ _ _ _ _).
Qed.



Lemma destruct_down_bytes p top n w w' b blk :
  destruct_down p top n w = Some w' -> heap w !! b = Some blk ->
  exists blk', heap w' !! b = Some blk' /\ bytes blk' = bytes blk.
Proof.
  revert top w blk. induction n as [|n IH]; intros top w blk Hl Hb; simpl in Hl.
  - injection Hl as <-. eauto.
  - apply bind_Some in Hl as (w1 & Hd & Hl).
    destruct p as [| |b0]; try done.
    apply destroy_inv in Hd as (blk0 & Hb0 & _ & ->).
    destruct (decide (b0 = b)) as [->|Hne].
    + assert (blk0 = blk) as -> by congruence.
      eapply IH in Hl as (blk' & ? & Hbytes); [| by simpl; rewrite lookup_insert_eq].
      eauto.
    + eapply IH in Hl as (blk' & ? & Hbytes);
        [| by simpl; rewrite lookup_insert_ne]. eauto.
Qed.

Lemma Std_shrink_tail k (this : StdAllocator) w vs :
  0 <= k <= Z.of_nat (length vs) -> is_Size (Z.of_nat (length vs)) ->
  holds this w vs ->
  exists this' w',
    Std._shrink k (this, w) = Returns (this', w') /\
    holds this' w' (take (Z.to_nat (_count this - k)) vs) /\
    _count this' = _count this - k /\ _cap this' = _cap this /\
    __ptr this' = __ptr this /\
    extends w w' [] (rev (Zseq (_count this - k) (Z.to_nat k))) 0 /\
    (forall b blk, heap w !! b = Some blk ->
       exists blk', heap w' !! b = Some blk' /\ bytes blk' = bytes blk).
Proof.
  intros Hk HM Hh. pose proof HM as HM'. unfold is_Size in HM'.
  destruct (Std_shrink_returns k _ _ _ Hh) as [[this' w'] Hs].
  exists this', w'. split; [exact Hs|].
  pose proof Hh as [Hc _].
  pose proof (Std_shrink_holds _ _ _ _ _ _ Hh Hs) as (Hh' & Hc' & Hcap & Hp).
  pose proof (Std_shrink_extends _ _ _ _ _ Hs) as Hext. cbv zeta in Hext.
  rewrite size_sub_exact in Hh', Hc', Hext by (rewrite Hc; first [done | lia]).
  split; [exact Hh'|]. split; [lia|]. split; [done|]. split; [done|]. split.
  - replace (_count this - (_count this - k)) with k in Hext by lia.
    by rewrite Z2Nat.id in Hext by lia.
  - apply Std_shrink_inv in Hs as (w1 & Hd & Hst). injection Hst as _ ->.
    intros b blk Hb. eapply destruct_down_bytes; eauto.
Qed.

Lemma holds_prefix (b b' : StdAllocator) w w' vs (m : Z) :
  0 <= m <= Z.of_nat (length vs) ->
  holds b w vs -> holds b' w' (take (Z.to_nat m) vs) ->
  (forall i, 0 <= i < m -> read (__ptr b') i w' = read (__ptr b) i w) /\
  (forall i, m <= i -> read (__ptr b') i w' = None).
Proof.
  intros Hm Hh Hh'. split; intros i Hi.
  - rewrite (holds_at _ _ _ i Hh'), (holds_at _ _ _ i Hh), length_take.
    rewrite !decide_True by lia. apply lookup_take_lt. lia.
  - rewrite (holds_at _ _ _ i Hh'), length_take. by rewrite decide_False by lia.
Qed.


End Failure.

(** ** The two strategies side by side *)

Section Same.
Context `{Platform} {T : Type} `{Element T}.
Implicit Types (w : World T) (vs : list T).

Lemma step_same_elements (op : Op T) (s s' : StdAllocator) (f f' : FutureAllocator)
    ws ws' wf wf' vs :
  resizing op = true ->
  holds s ws vs -> holds (base f) wf vs ->
  step op (s, ws) = Returns (s', ws') -> step op (f, wf) = Returns (f', wf') ->
  exists vs', holds s' ws' vs' /\ holds (base f') wf' vs'.
Proof.
  intros Hop Hs Hf. pose proof Hs as [Hcs _]. pose proof Hf as [Hcf _].
  assert (Hgrow : forall k ok,
    Std._grow k ok (s, ws) = Returns (s', ws') ->
    Future._grow k ok (f, wf) = Returns (f', wf') ->
    exists vs', holds s' ws' vs' /\ holds (base f') wf' vs').
  { intros k ok H1 H2.
    apply (Std_grow_holds _ _ _ _ _ _ _ Hs) in H1 as (H1 & _).
    apply (Future_grow_holds _ _ _ _ _ _ _ Hf) in H2 as (H2 & _).
    rewrite Hcs in H1. rewrite Hcf in H2. eauto. }
  assert (Hshrink : forall k,
    Std._shrink k (s, ws) = Returns (s', ws') ->
    Future._shrink k (f, wf) = Returns (f', wf') ->
    exists vs', holds s' ws' vs' /\ holds (base f') wf' vs').
  { intros k H1 H2.
    apply (Std_shrink_holds _ _ _ _ _ _ Hs) in H1 as (H1 & _).
    apply (Future_shrink_holds _ _ _ _ _ _ Hf) in H2 as (H2 & _).
    rewrite Hcs in H1. rewrite Hcf in H2. eauto. }
  destruct op as [| k ok | k | c ok |]; try done; simpl.
  - apply Hgrow.
  - apply Hshrink.
  - unfold resize, grow, shrink.
    cbn [fst count StdAllocator_Allocator FutureAllocator_Allocator _grow _shrink].
    unfold Future.count, Std.count. rewrite Hcs, Hcf.
    destruct (_ <? _); [apply Hgrow|].
    destruct (_ <? _); [apply Hshrink|].
    intros [= <- <-] [= <- <-]. eauto.
Qed.

Lemma run_same_elements (ops : list (Op T)) (s s' : StdAllocator)
    (f f' : FutureAllocator) ws ws' wf wf' vs :
  forallb resizing ops = true ->
  holds s ws vs -> holds (base f) wf vs ->
  run ops (s, ws) = Returns (s', ws') -> run ops (f, wf) = Returns (f', wf') ->
  exists vs', holds s' ws' vs' /\ holds (base f') wf' vs'.
Proof.
  revert s f ws wf vs. induction ops as [|op ops IH]; intros s f ws wf vs Hops Hs Hf.
  - simpl. intros [= <- <-] [= <- <-]. eauto.
  - simpl in Hops. apply andb_prop in Hops as [Hop Hops]. cbn [run].
    destruct (step op (s, ws)) as [[s1 ws1]| | |] eqn:E1; try done.
    destruct (step op (f, wf)) as [[f1 wf1]| | |] eqn:E2; try done.
    destruct (step_same_elements _ _ _ _ _ _ _ _ _ _ Hop Hs Hf E1 E2) as (vs1 & ? & ?).
    eauto.
Qed.


Lemma construct_loop_source p src from n (w w' : World T) :
  construct_loop p (fun i _ => src i) from n w = Some w' ->
  forall i, from <= i < from + Z.of_nat n -> is_Some (src i).
Proof.
  revert from w. induction n as [|n IH]; intros from w Hl i Hi; [lia|].
  simpl in Hl. apply bind_Some in Hl as (v & Hv & Hl).
  apply bind_Some in Hl as (w1 & _ & Hl).
  destruct (decide (i = from)) as [->|]; [by rewrite Hv|].
  apply (IH _ _ Hl). lia.
Qed.

End Same.

(** ** Products that need no rounding *)

Lemma shr_1_double m :
  0 <= m ->
  shr_1 (Build_shr_record (m * 2) false false) = Build_shr_record m false false.
Proof.
  intros Hm. destruct m as [|p|p]; [reflexivity | | lia].
  rewrite Z.mul_comm. reflexivity.
Qed.

Lemma iter_shr_1_exact k q :
  0 <= q ->
  SpecFloat.iter_pos shr_1 k (Build_shr_record (q * 2 ^ Z.pos k) false false) =
    Build_shr_record q false false.
Proof.
  revert q. induction k as [k IH|k IH|]; intros q Hq; cbn [SpecFloat.iter_pos].
  - assert (0 < 2 ^ Z.pos k) by (apply Z.pow_pos_nonneg; lia).
    replace (q * 2 ^ Z.pos k~1) with (q * 2 ^ Z.pos k * 2 ^ Z.pos k * 2).
    + rewrite shr_1_double by nia. rewrite IH by nia. by rewrite IH.
    + change (Z.pos k~1) with (2 * Z.pos k + 1).
      rewrite Z.pow_add_r, Z.pow_mul_r by lia. change (2 ^ 1) with 2.
      change (2 ^ 2) with (2 * 2). rewrite Z.pow_mul_l. lia.
  - assert (0 < 2 ^ Z.pos k) by (apply Z.pow_pos_nonneg; lia).
    replace (q * 2 ^ Z.pos k~0) with (q * 2 ^ Z.pos k * 2 ^ Z.pos k).
    + rewrite IH by nia. by rewrite IH.
    + change (Z.pos k~0) with (2 * Z.pos k).
      rewrite Z.pow_mul_r by lia.
      change (2 ^ 2) with (2 * 2). rewrite Z.pow_mul_l. lia.
  - change (2 ^ 1) with 2. by apply shr_1_double.
Qed.

Lemma digits2_scaled (q M : positive) s :
  8388608 <= Z.pos q < 16777216 -> 0 <= s -> Z.pos M = Z.pos q * 2 ^ s ->
  Z.pos (digits2_pos M) = 24 + s.
Proof.
  intros Hq Hs HM. apply digits2_unique; [|lia]. rewrite HM.
  replace (24 + s - 1) with (23 + s) by lia. rewrite !Z.pow_add_r by lia.
  change (2 ^ 23) with 8388608. change (2 ^ 24) with 16777216.
  assert (0 < 2 ^ s) by (apply Z.pow_pos_nonneg; lia).
  remember (2 ^ s) as a. remember (Z.pos q) as Q. clear - Hq H. nia.
Qed.

(** A product that needs no rounding: the mantissa is the 24 leading bits. *)
Lemma binary_round_aux_exact (q M : positive) (s E : Z) :
  8388608 <= Z.pos q < 16777216 -> 0 <= s -> Z.pos M = Z.pos q * 2 ^ s ->
  -149 <= E + s <= 104 ->
  binary_round_aux 24 128 false (Z.pos M) E loc_Exact = S754_finite false q (E + s).
Proof.
  intros Hq Hs HM HE. unfold binary_round_aux.
  assert (shr_fexp 24 128 (Z.pos M) E loc_Exact
          = (Build_shr_record (Z.pos q) false false, E + s)) as ->.
  { unfold shr_fexp, shr, fexp, emin. cbn [Zdigits2 shr_record_of_loc].
    rewrite (digits2_scaled q M s Hq Hs HM).
    replace (Z.max (24 + s + E - 24) (3 - 128 - 24) - E) with s by lia.
    destruct s as [|k|k]; [| |lia].
    - rewrite Z.pow_0_r, Z.mul_1_r in HM. rewrite HM. f_equal. lia.
    - rewrite HM. by rewrite iter_shr_1_exact by lia. }
  cbn [shr_m loc_of_shr_record round_nearest_even].
  assert (shr_fexp 24 128 (Z.pos q) (E + s) loc_Exact
          = (Build_shr_record (Z.pos q) false false, E + s)) as ->.
  { unfold shr_fexp, shr, fexp, emin. cbn [Zdigits2 shr_record_of_loc].
    rewrite (digits2_scaled q q 0 Hq ltac:(lia) ltac:(rewrite Z.pow_0_r; lia)).
    replace (Z.max (24 + 0 + (E + s) - 24) (3 - 128 - 24) - (E + s)) with 0 by lia.
    done. }
  cbn [shr_m]. destruct (Z.leb_spec (E + s) (128 - 24)); [done | lia].
Qed.

(** The conversion of a count below 2^24 is exact. *)
Lemma of_Size_exact (p : positive) :
  Z.pos p < 16777216 ->
  exists X,
    Float32.of_Size (Z.pos p) = S754_finite false X (Z.pos (digits2_pos p) - 24) /\
    Z.pos X = Z.pos p * 2 ^ (24 - Z.pos (digits2_pos p)).
Proof.
  intros Hp. unfold Float32.of_Size, Float32.prec, Float32.emax.
  unfold binary_normalize, binary_round, shl_align, fexp, emin.
  pose proof (digits2_bounds p) as [Blo Bhi].
  set (dn := Z.pos (digits2_pos p)) in *.
  assert (0 < dn) as Hdn by (unfold dn; lia).
  assert (dn <= 24) as Hd24.
  { destruct (Z.le_gt_cases dn 24) as [|Hgt]; [done|]. exfalso.
    assert (2 ^ 24 <= 2 ^ (dn - 1)) by (apply Z.pow_le_mono_r; lia).
    change (2 ^ 24) with 16777216 in *. lia. }
  replace (Z.max (dn + 0 - 24) (3 - 128 - 24)) with (dn - 24) by lia.
  rewrite Z.sub_0_r.
  destruct (dn - 24) as [|k|k] eqn:Ek; [| lia |].
  - exists p. replace (24 - dn) with 0 by lia. rewrite Z.pow_0_r, Z.mul_1_r.
    split; [|done].
    rewrite (binary_round_aux_exact p p 0 0); [done | | lia | rewrite Z.pow_0_r; lia | lia].
    replace (dn - 1) with 23 in Blo by lia. replace dn with 24 in Bhi by lia.
    change (2 ^ 23) with 8388608 in Blo. change (2 ^ 24) with 16777216 in Bhi. lia.
  - set (mz := Pos.iter xO p k).
    assert (Z.pos mz = Z.pos p * 2 ^ Z.pos k) as Hmz by apply iter_xO_pow.
    assert (Z.pos k = 24 - dn) as Hk by lia.
    exists mz. rewrite <- Hk. split; [|done].
    rewrite (binary_round_aux_exact mz mz 0 (Z.neg k));
      [f_equal; lia | | lia | rewrite Z.pow_0_r; lia | lia].
    rewrite Hmz, Hk.
    assert (8388608 = 2 ^ (dn - 1) * 2 ^ (24 - dn)) as ->
      by (rewrite <- Z.pow_add_r by lia; replace (dn - 1 + (24 - dn)) with 23 by lia; done).
    assert (16777216 = 2 ^ dn * 2 ^ (24 - dn)) as ->
      by (rewrite <- Z.pow_add_r by lia; replace (dn + (24 - dn)) with 24 by lia; done).
    assert (0 < 2 ^ (24 - dn)) by (apply Z.pow_pos_nonneg; lia).
    remember (2 ^ (24 - dn)) as a. remember (2 ^ (dn - 1)) as lo.
    remember (2 ^ dn) as hi. remember (Z.pos p) as P.
    clear - Blo Bhi H. nia.
Qed.

(** [(Size)(1.5f * n)] is [3 * n / 2], rounded down, as long as [3 * n]
    has at most 24 bits. *)
Lemma scale_one_and_a_half_exact `{Platform} n :
  0 <= n -> 3 * n < 16777216 -> 3 * n / 2 < Size_modulus ->
  Float32.scale Float32.one_and_a_half n = Some (3 * n / 2).
Proof.
  intros Hn H3 HM. destruct n as [|p|p]; [| |lia].
  { unfold Float32.scale. simpl. destruct (0 <? Size_modulus) eqn:E; [done|].
    apply Z.ltb_ge in E. change (3 * 0 / 2) with 0 in HM. lia. }
  destruct (of_Size_exact p ltac:(lia)) as (X & HX & HXv).
  unfold Float32.scale, Float32.mul. rewrite HX.
  unfold Float32.one_and_a_half, SFmul, Float32.prec, Float32.emax. cbn [xorb].
  pose proof (digits2_bounds p) as [Blo Bhi].
  set (dn := Z.pos (digits2_pos p)) in *.
  assert (0 < dn) as Hdn by (unfold dn; lia).
  (* the digits of 3 * n *)
  pose proof (digits2_bounds (3 * p)) as [Tlo Thi].
  set (D := Z.pos (digits2_pos (3 * p))) in *.
  assert (0 < D) as HD by (unfold D; lia).
  rewrite Pos2Z.inj_mul in Tlo, Thi. change (Z.pos 3) with 3 in Tlo, Thi.
  assert (D <= 24) as HD24.
  { destruct (Z.le_gt_cases D 24) as [|Hgt]; [done|]. exfalso.
    assert (2 ^ 24 <= 2 ^ (D - 1)) by (apply Z.pow_le_mono_r; lia).
    change (2 ^ 24) with 16777216 in *. lia. }
  assert (dn + 1 <= D) as HdD.
  { assert (dn - 1 < D - 1); [|lia]. apply (Z.pow_lt_mono_r_iff 2); [lia | lia |].
    assert (dn < D \/ D <= dn) as [|Hle] by lia.
    - apply Z.pow_lt_mono_r; lia.
    - exfalso. assert (2 ^ D <= 2 ^ dn) by (apply Z.pow_le_mono_r; lia).
      assert (2 ^ dn = 2 * 2 ^ (dn - 1)) as Hdbl.
      { rewrite <- Z.pow_succ_r by lia. f_equal. lia. }
      lia. }
  assert (0 < 2 ^ (24 - D)) as HpD by (apply Z.pow_pos_nonneg; lia).
  destruct (3 * Z.pos p * 2 ^ (24 - D)) as [|q|q] eqn:Eq; [lia | | lia].
  assert (8388608 <= Z.pos q < 16777216) as Hq.
  { rewrite <- Eq.
    assert (8388608 = 2 ^ (D - 1) * 2 ^ (24 - D)) as ->
      by (rewrite <- Z.pow_add_r by lia; replace (D - 1 + (24 - D)) with 23 by lia; done).
    assert (16777216 = 2 ^ D * 2 ^ (24 - D)) as ->
      by (rewrite <- Z.pow_add_r by lia; replace (D + (24 - D)) with 24 by lia; done).
    remember (2 ^ (24 - D)) as a. remember (2 ^ (D - 1)) as lo.
    remember (2 ^ D) as hi. remember (Z.pos p) as P.
    clear - Tlo Thi HpD. nia. }
  rewrite (binary_round_aux_exact q (12582912 * X) (22 - dn + D) (-23 + (dn - 24)));
    [| exact Hq | lia | | lia].
  - unfold Float32.to_Size.
    replace (-23 + (dn - 24) + (22 - dn + D)) with (- (25 - D)) by lia.
    rewrite Z.shiftl_div_pow2 by lia. rewrite Z.opp_involutive.
    rewrite <- Eq.
    replace (25 - D) with (24 - D + 1) by lia. rewrite Z.pow_add_r by lia.
    change (2 ^ 1) with 2.
    rewrite (Z.mul_comm (2 ^ (24 - D)) 2).
    rewrite Z.div_mul_cancel_r by lia.
    destruct (Z.ltb_spec (3 * Z.pos p / 2) Size_modulus); [done | lia].
  - rewrite Pos2Z.inj_mul, HXv, <- Eq.
    change (Z.pos 12582912) with (3 * 2 ^ 22).
    replace (22 - dn + D) with (22 + (24 - dn) - (24 - D)) by lia.
    assert (2 ^ 22 * 2 ^ (24 - dn) = 2 ^ (24 - D) * 2 ^ (22 + (24 - dn) - (24 - D))) as Hpow.
    { rewrite <- !Z.pow_add_r by lia. f_equal. lia. }
    remember (2 ^ 22) as a. remember (2 ^ (24 - dn)) as b.
    remember (2 ^ (24 - D)) as c. remember (2 ^ (22 + (24 - dn) - (24 - D))) as d.
    remember (Z.pos p) as P.
    replace (3 * a * (P * b)) with (3 * P * (a * b)) by ring.
    rewrite Hpow. ring.
Qed.


Lemma scaled_mantissa_range (p : positive) (x : Z) :
  Z.pos p < 16777216 ->
  x = Z.pos p * 2 ^ (24 - Z.pos (digits2_pos p)) ->
  8388608 <= x < 16777216.
Proof.
  intros Hp ->. pose proof (digits2_bounds p) as [Blo Bhi].
  set (dn := Z.pos (digits2_pos p)) in *.
  assert (0 < dn) as Hdn by (unfold dn; lia).
  assert (dn <= 24) as Hd24.
  { destruct (Z.le_gt_cases dn 24) as [|Hgt]; [done|]. exfalso.
    assert (2 ^ 24 <= 2 ^ (dn - 1)) by (apply Z.pow_le_mono_r; lia).
    change (2 ^ 24) with 16777216 in *. lia. }
  assert (8388608 = 2 ^ (dn - 1) * 2 ^ (24 - dn)) as ->
    by (rewrite <- Z.pow_add_r by lia; replace (dn - 1 + (24 - dn)) with 23 by lia; done).
  assert (16777216 = 2 ^ dn * 2 ^ (24 - dn)) as ->
    by (rewrite <- Z.pow_add_r by lia; replace (dn + (24 - dn)) with 24 by lia; done).
  assert (0 < 2 ^ (24 - dn)) by (apply Z.pow_pos_nonneg; lia).
  remember (2 ^ (24 - dn)) as a. remember (2 ^ (dn - 1)) as lo.
  remember (2 ^ dn) as hi. remember (Z.pos p) as P.
  clear - Blo Bhi H. nia.
Qed.

(** [(Size)(1.0f * n)] is [n] as long as [n] has at most 24 bits. *)
Lemma scale_one_exact `{Platform} n :
  0 <= n < 16777216 -> n < Size_modulus ->
  Float32.scale Float32.one n = Some n.
Proof.
  intros Hn HM. destruct n as [|p|p]; [| |lia].
  { unfold Float32.scale. simpl. destruct (Z.ltb_spec 0 Size_modulus); [done | lia]. }
  destruct (of_Size_exact p ltac:(lia)) as (X & HX & HXv).
  pose proof (scaled_mantissa_range p (Z.pos X) ltac:(lia) HXv) as HXr.
  pose proof (digits2_bounds p) as [Blo Bhi].
  set (dn := Z.pos (digits2_pos p)) in *.
  assert (0 < dn) as Hdn by (unfold dn; lia).
  assert (dn <= 24) as Hd24.
  { destruct (Z.le_gt_cases dn 24) as [|Hgt]; [done|]. exfalso.
    assert (2 ^ 24 <= 2 ^ (dn - 1)) by (apply Z.pow_le_mono_r; lia).
    change (2 ^ 24) with 16777216 in *. lia. }
  unfold Float32.scale, Float32.mul. rewrite HX.
  unfold Float32.one, SFmul, Float32.prec, Float32.emax. cbn [xorb].
  rewrite (binary_round_aux_exact X (8388608 * X) 23 (-23 + (dn - 24)));
    [| exact HXr | lia | | lia].
  - unfold Float32.to_Size.
    replace (-23 + (dn - 24) + 23) with (- (24 - dn)) by lia.
    rewrite Z.shiftl_div_pow2 by lia. rewrite Z.opp_involutive, HXv.
    rewrite Z.div_mul by (apply Z.pow_nonzero; lia).
    destruct (Z.ltb_spec (Z.pos p) Size_modulus); [done | lia].
  - rewrite Pos2Z.inj_mul. change (Z.pos 8388608) with (2 ^ 23). lia.
Qed.

(** ** A capacity below the count *)

Section Short.
Context `{Platform} {T : Type} `{Element T}.

(** A block that is reserved for fewer elements than are constructed. *)
Lemma Future_allocate_short init n ok cap (this : FutureAllocator) (w : World T) st' :
  Float32.scale (multiplier this) n = Some cap -> cap < n ->
  Future.allocate init n ok (this, w) <> Returns st'.
Proof.
  intros Hscale Hlt Ha. pose proof (scale_range _ _ _ Hscale) as Hcap.
  apply Future_allocate_inv in Ha as (cap0 & Hs & [[-> _] | (_ & _ & w2 & Hl & _)]);
    [lia|].
  rewrite Hscale in Hs. injection Hs as <-.
  eapply construct_loop_fits in Hl; [| by simpl; rewrite lookup_insert_eq | lia].
  simpl in Hl.
  assert (size_mul cap (Z.pos sizeof_T) <= cap * Z.pos sizeof_T)
    by (apply size_mul_le; lia).
  rewrite Z.add_0_l, Z2Nat.id in Hl by lia. nia.
Qed.

Lemma Future_allocate_true_not_thrown init n (st st' : FutureAllocator * World T) :
  Future.allocate init n true st <> Throws st'.
Proof.
  destruct st as [this w]. unfold Future.allocate, malloc.
  destruct (Float32.scale _ _); [|done].
  destruct (n =? 0); [done|].
  match goal with |- context [match ?x with Some _ => _ | None => _ end] =>
    destruct x end; done.
Qed.

Lemma Future_allocate_short_undefined init n cap (this : FutureAllocator) (w : World T) :
  Float32.scale (multiplier this) n = Some cap -> cap < n ->
  Future.allocate init n true (this, w) = Undefined.
Proof.
  intros Hscale Hlt.
  destruct (Future.allocate init n true (this, w)) as [st'|st'|msg|] eqn:E; [| | |done].
  - by eapply Future_allocate_short in E.
  - by apply Future_allocate_true_not_thrown in E.
  - by apply Future_allocate_not_halted in E.
Qed.
End Short.

(** ** Calls within the contract always return *)

Section Contract.
Context `{Platform} {T : Type} `{Element T}.
Implicit Types (w : World T) (vs : list T).

Lemma Std_step_in_contract (op : Op T) ops c' (this : StdAllocator) w vs :
  holds this w vs -> is_Size (Z.of_nat (length vs)) ->
  in_contract (op :: ops) (Z.of_nat (length vs)) = Some c' ->
  exists this1 w1 vs1,
    step op (this, w) = Returns (this1, w1) /\ holds this1 w1 vs1 /\
    is_Size (Z.of_nat (length vs1)) /\
    in_contract ops (Z.of_nat (length vs1)) = Some c'.
Proof.
  intros Hh HM Hin. pose proof Hh as [Hc _]. pose proof HM as HM'.
  unfold is_Size in HM'.
  destruct op as [| k [|] | k | c [|] |]; simpl in Hin; try done.
  - destruct (Z.leb_spec 0 k) as [Hk|]; [|done].
    destruct (Z.ltb_spec ((Z.of_nat (length vs) + k) * Z.pos sizeof_T) Size_modulus)
      as [Hfit|]; [|done]. simpl in Hin.
    destruct (Std_grow_returns k this w vs Hh Hk) as [[this1 w1] Hg].
    { by rewrite Hc. }
    pose proof (Std_grow_holds _ _ _ _ _ _ _ Hh Hg) as (Hh1 & _ & Hc1 & _).
    rewrite Hc, size_add_exact in Hc1 by nia.
    exists this1, w1. eexists. split; [exact Hg|]. split; [exact Hh1|].
    destruct Hh1 as [Hl1 _]. rewrite <- Hl1, Hc1. split; [unfold is_Size; nia | done].
  - destruct (Z.leb_spec 0 k) as [Hk|]; [|done].
    destruct (Z.leb_spec k (Z.of_nat (length vs))) as [Hk'|]; [|done]. simpl in Hin.
    destruct (Std_shrink_tail k this w vs ltac:(lia) HM Hh)
      as (this1 & w1 & Hs & Hh1 & Hc1 & _).
    exists this1, w1. eexists. split; [exact Hs|]. split; [exact Hh1|].
    destruct Hh1 as [Hl1 _]. rewrite <- Hl1, Hc1, Hc.
    split; [unfold is_Size; lia | done].
  - destruct (Z.leb_spec 0 c) as [H0c|]; [|done].
    destruct (Z.ltb_spec (c * Z.pos sizeof_T) Size_modulus) as [Hfit|]; [|done].
    simpl in Hin.
    assert (is_Size c) as Hsc by (unfold is_Size; nia).
    assert (is_Size (_count this)) as Hsn by (by rewrite Hc).
    destruct (Std_resize_returns c this w vs Hsc Hfit Hsn Hh) as [[this1 w1] Hr].
    pose proof (Std_resize_holds _ _ _ _ _ _ _ Hsc Hsn Hh Hr) as Hh1.
    destruct (resized_buffer _ _ _ _ _ _ Hsc Hh Hh1) as (Hc1 & _).
    exists this1, w1. eexists. split; [exact Hr|]. split; [exact Hh1|].
    destruct Hh1 as [Hl1 _]. rewrite <- Hl1, Hc1. by split.
Qed.

Lemma Std_run_in_contract ops c' (this : StdAllocator) w vs :
  holds this w vs -> is_Size (Z.of_nat (length vs)) ->
  in_contract ops (Z.of_nat (length vs)) = Some c' ->
  exists this' w' vs',
    run ops (this, w) = Returns (this', w') /\ holds this' w' vs' /\
    Z.of_nat (length vs') = c'.
Proof.
  revert this w vs. induction ops as [|op ops IH]; intros this w vs Hh HM Hin.
  - simpl in Hin. injection Hin as <-. exists this, w, vs. split; [done|]. by split.
  - destruct (Std_step_in_contract op ops c' this w vs Hh HM Hin)
      as (this1 & w1 & vs1 & Hs & Hh1 & HM1 & Hin1).
    destruct (IH this1 w1 vs1 Hh1 HM1 Hin1) as (this' & w' & vs' & Hr & Hh' & Hl).
    exists this', w', vs'. split; [|by split]. cbn [run]. by rewrite Hs.
Qed.
End Contract.

Section AmortizedContract.
Context `{Platform} {T : Type} `{Element T}.
Implicit Types (w : World T) (vs : list T).

Lemma Future_grow_in_contract k n ops (c' cap' : Z) (this : FutureAllocator) w vs :
  holds (base this) w vs -> roomy (base this) w ->
  multiplier this = Float32.one_and_a_half ->
  _cap (base this) * Z.pos sizeof_T < Size_modulus ->
  0 <= k -> n = Z.of_nat (length vs) + k ->
  (if _cap (base this) <? n then
     if (3 * n <? 16777216) && (3 * n / 2 * Z.pos sizeof_T <? Size_modulus)
     then in_contract_amortized ops n (3 * n / 2) else None
   else in_contract_amortized ops n (_cap (base this))) = Some (c', cap') ->
  exists this1 w1 vs1,
    Future._grow k true (this, w) = Returns (this1, w1) /\
    holds (base this1) w1 vs1 /\ roomy (base this1) w1 /\
    multiplier this1 = Float32.one_and_a_half /\
    _cap (base this1) * Z.pos sizeof_T < Size_modulus /\
    in_contract_amortized ops (Z.of_nat (length vs1)) (_cap (base this1)) = Some (c', cap').
Proof.
  intros Hh Hroomy Hm Hcapfit Hk -> Hin. pose proof Hh as [Hc _].
  set (n := Z.of_nat (length vs) + k) in *.
  assert (Hpos : 0 < Z.pos (sizeof_T (T:=T))) by lia.
  destruct (Z.ltb_spec (_cap (base this)) n) as [Hlt|Hge].
  - destruct (Z.ltb_spec (3 * n) 16777216) as [H3|]; [|done].
    destruct (Z.ltb_spec (3 * n / 2 * Z.pos sizeof_T) Size_modulus) as [Hfit|]; [|done].
    simpl in Hin.
    assert (n <= 3 * n / 2) as Hle by (apply Z.div_le_lower_bound; lia).
    assert (3 * n / 2 < Size_modulus) as HM by nia.
    destruct (Future_grow_step k this w vs (3 * n / 2) Hh Hroomy Hk)
      as (this1 & w1 & Hg & Hh1 & Hr1 & Hm1 & Hc1 & Hcap1 & _).
    { rewrite Hc. fold n. lia. }
    { rewrite Hc. fold n. destruct (Z.ltb_spec (_cap (base this)) n); [|lia].
      split; [|by split]. rewrite Hm. apply scale_one_and_a_half_exact; lia. }
    exists this1, w1. eexists. split; [exact Hg|]. split; [exact Hh1|].
    split; [exact Hr1|]. split; [congruence|]. rewrite Hcap1. split; [exact Hfit|].
    destruct Hh1 as [Hl1 _]. rewrite <- Hl1, Hc1, Hc. exact Hin.
  - destruct (Future_grow_step k this w vs (_cap (base this)) Hh Hroomy Hk)
      as (this1 & w1 & Hg & Hh1 & Hr1 & Hm1 & Hc1 & Hcap1 & _).
    { rewrite Hc. fold n. nia. }
    { rewrite Hc. fold n. destruct (Z.ltb_spec (_cap (base this)) n); [lia|]. by split. }
    exists this1, w1. eexists. split; [exact Hg|]. split; [exact Hh1|].
    split; [exact Hr1|]. split; [congruence|]. rewrite Hcap1. split; [exact Hcapfit|].
    destruct Hh1 as [Hl1 _]. rewrite <- Hl1, Hc1, Hc. exact Hin.
Qed.

Lemma Future_shrink_in_contract k ops (c' cap' : Z) (this : FutureAllocator) w vs :
  holds (base this) w vs -> roomy (base this) w ->
  is_Size (Z.of_nat (length vs)) -> 0 <= k <= Z.of_nat (length vs) ->
  in_contract_amortized ops (Z.of_nat (length vs) - k) (_cap (base this)) = Some (c', cap') ->
  exists this1 w1 vs1,
    Future._shrink k (this, w) = Returns (this1, w1) /\
    holds (base this1) w1 vs1 /\ roomy (base this1) w1 /\
    multiplier this1 = multiplier this /\
    _cap (base this1) = _cap (base this) /\
    in_contract_amortized ops (Z.of_nat (length vs1)) (_cap (base this1)) = Some (c', cap').
Proof.
  intros Hh Hroomy HM Hk Hin. pose proof Hh as [Hc _].
  destruct (Std_shrink_tail k (base this) w vs Hk HM Hh)
    as (b1 & w1 & Hs & Hh1 & Hc1 & Hcap1 & Hp1 & _ & Hbytes).
  exists (Future.with_base this b1), w1. eexists. split.
  { unfold Future._shrink, Future.inherited. cbn [fst snd]. by rewrite Hs. }
  cbn [base Future.with_base multiplier]. split; [exact Hh1|]. split.
  { unfold roomy in *. rewrite Hp1, Hcap1.
    destruct (__ptr (base this)) as [| |b] eqn:Hp; [done | done |].
    intros blk1 Hb1.
    destruct (holds_cases _ _ _ Hh) as [(Hnull & _) | (b0 & blk0 & Hp0 & Hb0 & _)];
      [congruence|].
    assert (b0 = b) as -> by congruence.
    destruct (Hbytes _ _ Hb0) as (blk' & Hb' & Hsame).
    assert (blk' = blk1) as -> by congruence.
    rewrite Hsame. by apply Hroomy. }
  split; [done|]. split; [exact Hcap1|].
  destruct Hh1 as [Hl1 _]. rewrite <- Hl1, Hc1, Hc, Hcap1. exact Hin.
Qed.

Lemma Future_step_in_contract (op : Op T) ops (c' cap' : Z) (this : FutureAllocator) w vs :
  holds (base this) w vs -> roomy (base this) w ->
  multiplier this = Float32.one_and_a_half ->
  _cap (base this) * Z.pos sizeof_T < Size_modulus ->
  is_Size (Z.of_nat (length vs)) ->
  in_contract_amortized (op :: ops) (Z.of_nat (length vs)) (_cap (base this))
    = Some (c', cap') ->
  exists this1 w1 vs1,
    step op (this, w) = Returns (this1, w1) /\
    holds (base this1) w1 vs1 /\ roomy (base this1) w1 /\
    multiplier this1 = Float32.one_and_a_half /\
    _cap (base this1) * Z.pos sizeof_T < Size_modulus /\
    is_Size (Z.of_nat (length vs1)) /\
    in_contract_amortized ops (Z.of_nat (length vs1)) (_cap (base this1)) = Some (c', cap').
Proof.
  intros Hh Hroomy Hm Hcapfit HM Hin. pose proof Hh as [Hc _].
  pose proof HM as HM'. unfold is_Size in HM'.
  assert (Hpos : 0 < Z.pos (sizeof_T (T:=T))) by lia.
  assert (Hsized : forall (b1 : StdAllocator) w1 vs1,
            holds b1 w1 vs1 -> _cap b1 * Z.pos sizeof_T < Size_modulus ->
            Z.of_nat (length vs1) <= _cap b1 \/ Z.of_nat (length vs1) <= Z.of_nat (length vs) ->
            is_Size (Z.of_nat (length vs1))) by (intros; unfold is_Size; nia).
  destruct op as [| k [|] | k | c [|] |]; cbn [in_contract_amortized] in Hin; try done.
  - destruct (Z.leb_spec 0 k) as [Hk|]; [|done].
    destruct (Future_grow_in_contract k _ ops c' cap' this w vs Hh Hroomy Hm Hcapfit Hk
                eq_refl Hin) as (this1 & w1 & vs1 & Hg & Hh1 & Hr1 & Hm1 & Hf1 & Hin1).
    exists this1, w1, vs1. split; [exact Hg|]. repeat (split; [done|]). split; [|done].
    pose proof (Future_grow_holds _ _ _ _ _ _ _ Hh Hg) as (Hh1' & Hc1 & _).
    cbv zeta in Hc1. rewrite Hc, size_add_exact in Hc1.
    + destruct Hh1 as [Hl1 _]. rewrite <- Hl1, Hc1. unfold is_Size.
      destruct (Z.ltb_spec (_cap (base this)) (Z.of_nat (length vs) + k)) as [Hlt|Hge].
      * destruct (Z.ltb_spec (3 * (Z.of_nat (length vs) + k)) 16777216); [|done].
        destruct (Z.ltb_spec (3 * (Z.of_nat (length vs) + k) / 2 * Z.pos sizeof_T)
                    Size_modulus); [|done].
        assert (Z.of_nat (length vs) + k <= 3 * (Z.of_nat (length vs) + k) / 2)
          by (apply Z.div_le_lower_bound; lia).
        nia.
      * nia.
    + lia.
    + lia.
    + destruct (Z.ltb_spec (_cap (base this)) (Z.of_nat (length vs) + k)) as [Hlt|Hge].
      * destruct (Z.ltb_spec (3 * (Z.of_nat (length vs) + k)) 16777216); [|done].
        destruct (Z.ltb_spec (3 * (Z.of_nat (length vs) + k) / 2 * Z.pos sizeof_T)
                    Size_modulus); [|done].
        assert (Z.of_nat (length vs) + k <= 3 * (Z.of_nat (length vs) + k) / 2)
          by (apply Z.div_le_lower_bound; lia).
        nia.
      * nia.
  - destruct (Z.leb_spec 0 k) as [Hk|]; [|done].
    destruct (Z.leb_spec k (Z.of_nat (length vs))) as [Hk'|]; [|done]. simpl in Hin.
    destruct (Future_shrink_in_contract k ops c' cap' this w vs Hh Hroomy HM
                ltac:(lia) Hin) as (this1 & w1 & vs1 & Hs & Hh1 & Hr1 & Hm1 & Hcap1 & Hin1).
    exists this1, w1, vs1. split; [exact Hs|]. split; [done|]. split; [done|].
    split; [congruence|]. split; [by rewrite Hcap1|]. split; [|done].
    pose proof (Future_shrink_holds _ _ _ _ _ _ Hh Hs) as (_ & Hc1 & _).
    destruct Hh1 as [Hl1 _]. rewrite <- Hl1, Hc1, Hc. unfold is_Size.
    pose proof (size_sub_range (Z.of_nat (length vs)) k). lia.
  - destruct (Z.leb_spec 0 c) as [H0c|]; [|done].
    cbn [step]. unfold resize, grow, shrink.
    cbn [fst count FutureAllocator_Allocator _grow _shrink].
    unfold Future.count, Std.count. rewrite Hc.
    destruct (Z.ltb_spec (Z.of_nat (length vs)) c) as [Hlt|Hge].
    + assert (Hcsz : c < Size_modulus).
      { destruct (Z.ltb_spec (_cap (base this)) c) as [Hlt'|Hge'].
        * destruct (Z.ltb_spec (3 * c) 16777216); [|done].
          destruct (Z.ltb_spec (3 * c / 2 * Z.pos sizeof_T) Size_modulus); [|done].
          assert (c <= 3 * c / 2) by (apply Z.div_le_lower_bound; lia). nia.
        * nia. }
      rewrite size_sub_exact by (unfold is_Size; lia).
      destruct (Future_grow_in_contract (c - Z.of_nat (length vs)) c ops c' cap'
                  this w vs Hh Hroomy Hm Hcapfit ltac:(lia) ltac:(lia) Hin)
        as (this1 & w1 & vs1 & Hg & Hh1 & Hr1 & Hm1 & Hf1 & Hin1).
      exists this1, w1, vs1. split; [exact Hg|]. repeat (split; [done|]). split; [|done].
      pose proof (Future_grow_holds _ _ _ _ _ _ _ Hh Hg) as (_ & Hc1 & _).
      cbv zeta in Hc1. rewrite Hc, size_add_exact in Hc1 by lia.
      destruct Hh1 as [Hl1 _]. rewrite <- Hl1, Hc1. unfold is_Size. lia.
    + destruct (Z.ltb_spec c (Z.of_nat (length vs))) as [Hlt'|Hge'].
      * rewrite size_sub_exact by (done || lia).
        replace c with (Z.of_nat (length vs) - (Z.of_nat (length vs) - c)) in Hin at 1
          by lia.
        destruct (Future_shrink_in_contract (Z.of_nat (length vs) - c) ops c' cap'
                    this w vs Hh Hroomy HM ltac:(lia) Hin)
          as (this1 & w1 & vs1 & Hs & Hh1 & Hr1 & Hm1 & Hcap1 & Hin1).
        exists this1, w1, vs1. split; [exact Hs|]. split; [done|]. split; [done|].
        split; [congruence|]. split; [by rewrite Hcap1|]. split; [|done].
        pose proof (Future_shrink_holds _ _ _ _ _ _ Hh Hs) as (_ & Hc1 & _).
        destruct Hh1 as [Hl1 _]. rewrite <- Hl1, Hc1, Hc. unfold is_Size.
        pose proof (size_sub_range (Z.of_nat (length vs)) (Z.of_nat (length vs) - c)). lia.
      * assert (c = Z.of_nat (length vs)) as -> by lia.
        exists this, w, vs. by repeat (split; [done|]).
Qed.

Lemma Future_run_in_contract ops (c' cap' : Z) (this : FutureAllocator) w vs :
  holds (base this) w vs -> roomy (base this) w ->
  multiplier this = Float32.one_and_a_half ->
  _cap (base this) * Z.pos sizeof_T < Size_modulus ->
  is_Size (Z.of_nat (length vs)) ->
  in_contract_amortized ops (Z.of_nat (length vs)) (_cap (base this)) = Some (c', cap') ->
  exists this' w' vs',
    run ops (this, w) = Returns (this', w') /\ holds (base this') w' vs' /\
    Z.of_nat (length vs') = c' /\ _cap (base this') = cap'.
Proof.
  revert this w vs. induction ops as [|op ops IH];
    intros this w vs Hh Hroomy Hm Hfit HM Hin.
  - simpl in Hin. injection Hin as <- <-. exists this, w, vs. split; [done|]. by split.
  - destruct (Future_step_in_contract op ops c' cap' this w vs Hh Hroomy Hm Hfit HM Hin)
      as (this1 & w1 & vs1 & Hs & Hh1 & Hr1 & Hm1 & Hf1 & HM1 & Hin1).
    destruct (IH this1 w1 vs1 Hh1 Hr1 Hm1 Hf1 HM1 Hin1)
      as (this' & w' & vs' & Hr & Hh' & Hl).
    exists this', w', vs'. split; [|done]. cbn [run]. by rewrite Hs.
Qed.
End AmortizedContract.

(** * Further properties *)

(** X1. [resize(c)] on a buffer that holds [n] elements, when it returns,
    leaves [count() == c]: the elements below [min(n, c)] are the ones held
    before, the elements at [n .. c-1] equal [T()], and no element is
    readable at [c] or beyond.  In both strategies.  In the exact-fit
    strategy the call returns whenever the heap obliges and
    [c * sizeof(T)] is a [Size]. *)
Theorem resize_sets_the_count `{Platform} {T : Type} `{Element T}
    (c : Z) (vs : list T) :
  is_Size c -> is_Size (Z.of_nat (length vs)) ->
  (forall ok (this : StdAllocator) (w : World T) st',
     holds this w vs -> resize c ok (this, w) = Returns st' ->
     count (fst st') = c /\
     (forall i, 0 <= i < Z.min (Z.of_nat (length vs)) c ->
        at_index i st' = at_index i (this, w) /\ is_Some (at_index i st')) /\
     (forall i, Z.of_nat (length vs) <= i < c -> at_index i st' = Some T_default) /\
     (forall i, c <= i -> at_index i st' = None)) /\
  (forall ok (this : FutureAllocator) (w : World T) st',
     holds (base this) w vs -> resize c ok (this, w) = Returns st' ->
     count (fst st') = c /\
     (forall i, 0 <= i < Z.min (Z.of_nat (length vs)) c ->
        at_index i st' = at_index i (this, w) /\ is_Some (at_index i st')) /\
     (forall i, Z.of_nat (length vs) <= i < c -> at_index i st' = Some T_default) /\
     (forall i, c <= i -> at_index i st' = None)) /\
  (forall (this : StdAllocator) (w : World T),
     holds this w vs -> c * Z.pos sizeof_T < Size_modulus ->
     exists st', resize c true (this, w) = Returns st').
Proof.
  intros Hc Hn. split; [|split].
  - intros ok this w [this' w'] Hh Hr.
    assert (Hn' : is_Size (_count this)) by (destruct Hh as [-> _]; exact Hn).
    apply (Std_resize_holds _ _ _ _ _ _ _ Hc Hn' Hh) in Hr.
    exact (resized_buffer _ _ _ _ _ _ Hc Hh Hr).
  - intros ok this w [this' w'] Hh Hr.
    assert (Hn' : is_Size (_count (base this))) by (destruct Hh as [-> _]; exact Hn).
    apply (Future_resize_holds _ _ _ _ _ _ _ Hc Hn' Hh) in Hr.
    exact (resized_buffer _ _ _ _ _ _ Hc Hh Hr).
  - intros this w Hh Hfit. eapply Std_resize_returns; eauto.
    destruct Hh as [-> _]; exact Hn.
Qed.

(** X1 on running code.  [resize(5)] on the exact-fit buffer [three_ints]. *)
Lemma resize_sets_the_count_witness :
  (is_Size (H:=debug64) 5 /\ is_Size (H:=debug64) (Z.of_nat (length [0; 0; 0]))) /\
  holds (fst three_ints) (snd three_ints) [0; 0; 0] /\
  exists st',
    resize (H:=debug64) (H0:=int_Element) 5 true three_ints = Returns st' /\
    _count (fst st') = 5 /\
    at_index (H:=debug64) (H0:=int_Element) 4 st' = Some 0.
Proof.
  assert (is_Size (H:=debug64) 5) as H5 by (by vm_compute).
  assert (is_Size (H:=debug64) (Z.of_nat (length [0; 0; 0]))) as H3 by (by vm_compute).
  assert (holds (fst three_ints) (snd three_ints) [0; 0; 0]) as Hh.
  { split; [done|]. simpl. eexists. split; [reflexivity|]. by vm_compute. }
  destruct (resize_sets_the_count (H:=debug64) (H0:=int_Element) 5 [0; 0; 0] H5 H3)
    as (Hstd & _ & Hret).
  destruct (Hret (fst three_ints) (snd three_ints) Hh ltac:(by vm_compute)) as [st' Hr].
  destruct (Hstd true (fst three_ints) (snd three_ints) st' Hh Hr) as (Hc & _ & Hd & _).
  split; [by split|]. split; [exact Hh|].
  exists st'. split; [exact Hr|]. split; [exact Hc|].
  apply (Hd 4). simpl. lia.
Defined.

(** X2. [shrink(d)] with [d] greater than [count()], or [d == 0], returns
    with the object and the heap exactly as they were: [count - d] wraps
    around to a value above [count], the loop body never runs, nothing is
    destructed and no error is raised.  In both strategies. *)
Theorem shrink_beyond_count_changes_nothing `{Platform} {T : Type} `{Element T}
    (d : Z) :
  (forall (this : StdAllocator) (w : World T),
     is_Size (count this) -> d = 0 \/ count this < d < Size_modulus ->
     shrink d (this, w) = Returns (this, w)) /\
  (forall (this : FutureAllocator) (w : World T),
     is_Size (count this) -> d = 0 \/ count this < d < Size_modulus ->
     shrink d (this, w) = Returns (this, w)).
Proof.
  split.
  - intros this w Hc Hd. by apply Std_shrink_nothing.
  - intros this w Hc Hd.
    change (Future._shrink d (this, w) = Returns (this, w)).
    unfold Future._shrink, Future.inherited. cbn [fst snd].
    rewrite Std_shrink_nothing by done. simpl. by destruct this.
Qed.

(** X2 on running code.  [shrink(5)] on the three elements of [three_ints]. *)
Lemma shrink_beyond_count_changes_nothing_witness :
  (is_Size (H:=debug64) (_count (fst three_ints)) /\
   (5 = 0 \/ _count (fst three_ints) < 5 < Size_modulus (H:=debug64))) /\
  shrink (H:=debug64) (H0:=int_Element) 5 three_ints = Returns three_ints.
Proof.
  assert (is_Size (H:=debug64) (_count (fst three_ints))) as Hc by (by vm_compute).
  assert (5 = 0 \/ _count (fst three_ints) < 5 < Size_modulus (H:=debug64)) as Hd
    by (right; by vm_compute).
  split; [by split|].
  exact (proj1 (shrink_beyond_count_changes_nothing (H:=debug64) (H0:=int_Element) 5)
           (fst three_ints) (snd three_ints) Hc Hd).
Defined.

(** X3. In the exact-fit strategy, [grow(k)] with [count + k] beyond the
    largest [Size] never returns.  The wrapped size is below [count], so
    the block requested is too small for the [count] elements copied into
    it: the call has no defined behaviour when [malloc] succeeds, and
    throws with the state untouched when it fails. *)
Theorem exact_fit_grow_past_the_largest_Size `{Platform} {T : Type} `{Element T}
    (k : Z) (this : StdAllocator) (w : World T) :
  is_Size (_count this) -> is_Size k -> Size_modulus <= _count this + k ->
  Std._grow k true (this, w) = Undefined /\
  Std._grow k false (this, w) = Throws (this, w) /\
  forall ok st', Std._grow k ok (this, w) <> Returns st'.
Proof.
  intros Hc Hk Hw.
  assert (Hno : forall ok st', Std._grow k ok (this, w) <> Returns st').
  { intros ok [this' w'] Hg. apply Std_grow_count in Hg.
    unfold is_Size in *. unfold size_add in Hg.
    rewrite <- (Z.mod_add _ (-1) Size_modulus) in Hg by lia.
    rewrite Z.mod_small in Hg; lia. }
  split; [|split; [|exact Hno]].
  - destruct (Std._grow k true (this, w)) as [st'|st'|msg|] eqn:E; [| | |done].
    + by apply Hno in E.
    + by apply Std_grow_true_not_thrown in E.
    + by apply Std_grow_not_halted in E.
  - unfold Std._grow. by rewrite malloc_fail.
Qed.

(** X3 on running code.  [grow(2^64 - 1)] on [three_ints], 64-bit [Size]. *)
Lemma exact_fit_grow_past_the_largest_Size_witness :
  (is_Size (H:=release64) (_count (fst three_ints)) /\
   is_Size (H:=release64) 18446744073709551615 /\
   Size_modulus (H:=release64) <= _count (fst three_ints) + 18446744073709551615) /\
  Std._grow (H:=release64) (H0:=int_Element) 18446744073709551615 true three_ints
    = Undefined.
Proof.
  assert (is_Size (H:=release64) (_count (fst three_ints))) as Hc by (by vm_compute).
  assert (is_Size (H:=release64) 18446744073709551615) as Hk by (by vm_compute).
  assert (Size_modulus (H:=release64) <= _count (fst three_ints) + 18446744073709551615)
    as Hw by (by vm_compute).
  split; [by repeat split|].
  exact (proj1 (exact_fit_grow_past_the_largest_Size (H:=release64) (H0:=int_Element)
                  18446744073709551615 (fst three_ints) (snd three_ints) Hc Hk Hw)).
Defined.

(** X4. A life of a buffer leaves nothing behind.  After [allocate(n)]
    on a fresh allocator, any sequence of [grow], [shrink] and [resize],
    and a final [free], all returning, the heap holds no block and every
    object that was constructed has been destructed (the trace has as many
    destructor calls as constructor calls).  In both strategies. *)
Theorem nothing_is_left_after_free `{Platform} {T : Type} `{Element T}
    (init : Init T) (n : Z) (ok : bool)
    (ops : list (Op T)) :
  0 <= n -> forallb resizing ops = true ->
  (forall st' : StdAllocator * World T,
     run (OpAllocate init n ok :: ops ++ [OpFree]) (Std.new, empty_world)
       = Returns st' ->
     heap (snd st') = ∅ /\
     length (constructed (trace (snd st'))) = length (destructed (trace (snd st')))) /\
  (forall m (st' : FutureAllocator * World T),
     run (OpAllocate init n ok :: ops ++ [OpFree])
       ({| base := Std.new; multiplier := m |}, empty_world) = Returns st' ->
     heap (snd st') = ∅ /\
     length (constructed (trace (snd st'))) = length (destructed (trace (snd st')))).
Proof.
  intros Hn Hops. split.
  - intros st'. cbn [run step].
    change (@allocate _ T _ StdAllocator _) with (@Std.allocate _ T _).
    destruct (Std.allocate init n ok (Std.new, empty_world)) as [[this1 w1]| | |] eqn:E;
      try done.
    destruct (Std_allocate_tidy _ _ _ _ _ Hn E) as [vs Ht].
    eapply Std_run_tidy; eauto.
  - intros m st'. cbn [run step].
    change (@allocate _ T _ FutureAllocator _) with (@Future.allocate _ T _).
    destruct (Future.allocate init n ok _) as [[this1 w1]| | |] eqn:E; try done.
    destruct (Future_allocate_tidy _ _ _ _ _ _ Hn E) as [vs Ht].
    eapply Future_run_tidy; eauto.
Qed.

(** X4 on running code.  [allocate(3)], [grow(2)], [shrink(1)], [resize(7)], [free], in both
    strategies: fifteen constructions, fifteen destructions. *)
Lemma nothing_is_left_after_free_witness :
  (0 <= 3 /\ forallb resizing some_resizing = true) /\
  run (H:=debug64) (H0:=int_Element)
    (OpAllocate Init_default 3 true :: some_resizing ++ [OpFree]) fresh_std
    = Returns released_std /\
  run (H:=debug64) (H0:=int_Element)
    (OpAllocate Init_default 3 true :: some_resizing ++ [OpFree]) fresh_future
    = Returns released_future /\
  heap (snd released_std) = ∅ /\ heap (snd released_future) = ∅ /\
  length (constructed (trace (snd released_std))) = 15%nat /\
  length (destructed (trace (snd released_std))) = 15%nat.
Proof.
  assert (run (H:=debug64) (H0:=int_Element)
            (OpAllocate Init_default 3 true :: some_resizing ++ [OpFree]) fresh_std
          = Returns released_std) as R1 by (by vm_compute).
  assert (run (H:=debug64) (H0:=int_Element)
            (OpAllocate Init_default 3 true :: some_resizing ++ [OpFree]) fresh_future
          = Returns released_future) as R2 by (by vm_compute).
  destruct (nothing_is_left_after_free (H:=debug64) (H0:=int_Element)
              Init_default 3 true some_resizing ltac:(lia) eq_refl) as [Hstd Hfut].
  destruct (Hstd _ R1) as [E1 B1]. destruct (Hfut _ _ R2) as [E2 _].
  split; [by split|]. split; [exact R1|]. split; [exact R2|].
  split; [exact E1|]. split; [exact E2|]. split; [by vm_compute|].
  rewrite <- B1. by vm_compute.
Defined.

(** X5. [allocate] never releases or destructs anything.  Every block
    that is on the heap before the call is there afterwards with the same
    contents, the pointer the object then holds is none of them, and the
    call makes no destructor call: the elements a buffer held before a
    second [allocate] are still alive in their block, which the object no
    longer points to.  In both strategies. *)
Theorem allocate_releases_nothing `{Platform} {T : Type} `{Element T}
    (init : Init T) (n : Z) (ok : bool) :
  (forall (this : StdAllocator) w st',
     allocate init n ok (this, w) = Returns st' ->
     (forall b blk, heap w !! b = Some blk ->
        heap (snd st') !! b = Some blk /\ ptr (fst st') <> Blk b) /\
     (forall vs, holds this w vs -> holds this (snd st') vs) /\
     extends w (snd st') (Zseq 0 (Z.to_nat n)) [] (if n =? 0 then 0 else 1)) /\
  (forall (this : FutureAllocator) w st',
     allocate init n ok (this, w) = Returns st' ->
     (forall b blk, heap w !! b = Some blk ->
        heap (snd st') !! b = Some blk /\ ptr (fst st') <> Blk b) /\
     (forall vs, holds (base this) w vs -> holds (base this) (snd st') vs) /\
     extends w (snd st') (Zseq 0 (Z.to_nat n)) [] (if n =? 0 then 0 else 1)).
Proof.
  split.
  - intros this w [this' w'] Ha.
    change (Std.allocate init n ok (this, w) = Returns (this', w')) in Ha.
    assert (Hk : forall b blk, heap w !! b = Some blk ->
              heap w' !! b = Some blk /\ __ptr this' <> Blk b)
      by (intros; eapply Std_allocate_keeps; eauto).
    split; [exact Hk|]. split.
    + intros vs Hh. eapply holds_transfer; [exact Hh|]. intros b blk Hb.
      by apply Hk.
    + eapply Std_allocate_extends, Ha.
  - intros this w [this' w'] Ha.
    change (Future.allocate init n ok (this, w) = Returns (this', w')) in Ha.
    assert (Hk : forall b blk, heap w !! b = Some blk ->
              heap w' !! b = Some blk /\ __ptr (base this') <> Blk b)
      by (intros; eapply Future_allocate_keeps; eauto).
    split; [exact Hk|]. split.
    + intros vs Hh. eapply holds_transfer; [exact Hh|]. intros b blk Hb.
      by apply Hk.
    + eapply Future_allocate_extends, Ha.
Qed.

(** X5 on running code.  A second [allocate(2)] on [three_ints] in an optimised build: the
    three elements stay alive in block 1 while the object points to
    block 2. *)
Lemma allocate_releases_nothing_witness :
  holds (fst three_ints) (snd three_ints) [0; 0; 0] /\
  allocate (H:=release64) (H0:=int_Element) Init_default 2 true three_ints
    = Returns three_ints_twice /\
  holds (fst three_ints) (snd three_ints_twice) [0; 0; 0] /\
  __ptr (fst three_ints_twice) = Blk 2 /\ __ptr (fst three_ints) = Blk 1.
Proof.
  assert (holds (fst three_ints) (snd three_ints) [0; 0; 0]) as Hh.
  { split; [done|]. simpl. eexists. split; [reflexivity|]. by vm_compute. }
  assert (allocate (H:=release64) (H0:=int_Element) Init_default 2 true
            (fst three_ints, snd three_ints) = Returns three_ints_twice) as Ha
    by (by vm_compute).
  destruct (proj1 (allocate_releases_nothing (H:=release64) (H0:=int_Element)
                     Init_default 2 true) (fst three_ints) (snd three_ints) _ Ha)
    as (_ & Hkeep & _).
  split; [exact Hh|]. split; [exact Ha|]. split; [exact (Hkeep _ Hh)|].
  by vm_compute.
Defined.

(** X6. [allocate(n)] with [n * sizeof(T)] beyond the largest [size_t]
    never returns, in either strategy: the byte count, computed in
    [size_t] and passed to [malloc], has wrapped around, so the block
    cannot take [n] elements.  In the amortized strategy the call has no
    defined behaviour when [malloc] succeeds. *)
Theorem allocate_size_overflow `{Platform} {T : Type} `{Element T}
    (init : Init T) (n : Z) :
  0 < n < Size_modulus -> size_t_modulus <= n * Z.pos sizeof_T ->
  (forall ok (st st' : StdAllocator * World T),
     Std.allocate init n ok st <> Returns st') /\
  (forall ok (st st' : FutureAllocator * World T),
     Future.allocate init n ok st <> Returns st') /\
  (forall st : FutureAllocator * World T, Future.allocate init n true st = Undefined).
Proof.
  intros Hn Hov.
  assert (HF : forall ok (st st' : FutureAllocator * World T),
            Future.allocate init n ok st <> Returns st').
  { intros ok [this w] st' Ha.
    apply Future_allocate_inv in Ha as (cap & _ & [[-> _] | (_ & _ & w2 & Hl & _)]); [lia|].
    eapply construct_loop_fits in Hl; [| by simpl; rewrite lookup_insert_eq | lia].
    simpl in Hl. pose proof (size_mul_range cap (Z.pos sizeof_T)). lia. }
  split; [|split; [exact HF|]].
  - intros ok [this w] st' Ha.
    apply Std_allocate_inv in Ha as [[-> _] | (_ & _ & w2 & Hl & _)]; [lia|].
    eapply construct_loop_fits in Hl; [| by simpl; rewrite lookup_insert_eq | lia].
    simpl in Hl. pose proof (size_mul_range n (Z.pos sizeof_T)). lia.
  - intros [this w].
    destruct (Future.allocate init n true (this, w)) as [st'|st'|msg|] eqn:E; [| | |done].
    + by apply HF in E.
    + exfalso. revert E. unfold Future.allocate, malloc.
      destruct (Float32.scale _ _); [|done].
      destruct (n =? 0); [done|].
      match goal with |- context [match ?x with Some _ => _ | None => _ end] =>
        destruct x end; done.
    + by apply Future_allocate_not_halted in E.
Qed.

(** X6 on running code.  [allocate(2^30)] of four-byte elements where
    [Size] and [size_t] have 32 bits. *)
Lemma allocate_size_overflow_witness :
  (0 < 1073741824 < Size_modulus (H:=release32) /\
   size_t_modulus (H:=release32)
     <= 1073741824 * Z.pos (sizeof_T (Element:=int_Element))) /\
  Future.allocate (H:=release32) (H0:=int_Element) Init_default 1073741824 true
    fresh_future = Undefined.
Proof.
  assert (0 < 1073741824 < Size_modulus (H:=release32)) as Hn by (by vm_compute).
  assert (size_t_modulus (H:=release32)
            <= 1073741824 * Z.pos (sizeof_T (Element:=int_Element))) as Hov
    by (by vm_compute).
  split; [by split|].
  exact (proj2 (proj2 (allocate_size_overflow (H:=release32) (H0:=int_Element)
                         Init_default 1073741824 Hn Hov)) fresh_future).
Defined.

(** X7. [destruct()] on a buffer that holds [n >= 1] elements destructs
    them at the indices [0 .. n-1] and changes nothing else: [count()] still
    reports [n] and the block is still allocated, but no element is
    readable.  A second [destruct()], a [free()] or a [shrink(k)] with
    [0 < k <= n] after it never returns: each would destruct an element a
    second time. *)
Theorem destruct_keeps_the_count `{Platform} {T : Type} `{Element T}
    (this : StdAllocator) (w : World T) (vs : list T) :
  holds this w vs -> vs <> [] ->
  exists w1,
    Std.destruct (this, w) = Some (this, w1) /\
    extends w w1 [] (Zseq 0 (length vs)) 0 /\
    (forall i, at_index i (this, w1) = None) /\
    (forall b, _ptr this = Blk b -> is_Some (heap w1 !! b)) /\
    Std.destruct (this, w1) = None /\
    (forall st', Std.free (this, w1) <> Returns st') /\
    (forall k st', 0 < k <= count this -> count this < Size_modulus ->
       Std._shrink k (this, w1) <> Returns st').
Proof.
  intros Hh Hne.
  destruct (holds_cases _ _ _ Hh) as [(_ & -> & _) | (b & blk & Hp & Hb & Hcells & Hc)];
    [done|].
  destruct (destruct_up_Some b 0 (length vs) w blk Hb) as [w1 Hd].
  { intros i Hi. rewrite Hcells, lookup_cells_of, decide_True by lia.
    apply lookup_lt_is_Some. lia. }
  pose proof (destruct_up_inv _ _ _ _ _ _ Hb Hd) as [_ Hw1].
  assert (Hb1 : heap w1 !! b =
            Some (upd_cells (remove_range 0 (length vs)) blk)).
  { subst w1. simpl. apply lookup_insert_eq. }
  assert (Hdead : forall i, cells (upd_cells (remove_range 0 (length vs)) blk) !! i = None).
  { intros i. simpl. rewrite lookup_remove_range. case_decide; [done|].
    rewrite Hcells, lookup_cells_of. case_decide; [lia | done]. }
  assert (Hn : Z.to_nat (_count this) = S (Nat.pred (length vs))).
  { rewrite Hc, Nat2Z.id. destruct vs; [done | simpl; lia]. }
  assert (Hnot : forall n w', destruct_up (Blk b) 0 (S n) w1 <> Some w').
  { intros n w' Hd'.
    apply (destruct_up_inv _ _ _ _ _ _ Hb1) in Hd' as [Hlive _].
    destruct (Hlive 0 ltac:(lia)) as [v Hv]. by rewrite Hdead in Hv. }
  exists w1. split; [|split; [|split; [|split; [|split; [|split]]]]].
  - unfold Std.destruct. rewrite Hp, Hc, Nat2Z.id, Hd. done.
  - rewrite <- (Zseq_length 0 (length vs)) at 1.
    replace (length (Zseq 0 (length vs))) with (length vs) by (by rewrite Zseq_length).
    eapply destruct_up_extends, Hd.
  - intros i. unfold at_index. cbn [fst snd ptr _ptr StdAllocator_Allocator].
    unfold Std._ptr, read. rewrite Hp, Hb1. simpl. apply Hdead.
  - intros b0 Hb0. change (__ptr this = Blk b0) in Hb0.
    assert (b0 = b) as -> by congruence. by rewrite Hb1.
  - unfold Std.destruct. rewrite Hp, Hn.
    destruct (destruct_up (Blk b) 0 _ w1) eqn:E; [|done]. by apply Hnot in E.
  - intros [this' w'] Hf. apply Std_free_inv in Hf as (w2 & w3 & Hd' & _).
    rewrite Hp, Hn in Hd'. by apply Hnot in Hd'.
  - intros k [this' w'] Hk HM Hs. change (count this) with (_count this) in *.
    apply Std_shrink_inv in Hs as (w2 & Hd' & _).
    rewrite size_sub_exact in Hd' by (unfold is_Size; lia).
    replace (Z.to_nat (_count this - (_count this - k))) with (S (Z.to_nat (k - 1)))
      in Hd' by lia.
    rewrite Hp in Hd'.
    apply (destruct_down_inv _ _ _ _ _ _ Hb1) in Hd' as [Hlive _].
    destruct (Hlive (_count this - 1) ltac:(lia)) as [v Hv]. by rewrite Hdead in Hv.
Qed.

(** X7 on running code.  [destruct()] on [three_ints]. *)
Lemma destruct_keeps_the_count_witness :
  (holds (fst three_ints) (snd three_ints) [0; 0; 0] /\ [0; 0; 0] <> []) /\
  exists w1,
    Std.destruct three_ints = Some (fst three_ints, w1) /\
    Std.destruct (fst three_ints, w1) = None /\
    forall st', Std.free (H:=debug64) (fst three_ints, w1) <> Returns st'.
Proof.
  assert (holds (fst three_ints) (snd three_ints) [0; 0; 0]) as Hh.
  { split; [done|]. simpl. eexists. split; [reflexivity|]. by vm_compute. }
  assert ([0; 0; 0] <> @nil Z) as Hne by discriminate.
  destruct (destruct_keeps_the_count (H:=debug64) (H0:=int_Element)
              (fst three_ints) (snd three_ints) [0; 0; 0] Hh Hne)
    as (w1 & Hd & _ & _ & _ & Hd2 & Hf & _).
  split; [by split|]. exists w1. by repeat split.
Defined.

(** X8. The exact-fit [grow(k)] always moves the buffer.  On a buffer
    holding [vs] in block [b], a call that returns has done exactly this,
    in this order: acquired a block [b'] of [(count + k) * sizeof(T)] bytes
    (the arithmetic in [Size]), copy-constructed [vs] into it at
    [0 .. count-1], destructed the originals at [0 .. count-1], released
    [b], and default-constructed the new elements behind the copies.  The
    old block is gone, so nothing is readable through the old pointer;
    this is so for [grow(0)] as well. *)
Theorem exact_fit_grow_relocates `{Platform} {T : Type} `{Element T}
    (k : Z) (ok : bool) (this this' : StdAllocator)
    (w w' : World T) (vs : list T) (b : positive) :
  holds this w vs -> _ptr this = Blk b ->
  Std._grow k ok (this, w) = Returns (this', w') ->
  let b' := fresh (dom (heap w)) in
  let new_size := size_add (count this) k in
  _ptr this' = Blk b' /\ b' <> b /\
  trace w' =
    trace w ++ [EvMalloc (size_mul new_size (Z.pos sizeof_T)) b']
            ++ constructs b' 0 vs
            ++ map (EvDestruct b) (Zseq 0 (length vs))
            ++ [EvFree b]
            ++ constructs b' (count this)
                 (replicate (Z.to_nat (new_size - count this)) T_default) /\
  heap w' !! b = None /\
  (forall i, read (Blk b) i w' = None).
Proof.
  intros Hh Hp Hg b' new_size. subst b' new_size.
  change (__ptr this = Blk b) in Hp. change (count this) with (_count this).
  change (_ptr this') with (__ptr this').
  pose proof (Std_grow_holds _ _ _ _ _ _ _ Hh Hg) as (_ & _ & _ & Hp' & Hgone).
  apply Std_grow_inv in Hg as (w2 & w3 & w4 & w5 & _ & H2 & H3 & H4 & H5 & Hst).
  injection Hst as -> ->.
  destruct (relocate_holds _ _ _ _ _ _ _ _ Hh H2 H3 H4) as [Hb4 _].
  destruct (relocate_trace _ _ _ _ _ _ _ _ _ Hh Hp H2 H3 H4) as [Hne Htr].
  pose proof Hh as [Hc _]. rewrite Hc in H5 at 1.
  apply (append_defaults_trace _ _ _ _ _ _ Hb4) in H5.
  split; [done|]. split; [done|]. split; [|split].
  - rewrite H5, Htr, Hc. by rewrite <- !app_assoc.
  - by apply Hgone.
  - intros i. unfold read. by rewrite (Hgone _ Hp).
Qed.

(** X8 on running code.  [grow(2)] on [three_ints]: the ten events. *)
Lemma exact_fit_grow_relocates_witness :
  (holds (fst three_ints) (snd three_ints) [0; 0; 0] /\
   Std._ptr (fst three_ints) = Blk 1 /\
   Std._grow (H:=debug64) (H0:=int_Element) 2 true three_ints = Returns five_ints) /\
  Std._ptr (fst five_ints) = Blk 2 /\
  trace (snd five_ints) =
    trace (snd three_ints)
      ++ [EvMalloc 20 2; EvConstruct 2 0 0; EvConstruct 2 1 0; EvConstruct 2 2 0;
          EvDestruct 1 0; EvDestruct 1 1; EvDestruct 1 2; EvFree 1;
          EvConstruct 2 3 0; EvConstruct 2 4 0].
Proof.
  assert (holds (fst three_ints) (snd three_ints) [0; 0; 0]) as Hh.
  { split; [done|]. simpl. eexists. split; [reflexivity|]. by vm_compute. }
  assert (Std._ptr (fst three_ints) = Blk 1) as Hp by reflexivity.
  assert (Std._grow (H:=debug64) (H0:=int_Element) 2 true (fst three_ints, snd three_ints)
            = Returns (fst five_ints, snd five_ints)) as Hg by (by vm_compute).
  destruct (exact_fit_grow_relocates (H:=debug64) (H0:=int_Element) 2 true
              (fst three_ints) (fst five_ints) (snd three_ints) (snd five_ints)
              [0; 0; 0] 1%positive Hh Hp Hg) as (Hp' & _ & Htr & _).
  split; [split; [exact Hh | split; [exact Hp | exact Hg]]|].
  split; [exact Hp'|]. exact Htr.
Defined.

(** X9. [shrink(k)] followed by [grow(k)], for [k <= count], restores
    the count but not the contents: the elements below [count - k] are the
    ones held before and the last [k] elements equal [T()].  In the
    amortized strategy, when the count was within the capacity, the pair
    keeps the block and the capacity and acquires no memory. *)
Theorem shrink_then_grow `{Platform} {T : Type} `{Element T} (k : Z) (vs : list T) :
  0 <= k <= Z.of_nat (length vs) -> is_Size (Z.of_nat (length vs)) ->
  (forall ok (this : StdAllocator) w st1 st2,
     holds this w vs ->
     shrink k (this, w) = Returns st1 -> grow k ok st1 = Returns st2 ->
     count (fst st2) = count this /\
     (forall i, 0 <= i < count this - k ->
        at_index i st2 = at_index i (this, w) /\ is_Some (at_index i st2)) /\
     (forall i, count this - k <= i < count this -> at_index i st2 = Some T_default)) /\
  (forall ok (this : FutureAllocator) w st1 st2,
     holds (base this) w vs ->
     shrink k (this, w) = Returns st1 -> grow k ok st1 = Returns st2 ->
     count (fst st2) = count this /\
     (forall i, 0 <= i < count this - k ->
        at_index i st2 = at_index i (this, w) /\ is_Some (at_index i st2)) /\
     (forall i, count this - k <= i < count this -> at_index i st2 = Some T_default) /\
     (count this <= capacity this ->
        ptr (fst st2) = ptr this /\ capacity (fst st2) = capacity this /\
        acquisitions (trace (snd st2)) = acquisitions (trace w))).
Proof.
  intros Hk HM. pose proof HM as HM'. unfold is_Size in HM'. split.
  - intros ok this w [this1 w1] [this2 w2] Hh Hs Hg.
    change (Std._shrink k (this, w) = Returns (this1, w1)) in Hs.
    change (Std._grow k ok (this1, w1) = Returns (this2, w2)) in Hg.
    change (count this) with (_count this).
    pose proof Hh as [Hc _].
    pose proof (Std_shrink_holds _ _ _ _ _ _ Hh Hs) as (Hh1 & Hc1 & _).
    rewrite Hc, size_sub_exact in Hh1, Hc1 by (done || lia).
    rewrite Z.min_r in Hc1 by lia.
    pose proof (Std_grow_holds _ _ _ _ _ _ _ Hh1 Hg) as (Hh2 & _).
    rewrite Hc1 in Hh2.
    replace (size_add (Z.of_nat (length vs) - k) k) with (Z.of_nat (length vs)) in Hh2
      by (rewrite size_add_exact; lia).
    replace (Z.of_nat (length vs) - (Z.of_nat (length vs) - k)) with k in Hh2 by lia.
    rewrite Hc. exact (shrunk_grown_buffer _ _ _ _ _ _ Hk Hh Hh2).
  - intros ok this w [this1 w1] [this2 w2] Hh Hs Hg.
    change (Future._shrink k (this, w) = Returns (this1, w1)) in Hs.
    change (Future._grow k ok (this1, w1) = Returns (this2, w2)) in Hg.
    change (count this) with (_count (base this)).
    change (capacity this) with (_cap (base this)).
    pose proof Hh as [Hc _].
    pose proof (Future_shrink_holds _ _ _ _ _ _ Hh Hs) as (Hh1 & Hc1 & Hcap1 & Hp1 & _).
    pose proof (Future_shrink_extends _ _ _ _ _ Hs) as Hext1. cbv zeta in Hext1.
    rewrite Hc, size_sub_exact in Hh1, Hc1 by (done || lia).
    rewrite Z.min_r in Hc1 by lia.
    pose proof (Future_grow_holds _ _ _ _ _ _ _ Hh1 Hg) as (Hh2 & _ & _ & Hcase).
    pose proof (Future_grow_extends _ _ _ _ _ _ Hg) as Hext2. cbv zeta in Hext2.
    rewrite Hc1 in Hh2, Hcase, Hext2.
    replace (size_add (Z.of_nat (length vs) - k) k) with (Z.of_nat (length vs))
      in Hh2, Hcase, Hext2 by (rewrite size_add_exact; lia).
    replace (Z.of_nat (length vs) - (Z.of_nat (length vs) - k)) with k in Hh2 by lia.
    rewrite Hc.
    destruct (shrunk_grown_buffer _ _ _ _ _ _ Hk Hh Hh2) as (E1 & E2 & E3).
    split; [exact E1|]. split; [exact E2|]. split; [exact E3|].
    intros Hle. rewrite Hcap1 in Hcase, Hext2.
    destruct (Z.ltb_spec (_cap (base this)) (Z.of_nat (length vs))) as [|_]; [lia|].
    destruct Hcase as [(? & _) | (_ & Hcap2 & Hp2)]; [lia|].
    split; [change (__ptr (base this2) = __ptr (base this)); congruence|].
    split; [change (_cap (base this2) = _cap (base this)); congruence|].
    cbn [snd].
    rewrite (extends_acquisitions _ _ _ _ _ Hext2), (extends_acquisitions _ _ _ _ _ Hext1).
    lia.
Qed.

(** X9 on running code.  [shrink(1)] then [grow(1)] on the amortized buffer
    [three_ints_future]. *)
Lemma shrink_then_grow_witness :
  (0 <= 1 <= Z.of_nat (length [0; 0; 0]) /\
   is_Size (H:=debug64) (Z.of_nat (length [0; 0; 0]))) /\
  holds (base (fst three_ints_future)) (snd three_ints_future) [0; 0; 0] /\
  exists st1 st2,
    shrink (H:=debug64) (H0:=int_Element) 1 three_ints_future = Returns st1 /\
    grow (H:=debug64) (H0:=int_Element) 1 true st1 = Returns st2 /\
    Future.count (fst st2) = 3 /\ Future._ptr (fst st2) = Future._ptr (fst three_ints_future) /\
    at_index (H:=debug64) (H0:=int_Element) 2 st2 = Some 0.
Proof.
  assert (0 <= 1 <= Z.of_nat (length [0; 0; 0])) as Hk by (simpl; lia).
  assert (is_Size (H:=debug64) (Z.of_nat (length [0; 0; 0]))) as HM by (by vm_compute).
  assert (holds (base (fst three_ints_future)) (snd three_ints_future) [0; 0; 0]) as Hh.
  { split; [done|]. simpl. eexists. split; [reflexivity|]. by vm_compute. }
  destruct (shrink_then_grow (H:=debug64) (H0:=int_Element) 1 [0; 0; 0] Hk HM)
    as [_ Hfut].
  split; [by split|]. split; [exact Hh|].
  eexists _, _. split; [by vm_compute|]. split; [by vm_compute|].
  edestruct (Hfut true (fst three_ints_future) (snd three_ints_future)) as (Hc & _ & Hd & Hin);
    [exact Hh | by vm_compute | by vm_compute |].
  split; [exact Hc|]. split; [apply Hin; by vm_compute|].
  apply (Hd 2). by vm_compute.
Defined.

(** X10. In the amortized strategy, after an [allocate(n)] that returns
    with a capacity whose byte count [capacity * sizeof(T)] fits [size_t]
    (so that the block has room for the capacity), a [grow(k)] that stays
    within the capacity always returns, whether or not the heap has memory
    left: it keeps the block, the pointer and the capacity, constructs
    [T()] at [n .. n+k-1], destructs nothing, acquires no block, and leaves
    the elements below [n] as they were. *)
Theorem amortized_grow_within_capacity `{Platform} {T : Type} `{Element T}
    (init : Init T) (n k : Z) (ok1 : bool)
    (st0 st1 : FutureAllocator * World T) :
  0 <= n -> 0 <= k ->
  allocate init n ok1 st0 = Returns st1 ->
  n + k <= capacity (fst st1) ->
  capacity (fst st1) * Z.pos sizeof_T < size_t_modulus ->
  forall ok, exists st2,
    grow k ok st1 = Returns st2 /\
    count (fst st2) = n + k /\
    capacity (fst st2) = capacity (fst st1) /\
    ptr (fst st2) = ptr (fst st1) /\
    extends (snd st1) (snd st2) (Zseq n (Z.to_nat k)) [] 0 /\
    (forall i, 0 <= i < n -> at_index i st2 = at_index i st1) /\
    (forall i, n <= i < n + k -> at_index i st2 = Some T_default).
Proof.
  intros Hn Hk Ha Hcap Hfit ok. destruct st0 as [this0 w0], st1 as [this1 w1].
  change (Future.allocate init n ok1 (this0, w0) = Returns (this1, w1)) in Ha.
  change (n + k <= _cap (base this1)) in Hcap.
  change (_cap (base this1) * Z.pos sizeof_T < size_t_modulus) in Hfit.
  destruct (Future_allocate_holds _ _ _ _ _ _ _ Hn Ha)
    as (vs & Hh & Hlen & _ & Hscale & _).
  pose proof (Future_allocate_roomy_size_t _ _ _ _ _ _ _ Ha Hfit) as Hroomy.
  pose proof Hh as [Hc _]. rewrite Hlen in Hc.
  assert (HM : n + k < Size_modulus).
  { pose proof (scale_range _ _ _ Hscale) as Hrange. lia. }
  assert (Hns : size_add (_count (base this1)) k = n + k).
  { rewrite Hc. apply size_add_exact; lia. }
  destruct (Future_grow_returns k this1 w1 vs Hh Hroomy Hk) as [[this2 w2] Hg].
  { rewrite Hc. exact HM. }
  { rewrite Hc. intros Hlt. lia. }
  destruct (Future_grow_holds _ _ _ _ _ _ _ Hh Hg) as (Hh2 & Hc2 & _ & Hcase2).
  rewrite Hns in Hh2, Hc2, Hcase2.
  replace (n + k - _count (base this1)) with k in Hh2 by lia.
  assert (Hcap2 : _cap (base this2) = _cap (base this1)).
  { destruct Hcase2 as [(? & _) | (_ & Hs & _)]; [lia | exact Hs]. }
  exists (this2, w2).
  assert (Hg' : Future._grow k ok (this1, w1) = Returns (this2, w2)).
  { rewrite Future_grow_in_place; [done | lia]. }
  split; [exact Hg'|].
  pose proof (Future_grow_holds _ _ _ _ _ _ _ Hh Hg) as (_ & _ & _ & Hcase).
  pose proof (Future_grow_extends _ _ _ _ _ _ Hg) as Hext. cbv zeta in Hext.
  rewrite Hns in Hext, Hcase.
  destruct (Z.ltb_spec (_cap (base this1)) (n + k)) as [|_]; [lia|].
  destruct Hcase as [(? & _) | (_ & _ & Hp)]; [lia|].
  split; [change (_count (base this2) = n + k); lia|].
  split; [exact Hcap2|]. split; [exact Hp|].
  split; [rewrite Hc in Hext; by replace (n + k - n) with k in Hext by lia|].
  split.
  - intros i Hi. unfold at_index. cbn [fst snd ptr _ptr FutureAllocator_Allocator].
    unfold Future._ptr, Std._ptr.
    rewrite (holds_at _ _ _ i Hh2), (holds_at _ _ _ i Hh).
    rewrite length_app, length_replicate, !decide_True by lia.
    apply lookup_app_l. lia.
  - intros i Hi. unfold at_index. cbn [fst snd ptr _ptr FutureAllocator_Allocator].
    unfold Future._ptr, Std._ptr.
    rewrite (holds_at _ _ _ i Hh2).
    rewrite length_app, length_replicate, decide_True by lia.
    rewrite lookup_app_r by lia. apply lookup_replicate_2. lia.
Qed.

(** X10 on running code.  [allocate(3)] reserves four elements; [grow(1)] then returns with
    the heap refusing every request. *)
Lemma amortized_grow_within_capacity_witness :
  (0 <= 3 /\ 0 <= 1 /\
   allocate (H:=debug64) (H0:=int_Element) Init_default 3 true fresh_future
     = Returns three_ints_future /\
   3 + 1 <= Future.capacity (fst three_ints_future) /\
   Future.capacity (fst three_ints_future) * Z.pos (sizeof_T (Element:=int_Element))
     < size_t_modulus (H:=debug64)) /\
  exists st2,
    grow (H:=debug64) (H0:=int_Element) 1 false three_ints_future = Returns st2 /\
    Future.count (fst st2) = 3 + 1 /\ Future._ptr (fst st2) = Future._ptr (fst three_ints_future).
Proof.
  assert (allocate (H:=debug64) (H0:=int_Element) Init_default 3 true fresh_future
            = Returns three_ints_future) as Ha by (by vm_compute).
  assert (3 + 1 <= Future.capacity (fst three_ints_future)) as Hcap by (by vm_compute).
  assert (Future.capacity (fst three_ints_future) * Z.pos (sizeof_T (Element:=int_Element))
            < size_t_modulus (H:=debug64)) as Hfit by (by vm_compute).
  destruct (amortized_grow_within_capacity (H:=debug64) (H0:=int_Element)
              Init_default 3 1 true fresh_future three_ints_future
              ltac:(lia) ltac:(lia) Ha Hcap Hfit false)
    as (st2 & Hg & Hc & _ & Hp & _).
  split; [repeat split; (lia || done)|]. by exists st2.
Defined.

(** X11. A buffer that has been freed can be allocated again.  When the
    contract check lets [free] pass, [allocate(n, ...)] on the state a
    returning exact-fit [free] has left returns (the heap obliging, [n]
    elements fitting a [Size]), with [count() == n], the elements as the
    initialiser gives them and nothing readable behind them. *)
Theorem allocate_after_free `{Platform} {T : Type} `{Element T}
    (init : Init T) (n : Z) (st st1 : StdAllocator * World T) :
  NDEBUG = true \/ CHI_ASSERT_halts_on = true ->
  free st = Returns st1 ->
  0 <= n -> n * Z.pos sizeof_T < Size_modulus ->
  (forall i, 0 <= i < n -> is_Some (init_value init i)) ->
  exists st2,
    allocate init n true st1 = Returns st2 /\
    count (fst st2) = n /\
    (forall i, 0 <= i < n -> at_index i st2 = init_value init i) /\
    (forall i, n <= i -> at_index i st2 = None).
Proof.
  intros Hbuild Hf Hn Hfit Hinit. destruct st as [this w], st1 as [this1 w1].
  change (Std.free (this, w) = Returns (this1, w1)) in Hf.
  apply Std_free_inv in Hf as (w2 & w3 & _ & _ & Hst). injection Hst as -> ->.
  match goal with |- context [allocate init n true (?t, ?w)] =>
    destruct (Std_allocate_returns init n t w) as [[this2 w2'] Ha]; try done end.
  { unfold CHI_ASSERT. simpl. destruct NDEBUG; [done|].
    destruct Hbuild as [|Hon]; [done|]. by rewrite Hon. }
  exists (this2, w2'). split; [exact Ha|].
  destruct (Std_allocate_holds _ _ _ _ _ _ _ Hn Ha) as (vs & Hh & Hlen & Hvs & _).
  split; [|split].
  - change (_count this2 = n). destruct Hh as [-> _]. exact Hlen.
  - intros i Hi. unfold at_index. cbn [fst snd ptr _ptr StdAllocator_Allocator].
    unfold Std._ptr. rewrite (holds_at _ _ _ i Hh), decide_True by lia.
    destruct (Hinit i Hi) as [v Hv]. rewrite Hv.
    destruct (vs !! Z.to_nat i) as [v'|] eqn:E.
    + apply Hvs in E. rewrite Z2Nat.id in E by lia. congruence.
    + apply lookup_ge_None in E. lia.
  - intros i Hi. unfold at_index. cbn [fst snd ptr _ptr StdAllocator_Allocator].
    unfold Std._ptr. by rewrite (holds_at _ _ _ i Hh), decide_False by lia.
Qed.

(** X11 on running code.  [free] on [three_ints], then [allocate(2, 7)]. *)
Lemma allocate_after_free_witness :
  ((NDEBUG (Platform:=debug64) = true \/ CHI_ASSERT_halts_on (Platform:=debug64) = true) /\
   free (H:=debug64) (H0:=int_Element) three_ints = Returns freed_three_ints /\
   0 <= 2 /\
   2 * Z.pos (sizeof_T (Element:=int_Element)) < Size_modulus (H:=debug64) /\
   forall i, 0 <= i < 2 -> is_Some (init_value (H:=int_Element) (Init_fill 7) i)) /\
  exists st2,
    allocate (H:=debug64) (H0:=int_Element) (Init_fill 7) 2 true freed_three_ints
      = Returns st2 /\
    Std.count (fst st2) = 2 /\
    at_index (H:=debug64) (H0:=int_Element) 1 st2 = Some 7.
Proof.
  assert (free (H:=debug64) (H0:=int_Element) three_ints = Returns freed_three_ints)
    as Hf by (by vm_compute).
  assert (2 * Z.pos (sizeof_T (Element:=int_Element)) < Size_modulus (H:=debug64))
    as Hfit by (by vm_compute).
  assert (forall i, 0 <= i < 2 -> is_Some (init_value (H:=int_Element) (Init_fill 7) i))
    as Hinit by (intros i _; simpl; eauto).
  destruct (allocate_after_free (H:=debug64) (H0:=int_Element) (Init_fill 7) 2
              three_ints freed_three_ints (or_intror eq_refl) Hf ltac:(lia) Hfit Hinit)
    as (st2 & Ha & Hc & Hv & _).
  split; [split; [by right | by repeat split]|].
  exists st2. split; [exact Ha|]. split; [exact Hc|].
  rewrite (Hv 1) by lia. reflexivity.
Defined.

(** X12. After an exact-fit [free] on a buffer that held [n >= 1]
    elements, [count()] still reports [n] but no element is readable, and
    [grow(k)], [shrink(k)] with [0 < k <= n] and a second [free] never
    return: each would touch the elements behind the released pointer. *)
Theorem freed_buffer_is_unusable `{Platform} {T : Type} `{Element T}
    (this : StdAllocator) (w : World T) (vs : list T)
    (st1 : StdAllocator * World T) :
  holds this w vs -> vs <> [] -> is_Size (Z.of_nat (length vs)) ->
  free (this, w) = Returns st1 ->
  count (fst st1) = Z.of_nat (length vs) /\
  (forall i, at_index i st1 = None) /\
  (forall k ok st2, grow k ok st1 <> Returns st2) /\
  (forall k st2, 0 < k <= Z.of_nat (length vs) -> shrink k st1 <> Returns st2) /\
  (forall st2, free st1 <> Returns st2).
Proof.
  intros Hh Hne HM Hf. destruct st1 as [this1 w1].
  change (Std.free (this, w) = Returns (this1, w1)) in Hf.
  destruct (Std_free_dangling _ _ _ _ _ Hh Hf) as [Hc Hdead].
  pose proof Hh as [Hlen _]. rewrite Hlen in Hc.
  assert (Hn : Z.to_nat (_count this1) = S (Nat.pred (length vs))).
  { rewrite Hc, Nat2Z.id. destruct vs; [done | simpl; lia]. }
  split; [exact Hc|]. split; [exact Hdead|]. split; [|split].
  - intros k ok [this2 w2] Hg.
    change (Std._grow k ok (this1, w1) = Returns (this2, w2)) in Hg.
    apply Std_grow_inv in Hg as (w3 & w4 & w5 & w6 & _ & H2 & _).
    rewrite Hn in H2. apply construct_loop_reads in H2 as [v Hv].
    revert Hv. unfold read. destruct (__ptr this1) as [| |b] eqn:Hp; try done.
    simpl. specialize (Hdead 0). unfold read in Hdead.
    destruct (decide (b = fresh (dom (heap w1)))) as [->|Hb].
    + by rewrite lookup_insert_eq.
    + rewrite lookup_insert_ne by done. by rewrite Hdead.
  - intros k [this2 w2] Hk Hs.
    change (Std._shrink k (this1, w1) = Returns (this2, w2)) in Hs.
    apply Std_shrink_inv in Hs as (w3 & Hd & _).
    rewrite size_sub_exact in Hd by (rewrite Hc; first [done | lia]).
    replace (Z.to_nat (_count this1 - (_count this1 - k))) with (S (Z.to_nat (k - 1)))
      in Hd by lia.
    simpl in Hd. apply bind_Some in Hd as (w4 & Hd & _).
    apply destroy_reads in Hd as [v Hv]. by rewrite Hdead in Hv.
  - intros [this2 w2] Hf2.
    change (Std.free (this1, w1) = Returns (this2, w2)) in Hf2.
    apply Std_free_inv in Hf2 as (w3 & w4 & Hd & _).
    rewrite Hn in Hd. simpl in Hd. apply bind_Some in Hd as (w5 & Hd & _).
    apply destroy_reads in Hd as [v Hv]. by rewrite Hdead in Hv.
Qed.

(** X12 on running code.  [free] on [three_ints], debug build. *)
Lemma freed_buffer_is_unusable_witness :
  (holds (fst three_ints) (snd three_ints) [0; 0; 0] /\ [0; 0; 0] <> [] /\
   is_Size (H:=debug64) (Z.of_nat (length [0; 0; 0])) /\
   free (H:=debug64) (H0:=int_Element) three_ints = Returns freed_three_ints) /\
  Std.count (fst freed_three_ints) = 3 /\
  at_index (H:=debug64) (H0:=int_Element) 0 freed_three_ints = None /\
  forall k ok st2, grow (H:=debug64) (H0:=int_Element) k ok freed_three_ints <> Returns st2.
Proof.
  assert (holds (fst three_ints) (snd three_ints) [0; 0; 0]) as Hh.
  { split; [done|]. simpl. eexists. split; [reflexivity|]. by vm_compute. }
  assert ([0; 0; 0] <> @nil Z) as Hne by discriminate.
  assert (is_Size (H:=debug64) (Z.of_nat (length [0; 0; 0]))) as HM by (by vm_compute).
  assert (free (H:=debug64) (H0:=int_Element) (fst three_ints, snd three_ints)
            = Returns freed_three_ints) as Hf by (by vm_compute).
  destruct (freed_buffer_is_unusable (H:=debug64) (H0:=int_Element)
              (fst three_ints) (snd three_ints) [0; 0; 0] freed_three_ints
              Hh Hne HM Hf) as (Hc & Hdead & Hg & _).
  split; [split; [exact Hh | split; [exact Hne | split; [exact HM | exact Hf]]]|].
  split; [exact Hc|]. split; [apply Hdead | exact Hg].
Defined.

(** X13. [resize] leaves by [AllocException] only on its growing path
    with [malloc] failing, and then the object and the heap are exactly as
    they were; in the amortized strategy only when the new count exceeds
    the capacity.  In the exact-fit strategy a growing [resize] with
    [malloc] failing always throws.  [resize] is never halted by a contract
    check, in any build. *)
Theorem resize_failure_changes_nothing `{Platform} {T : Type} `{Element T}
    (c : Z) (ok : bool) :
  (forall st st' : StdAllocator * World T,
     resize c ok st = Throws st' ->
     st' = st /\ ok = false /\ count (fst st) < c) /\
  (forall st st' : FutureAllocator * World T,
     resize c ok st = Throws st' ->
     st' = st /\ ok = false /\ count (fst st) < c /\
     capacity (fst st) < size_add (count (fst st)) (size_sub c (count (fst st)))) /\
  (forall st : StdAllocator * World T,
     count (fst st) < c -> resize c false st = Throws st) /\
  (forall (st : StdAllocator * World T) msg, resize c ok st <> Halts msg) /\
  (forall (st : FutureAllocator * World T) msg, resize c ok st <> Halts msg).
Proof.
  split; [|split; [|split; [|split]]].
  - intros [this w] st'. unfold resize, grow, shrink.
    cbn [fst count StdAllocator_Allocator _grow _shrink]. unfold Std.count.
    destruct (Z.ltb_spec (_count this) c) as [Hlt|_].
    + intros Hg. pose proof (Std_grow_thrown _ _ _ _ Hg).
      by apply Std_grow_throws in Hg.
    + destruct (_ <? _); [|done]. intros Hs. by apply Std_shrink_not_thrown in Hs.
  - intros [this w] st'. unfold resize, grow, shrink.
    cbn [fst count capacity FutureAllocator_Allocator _grow _shrink].
    unfold Future.count, Future.capacity, Std.count, Std.capacity.
    destruct (Z.ltb_spec (_count (base this)) c) as [Hlt|_].
    + intros Hg. destruct (Future_grow_thrown _ _ _ _ Hg) as [-> Hcap].
      by apply Future_grow_throws in Hg.
    + destruct (_ <? _); [|done]. intros Hs. by apply Future_shrink_not_thrown in Hs.
  - intros [this w]. unfold resize, grow. cbn [fst count StdAllocator_Allocator _grow].
    unfold Std.count. intros Hlt. apply Z.ltb_lt in Hlt. rewrite Hlt.
    unfold Std._grow. by rewrite malloc_fail.
  - intros [this w] msg. unfold resize, grow, shrink.
    cbn [fst count StdAllocator_Allocator _grow _shrink].
    destruct (_ <? _); [apply Std_grow_not_halted|].
    destruct (_ <? _); [apply Std_shrink_not_halted | done].
  - intros [this w] msg. unfold resize, grow, shrink.
    cbn [fst count FutureAllocator_Allocator _grow _shrink].
    destruct (_ <? _); [apply Future_grow_not_halted|].
    destruct (_ <? _); [apply Future_shrink_not_halted | done].
Qed.

(** X13 on running code.  [resize(5)] on [three_ints] with the heap refusing. *)
Lemma resize_failure_changes_nothing_witness :
  Std.count (fst three_ints) < 5 /\
  resize (H:=debug64) (H0:=int_Element) 5 false three_ints = Throws three_ints.
Proof.
  assert (Std.count (fst three_ints) < 5) as Hlt by (by vm_compute).
  split; [exact Hlt|].
  exact (proj1 (proj2 (proj2 (resize_failure_changes_nothing (H:=debug64)
           (H0:=int_Element) 5 false))) three_ints Hlt).
Defined.

(** X14. [shrink(k)] with [k <= count] always returns on a buffer that
    holds its elements: [count()] drops by [k], [capacity()] and [ptr()] are
    unchanged, the elements below the new count are the ones held before,
    nothing is readable from the new count on, the destructor calls are at
    [count-1] down to [count-k], and every block of the heap keeps its
    size: no memory is given back.  In both strategies. *)
Theorem shrink_destructs_the_tail `{Platform} {T : Type} `{Element T}
    (k : Z) (vs : list T) :
  0 <= k <= Z.of_nat (length vs) -> is_Size (Z.of_nat (length vs)) ->
  (forall (this : StdAllocator) w, holds this w vs ->
     exists st',
       shrink k (this, w) = Returns st' /\
       count (fst st') = count this - k /\
       capacity (fst st') = capacity this /\ ptr (fst st') = ptr this /\
       (forall i, 0 <= i < count this - k -> at_index i st' = at_index i (this, w)) /\
       (forall i, count this - k <= i -> at_index i st' = None) /\
       extends w (snd st') [] (rev (Zseq (count this - k) (Z.to_nat k))) 0 /\
       (forall b blk, heap w !! b = Some blk ->
          exists blk', heap (snd st') !! b = Some blk' /\ bytes blk' = bytes blk)) /\
  (forall (this : FutureAllocator) w, holds (base this) w vs ->
     exists st',
       shrink k (this, w) = Returns st' /\
       count (fst st') = count this - k /\
       capacity (fst st') = capacity this /\ ptr (fst st') = ptr this /\
       (forall i, 0 <= i < count this - k -> at_index i st' = at_index i (this, w)) /\
       (forall i, count this - k <= i -> at_index i st' = None) /\
       extends w (snd st') [] (rev (Zseq (count this - k) (Z.to_nat k))) 0 /\
       (forall b blk, heap w !! b = Some blk ->
          exists blk', heap (snd st') !! b = Some blk' /\ bytes blk' = bytes blk)).
Proof.
  intros Hk HM. split.
  - intros this w Hh.
    destruct (Std_shrink_tail k this w vs Hk HM Hh)
      as (this' & w' & Hs & Hh' & Hc & Hcap & Hp & Hext & Hbytes).
    pose proof Hh as [Hlen _].
    destruct (holds_prefix this this' w w' vs (_count this - k) ltac:(lia) Hh Hh')
      as [Hkeep Hout].
    exists (this', w'). by repeat (split; [done|]).
  - intros this w Hh.
    destruct (Std_shrink_tail k (base this) w vs Hk HM Hh)
      as (b' & w' & Hs & Hh' & Hc & Hcap & Hp & Hext & Hbytes).
    pose proof Hh as [Hlen _].
    destruct (holds_prefix (base this) b' w w' vs (_count (base this) - k)
                ltac:(lia) Hh Hh') as [Hkeep Hout].
    exists (Future.with_base this b', w'). split.
    + change (Future._shrink k (this, w) = Returns (Future.with_base this b', w')).
      unfold Future._shrink, Future.inherited. cbn [fst snd]. by rewrite Hs.
    + by repeat (split; [done|]).
Qed.

(** X14 on running code.  [shrink(2)] on the exact-fit buffer [five_ints]. *)
Lemma shrink_destructs_the_tail_witness :
  (0 <= 2 <= Z.of_nat (length [0; 0; 0; 0; 0]) /\
   is_Size (H:=debug64) (Z.of_nat (length [0; 0; 0; 0; 0]))) /\
  holds (fst five_ints) (snd five_ints) [0; 0; 0; 0; 0] /\
  exists st',
    shrink (H:=debug64) (H0:=int_Element) 2 five_ints = Returns st' /\
    Std.count (fst st') = 3 /\ Std.capacity (fst st') = 5 /\
    at_index (H:=debug64) (H0:=int_Element) 3 st' = None.
Proof.
  assert (0 <= 2 <= Z.of_nat (length [0; 0; 0; 0; 0])) as Hk by (simpl; lia).
  assert (is_Size (H:=debug64) (Z.of_nat (length [0; 0; 0; 0; 0]))) as HM
    by (by vm_compute).
  assert (holds (fst five_ints) (snd five_ints) [0; 0; 0; 0; 0]) as Hh.
  { split; [done|]. simpl. eexists. split; [reflexivity|]. by vm_compute. }
  destruct (proj1 (shrink_destructs_the_tail (H:=debug64) (H0:=int_Element) 2
                     [0; 0; 0; 0; 0] Hk HM) (fst five_ints) (snd five_ints) Hh)
    as (st' & Hs & Hc & Hcap & _ & _ & Hout & _).
  split; [by split|]. split; [exact Hh|].
  exists st'. split; [exact Hs|]. split; [exact Hc|]. split; [exact Hcap|].
  apply Hout. by vm_compute.
Defined.

(** X15. The check in the constructor compares with [<] only, so it
    accepts a multiplier that is NaN or plus infinity (when the contract
    check halts on a true condition, or is compiled out).  With such a
    multiplier the product [multiplier * count] has no value as a [Size]:
    every [allocate], and every [grow] beyond the capacity, has no defined
    behaviour. *)
Theorem multiplier_that_is_no_number `{Platform} {T : Type} `{Element T}
    (m : Float32.float) :
  NDEBUG = true \/ CHI_ASSERT_halts_on = true ->
  m = S754_nan \/ m = S754_infinity false ->
  Future.new m = Returns {| base := Std.new; multiplier := m |} /\
  (forall n, Float32.scale m n = None) /\
  (forall init n ok (b : StdAllocator) (w : World T),
     allocate init n ok ({| base := b; multiplier := m |}, w) = Undefined) /\
  (forall k ok (b : StdAllocator) (w : World T),
     capacity b < size_add (count b) k ->
     grow k ok ({| base := b; multiplier := m |}, w) = Undefined).
Proof.
  intros Hbuild Hm.
  assert (Hscale : forall n, Float32.scale m n = None).
  { intros n. unfold Float32.scale, Float32.mul.
    destruct Hm as [-> | ->]; [done|].
    by destruct (Float32.of_Size n) as [[|]|[|]| |[|]]. }
  split; [|split; [exact Hscale|split]].
  - unfold Future.new, CHI_ASSERT.
    assert (Float32.ltb m Float32.one = false) as -> by (by destruct Hm as [-> | ->]).
    destruct NDEBUG; [done|]. destruct Hbuild as [|Hon]; [done|]. by rewrite Hon.
  - intros init n ok b w.
    change (Future.allocate init n ok ({| base := b; multiplier := m |}, w) = Undefined).
    unfold Future.allocate. cbn [multiplier]. by rewrite Hscale.
  - intros k ok b w Hlt.
    change (Future._grow k ok ({| base := b; multiplier := m |}, w) = Undefined).
    change (_cap b < size_add (_count b) k) in Hlt. apply Z.ltb_lt in Hlt.
    unfold Future._grow. cbn [base multiplier]. by rewrite Hlt, Hscale.
Qed.

(** X15 on running code.  The multiplier NaN in an optimised build. *)
Lemma multiplier_that_is_no_number_witness :
  ((NDEBUG (Platform:=release64) = true \/ CHI_ASSERT_halts_on (Platform:=release64) = true) /\
   (S754_nan = S754_nan \/ S754_nan = S754_infinity false)) /\
  Future.new (H:=release64) S754_nan
    = Returns {| base := Std.new; multiplier := S754_nan |} /\
  Future.allocate (H:=release64) (H0:=int_Element) Init_default 3 true
    ({| base := Std.new; multiplier := S754_nan |}, empty_world) = Undefined.
Proof.
  destruct (multiplier_that_is_no_number (H:=release64) (T:=Z) (H0:=int_Element)
              S754_nan (or_introl eq_refl) (or_introl eq_refl)) as (Hnew & _ & Ha & _).
  split; [split; by left|]. split; [exact Hnew|].
  exact (Ha Init_default 3 true Std.new empty_world).
Defined.

(** X16. [allocate(n, copy)] on an allocator without a block, with the
    heap obliging: when [copy] gives at least [n] elements the call returns
    and the buffer holds the first [n] of them, in order, and nothing else;
    when [copy] gives fewer than [n] the call has no defined behaviour (it
    reads behind the source). *)
Theorem allocate_from_a_copy `{Platform} {T : Type} `{Element T}
    (copy : list T) (n : Z) (this : StdAllocator) (w : World T) :
  NDEBUG = true \/ CHI_ASSERT_halts_on = true ->
  _ptr this = Null -> 0 <= n -> n * Z.pos sizeof_T < Size_modulus ->
  (n <= Z.of_nat (length copy) ->
   exists st',
     allocate (Init_ptr copy) n true (this, w) = Returns st' /\
     count (fst st') = n /\
     (forall i, 0 <= i < n -> at_index i st' = copy !! Z.to_nat i) /\
     (forall i, n <= i -> at_index i st' = None)) /\
  (Z.of_nat (length copy) < n ->
   allocate (Init_ptr copy) n true (this, w) = Undefined).
Proof.
  intros Hbuild Hp Hn Hfit. change (__ptr this = Null) in Hp.
  assert (Hcheck : CHI_ASSERT (negb (pointer_eqb (__ptr this) Null)
              && negb (pointer_eqb (__ptr this) MinusOne))
    "Allocating with StdAllocator while already allocated, this is a memory leak"
    = None).
  { rewrite Hp. unfold CHI_ASSERT. simpl. destruct NDEBUG; [done|].
    destruct Hbuild as [|Hon]; [done|]. by rewrite Hon. }
  split.
  - intros Hlen.
    destruct (Std_allocate_returns (Init_ptr copy) n this w Hcheck Hn Hfit)
      as [[this' w'] Ha].
    { intros i Hi. simpl. destruct (Z.leb_spec 0 i); [|lia].
      apply lookup_lt_is_Some. lia. }
    exists (this', w'). split; [exact Ha|].
    destruct (Std_allocate_holds _ _ _ _ _ _ _ Hn Ha) as (vs & Hh & Hl & Hvs & _).
    split; [|split].
    + change (_count this' = n). destruct Hh as [-> _]. exact Hl.
    + intros i Hi. unfold at_index. cbn [fst snd ptr _ptr StdAllocator_Allocator].
      unfold Std._ptr. rewrite (holds_at _ _ _ i Hh), decide_True by lia.
      destruct (vs !! Z.to_nat i) as [v|] eqn:E.
      * apply Hvs in E. simpl in E. rewrite Z2Nat.id in E by lia.
        destruct (Z.leb_spec 0 i); [|lia]. done.
      * apply lookup_ge_None in E. lia.
    + intros i Hi. unfold at_index. cbn [fst snd ptr _ptr StdAllocator_Allocator].
      unfold Std._ptr. by rewrite (holds_at _ _ _ i Hh), decide_False by lia.
  - intros Hshort.
    change (Std.allocate (Init_ptr copy) n true (this, w) = Undefined).
    unfold Std.allocate. rewrite Hcheck.
    destruct (Z.eqb_spec n 0) as [|_]; [lia|]. unfold malloc.
    destruct (construct_loop _ _ _ _ _) as [w2|] eqn:E; [|done]. exfalso.
    pose proof (construct_loop_source _ (init_value (Init_ptr copy)) _ _ _ _ E
                  (Z.of_nat (length copy)) ltac:(lia)) as [v Hv].
    simpl in Hv. destruct (Z.leb_spec 0 (Z.of_nat (length copy))); [|lia].
    rewrite Nat2Z.id in Hv. apply lookup_lt_Some in Hv. lia.
Qed.

(** X16 on running code.  Two elements copied from [7, 8, 9], and two asked from [7]. *)
Lemma allocate_from_a_copy_witness :
  ((NDEBUG (Platform:=debug64) = true \/ CHI_ASSERT_halts_on (Platform:=debug64) = true) /\
   Std._ptr Std.new = Null /\ 0 <= 2 /\
   2 * Z.pos (sizeof_T (Element:=int_Element)) < Size_modulus (H:=debug64)) /\
  (exists st',
     allocate (H:=debug64) (H0:=int_Element) (Init_ptr [7; 8; 9]) 2 true fresh_std
       = Returns st' /\
     Std.count (fst st') = 2 /\
     at_index (H:=debug64) (H0:=int_Element) 1 st' = Some 8 /\
     at_index (H:=debug64) (H0:=int_Element) 2 st' = None) /\
  allocate (H:=debug64) (H0:=int_Element) (Init_ptr [7]) 2 true fresh_std = Undefined.
Proof.
  assert (2 * Z.pos (sizeof_T (Element:=int_Element)) < Size_modulus (H:=debug64))
    as Hfit by (by vm_compute).
  destruct (allocate_from_a_copy (H:=debug64) (H0:=int_Element) [7; 8; 9] 2
              Std.new empty_world (or_intror eq_refl) eq_refl ltac:(lia) Hfit)
    as (Hlong & _).
  destruct (allocate_from_a_copy (H:=debug64) (H0:=int_Element) [7] 2
              Std.new empty_world (or_intror eq_refl) eq_refl ltac:(lia) Hfit)
    as (_ & Hshort).
  destruct (Hlong ltac:(simpl; lia)) as (st' & Ha & Hc & Hv & Hout).
  split; [split; [by right | by repeat split]|]. split.
  - exists st'. split; [exact Ha|]. split; [exact Hc|].
    split; [rewrite (Hv 1) by lia; reflexivity | apply Hout; lia].
  - apply Hshort. simpl. lia.
Defined.

(** X17. The two strategies hold the same elements.  After the same
    [allocate(n, ...)] and the same sequence of [grow], [shrink] and
    [resize], both runs returning, [count()] agrees and [operator[]] gives
    the same element at every index. *)
Theorem strategies_hold_the_same_elements `{Platform} {T : Type} `{Element T}
    (init : Init T) (n : Z) (ok : bool)
    (ops : list (Op T)) (st0_s st_s : StdAllocator * World T)
    (st0_f st_f : FutureAllocator * World T) :
  0 <= n -> forallb resizing ops = true ->
  run (OpAllocate init n ok :: ops) st0_s = Returns st_s ->
  run (OpAllocate init n ok :: ops) st0_f = Returns st_f ->
  count (fst st_s) = count (fst st_f) /\
  forall i, at_index i st_s = at_index i st_f.
Proof.
  intros Hn Hops. destruct st0_s as [s0 ws0], st0_f as [f0 wf0].
  destruct st_s as [s' ws'], st_f as [f' wf']. cbn [run step].
  change (@allocate _ T _ StdAllocator _) with (@Std.allocate _ T _).
  change (@allocate _ T _ FutureAllocator _) with (@Future.allocate _ T _).
  destruct (Std.allocate init n ok (s0, ws0)) as [[s1 ws1]| | |] eqn:E1; try done.
  destruct (Future.allocate init n ok (f0, wf0)) as [[f1 wf1]| | |] eqn:E2; try done.
  destruct (Std_allocate_holds _ _ _ _ _ _ _ Hn E1) as (vs1 & Hs1 & Hl1 & Hv1 & _).
  destruct (Future_allocate_holds _ _ _ _ _ _ _ Hn E2) as (vs2 & Hf1 & Hl2 & Hv2 & _).
  assert (vs2 = vs1) as ->.
  { apply (values_determined _ _ (fun k => init_value init (Z.of_nat k))); [lia|done|done]. }
  intros R1 R2.
  destruct (run_same_elements _ _ _ _ _ _ _ _ _ _ Hops Hs1 Hf1 R1 R2) as (vs' & Hs & Hf).
  split.
  - change (_count s' = _count (base f')). destruct Hs as [-> _]. by destruct Hf as [-> _].
  - intros i. unfold at_index.
    cbn [fst snd ptr _ptr StdAllocator_Allocator FutureAllocator_Allocator].
    unfold Future._ptr, Std._ptr.
    by rewrite (holds_at _ _ _ i Hs), (holds_at _ _ _ i Hf).
Qed.

(** X17 on running code.  [allocate(3)], [grow(2)], [shrink(1)], [resize(7)]: seven elements
    in both strategies. *)
Lemma strategies_hold_the_same_elements_witness :
  (0 <= 3 /\ forallb resizing some_resizing = true /\
   run (H:=debug64) (H0:=int_Element)
     (OpAllocate Init_default 3 true :: some_resizing) fresh_std = Returns resized_std /\
   run (H:=debug64) (H0:=int_Element)
     (OpAllocate Init_default 3 true :: some_resizing) fresh_future
     = Returns resized_future) /\
  Std.count (fst resized_std) = Future.count (fst resized_future) /\
  Std.count (fst resized_std) = 7 /\
  Std.capacity (fst resized_std) = 7 /\ Future.capacity (fst resized_future) = 7 /\
  at_index (H:=debug64) (H0:=int_Element) 6 resized_std
    = at_index (H:=debug64) (H0:=int_Element) 6 resized_future.
Proof.
  assert (run (H:=debug64) (H0:=int_Element)
            (OpAllocate Init_default 3 true :: some_resizing) fresh_std
          = Returns resized_std) as R1 by (by vm_compute).
  assert (run (H:=debug64) (H0:=int_Element)
            (OpAllocate Init_default 3 true :: some_resizing) fresh_future
          = Returns resized_future) as R2 by (by vm_compute).
  destruct (strategies_hold_the_same_elements (H:=debug64) (H0:=int_Element)
              Init_default 3 true some_resizing _ _ _ _ ltac:(lia) eq_refl R1 R2)
    as [Hc Hv].
  split; [by repeat split|]. split; [exact Hc|]. split; [by vm_compute|].
  split; [by vm_compute|]. split; [by vm_compute|]. apply Hv.
Defined.

(** X18. With the default multiplier 1.5 the capacity is [3 * n / 2]
    rounded down, for every [n] with [3 * n < 2^24] (so up to 5592405):
    the conversion of [n] to [float] and the product are exact, and the
    conversion back truncates.  So [allocate(n)] leaves
    [capacity() == 3 * n / 2], and a [grow] to [n] elements beyond the
    capacity leaves the same. *)
Theorem default_multiplier_capacity `{Platform} {T : Type} `{Element T} (n : Z) :
  0 <= n -> 3 * n < 16777216 -> 3 * n / 2 < Size_modulus ->
  Float32.scale Float32.one_and_a_half n = Some (3 * n / 2) /\
  (forall init ok (this : FutureAllocator) (w : World T) st',
     multiplier this = Float32.one_and_a_half ->
     allocate init n ok (this, w) = Returns st' ->
     capacity (fst st') = 3 * n / 2 /\ count (fst st') = n) /\
  (forall k ok (this : FutureAllocator) (w : World T) st',
     multiplier this = Float32.one_and_a_half ->
     size_add (count this) k = n -> capacity this < n ->
     grow k ok (this, w) = Returns st' ->
     capacity (fst st') = 3 * n / 2 /\ count (fst st') = Z.max (count this) n).
Proof.
  intros Hn H3 HM.
  pose proof (scale_one_and_a_half_exact n Hn H3 HM) as Hscale.
  split; [exact Hscale|]. split.
  - intros init ok this w [this' w'] Hm Ha.
    change (Future.allocate init n ok (this, w) = Returns (this', w')) in Ha.
    destruct (Future_allocate_holds _ _ _ _ _ _ _ Hn Ha) as (vs & Hh & Hlen & _ & Hcap & _).
    rewrite Hm, Hscale in Hcap. injection Hcap as Hcap.
    split; [by symmetry|].
    change (_count (base this') = n). destruct Hh as [-> _]. exact Hlen.
  - intros k ok this w [this' w'] Hm Hnew Hlt Hg.
    change (Future._grow k ok (this, w) = Returns (this', w')) in Hg.
    change (size_add (_count (base this)) k = n) in Hnew.
    change (_cap (base this) < n) in Hlt.
    apply Future_grow_inv in Hg as
      [(_ & _ & cap & w2 & w3 & w4 & w5 & Hcap & _ & _ & _ & _ & Hst) | (Hle & _)].
    + rewrite Hm, Hnew, Hscale in Hcap. injection Hcap as <-.
      injection Hst as -> _. rewrite Hnew. by split.
    + cbv zeta in Hle. lia.
Qed.

(** X18 on running code.  Five million elements: capacity 7500000. *)
Lemma default_multiplier_capacity_witness :
  (0 <= 5000000 /\ 3 * 5000000 < 16777216 /\
   3 * 5000000 / 2 < Size_modulus (H:=release64)) /\
  Float32.scale (H:=release64) Float32.one_and_a_half 5000000 = Some 7500000.
Proof.
  assert (3 * 5000000 / 2 < Size_modulus (H:=release64)) as HM by (by vm_compute).
  split; [repeat split; (lia || exact HM)|].
  exact (proj1 (default_multiplier_capacity (H:=release64) (T:=Z) (H0:=int_Element)
                  5000000 ltac:(lia) ltac:(lia) HM)).
Defined.

(** X19. When the product [multiplier * n] comes out below [n], the
    amortized [allocate(n)] never returns: the block is reserved for
    fewer elements than the call constructs, so the call has no defined
    behaviour when [malloc] succeeds.  The same holds for a [grow] to [n]
    elements beyond the capacity, on a buffer that holds fewer than [n].
    An optimised build, whose constructor checks nothing, accepts the
    multiplier 0.5, with this effect. *)
Theorem capacity_below_count `{Platform} {T : Type} `{Element T}
    (m : Float32.float) (n cap : Z) :
  Float32.scale m n = Some cap -> cap < n ->
  (forall init ok (this : FutureAllocator) (w : World T) st',
     multiplier this = m -> allocate init n ok (this, w) <> Returns st') /\
  (forall init (this : FutureAllocator) (w : World T),
     multiplier this = m -> allocate init n true (this, w) = Undefined) /\
  (forall k ok (this : FutureAllocator) (w : World T) vs st',
     multiplier this = m -> holds (base this) w vs ->
     size_add (count this) k = n -> capacity this < n -> count this < n ->
     grow k ok (this, w) <> Returns st').
Proof.
  intros Hscale Hlt. pose proof (scale_range _ _ _ Hscale) as Hcap.
  split; [|split].
  - intros init ok this w st' Hm. apply (Future_allocate_short _ _ _ cap); [by rewrite Hm | done].
  - intros init this w Hm. apply (Future_allocate_short_undefined _ _ cap); [by rewrite Hm | done].
  - intros k ok this w vs [this' w'] Hm Hh Hnew Hcaplt Hclt Hg.
    change (Future._grow k ok (this, w) = Returns (this', w')) in Hg.
    change (size_add (_count (base this)) k = n) in Hnew.
    change (_cap (base this) < n) in Hcaplt. change (_count (base this) < n) in Hclt.
    apply Future_grow_inv in Hg as
      [(_ & _ & cap0 & w2 & w3 & w4 & w5 & Hs & H2 & H3 & H4 & H5 & _) | (Hle & _)].
    + rewrite Hm, Hnew, Hscale in Hs. injection Hs as <-.
      destruct (relocate_holds _ _ _ _ _ _ _ _ Hh H2 H3 H4) as [Hb4 _].
      rewrite Hnew in H5.
      eapply construct_loop_fits in H5; [| exact Hb4 | lia].
      simpl in H5.
      assert (size_mul cap (Z.pos sizeof_T) <= cap * Z.pos sizeof_T)
    by (apply size_mul_le; lia).
      pose proof Hh as [Hc _].
      rewrite Z2Nat.id in H5 by lia. nia.
    + cbv zeta in Hle. lia.
Qed.

(** X19 on running code.  The multiplier 0.5 in an optimised build:
    [allocate(4)] reserves two elements. *)
Lemma capacity_below_count_witness :
  (Float32.scale (H:=release64) one_half 4 = Some 2 /\ 2 < 4) /\
  Future.new (H:=release64) one_half
    = Returns {| base := Std.new; multiplier := one_half |} /\
  Future.allocate (H:=release64) (H0:=int_Element) Init_default 4 true
    ({| base := Std.new; multiplier := one_half |}, empty_world) = Undefined.
Proof.
  assert (Float32.scale (H:=release64) one_half 4 = Some 2) as Hs by (by vm_compute).
  destruct (capacity_below_count (H:=release64) (T:=Z) (H0:=int_Element)
              one_half 4 2 Hs ltac:(lia)) as (_ & Hu & _).
  split; [by split|]. split; [reflexivity|].
  exact (Hu Init_default {| base := Std.new; multiplier := one_half |} empty_world
           eq_refl).
Defined.

(** X20. The multiplier 1.0, which the constructor accepts, makes the
    amortized strategy reserve exactly [n] elements for every [n] up to
    [2^24]: [allocate(n)] that returns leaves [capacity() == count() == n].
    At [n = 2^24 + 1] the conversion of the count to [float] rounds down,
    the capacity is [2^24], and [allocate] has no defined behaviour. *)
Theorem multiplier_one `{Platform} {T : Type} `{Element T} :
  16777217 < Size_modulus ->
  (forall n, 0 <= n <= 16777216 -> Float32.scale Float32.one n = Some n) /\
  (forall init n ok (this : FutureAllocator) (w : World T) st',
     multiplier this = Float32.one -> 0 <= n <= 16777216 ->
     allocate init n ok (this, w) = Returns st' ->
     capacity (fst st') = n /\ count (fst st') = n) /\
  Float32.scale Float32.one 16777217 = Some 16777216 /\
  (forall init (this : FutureAllocator) (w : World T),
     multiplier this = Float32.one ->
     allocate init 16777217 true (this, w) = Undefined).
Proof.
  intros HM.
  assert (Hexact : forall n, 0 <= n <= 16777216 -> Float32.scale Float32.one n = Some n).
  { intros n Hn. destruct (Z.eq_dec n 16777216) as [->|].
    - apply (scale_any_platform release64 H); [by vm_compute | lia].
    - apply scale_one_exact; lia. }
  assert (Hnext : Float32.scale Float32.one 16777217 = Some 16777216).
  { apply (scale_any_platform release64 H); [by vm_compute | lia]. }
  split; [exact Hexact|]. split; [|split; [exact Hnext|]].
  - intros init n ok this w [this' w'] Hm Hn Ha.
    change (Future.allocate init n ok (this, w) = Returns (this', w')) in Ha.
    assert (0 <= n) as Hn0 by lia.
    destruct (Future_allocate_holds _ _ _ _ _ _ _ Hn0 Ha)
      as (vs & Hh & Hlen & _ & Hcap & _).
    rewrite Hm, Hexact in Hcap by done. injection Hcap as Hcap.
    split; [by symmetry|]. change (_count (base this') = n).
    destruct Hh as [-> _]. exact Hlen.
  - intros init this w Hm.
    apply (Future_allocate_short_undefined _ _ 16777216); [by rewrite Hm | lia].
Qed.

(** X20 on running code, 64-bit [Size]. *)
Lemma multiplier_one_witness :
  16777217 < Size_modulus (H:=release64) /\
  Float32.scale (H:=release64) Float32.one 1000 = Some 1000 /\
  Float32.scale (H:=release64) Float32.one 16777217 = Some 16777216.
Proof.
  assert (16777217 < Size_modulus (H:=release64)) as HM by (by vm_compute).
  destruct (multiplier_one (H:=release64) (T:=Z) (H0:=int_Element) HM)
    as (He & _ & Hn & _).
  split; [exact HM|]. split; [apply He; lia | exact Hn].
Defined.

(** X21. The exact-fit strategy has defined behaviour within its
    contract.  On a buffer that holds its elements, every sequence of
    [grow(k)], [shrink(k)] with [k] at most the count at that point, and
    [resize(c)], with the heap obliging and every size fitting [Size] in
    bytes, returns; [count()] is then the count the calls add up to, every
    index below it holds an element and none from it on. *)
Theorem exact_fit_calls_in_contract_return `{Platform} {T : Type} `{Element T}
    (ops : list (Op T)) (c' : Z) (this : StdAllocator) (w : World T) (vs : list T) :
  holds this w vs -> is_Size (Z.of_nat (length vs)) ->
  in_contract ops (Z.of_nat (length vs)) = Some c' ->
  exists st',
    run ops (this, w) = Returns st' /\ count (fst st') = c' /\
    (forall i, 0 <= i < c' -> is_Some (at_index i st')) /\
    (forall i, c' <= i -> at_index i st' = None).
Proof.
  intros Hh HM Hin.
  destruct (Std_run_in_contract ops c' this w vs Hh HM Hin)
    as (this' & w' & vs' & Hr & Hh' & Hl).
  exists (this', w'). split; [exact Hr|]. split.
  - change (_count this' = c'). destruct Hh' as [-> _]. exact Hl.
  - split; intros i Hi; unfold at_index; cbn [fst snd ptr _ptr StdAllocator_Allocator];
      unfold Std._ptr; rewrite (holds_at _ _ _ i Hh').
    + rewrite decide_True by lia. apply lookup_lt_is_Some. lia.
    + by rewrite decide_False by lia.
Qed.

(** X21 on running code: [grow(2)], [shrink(1)], [resize(7)] on
    [three_ints]. *)
Lemma exact_fit_calls_in_contract_return_witness :
  (holds (fst three_ints) (snd three_ints) [0; 0; 0] /\
   is_Size (H:=debug64) (Z.of_nat (length [0; 0; 0])) /\
   in_contract (H:=debug64) (H0:=int_Element) some_resizing
     (Z.of_nat (length [0; 0; 0])) = Some 7) /\
  exists st',
    run (H:=debug64) (H0:=int_Element) some_resizing three_ints = Returns st' /\
    Std.count (fst st') = 7.
Proof.
  assert (holds (fst three_ints) (snd three_ints) [0; 0; 0]) as Hh.
  { split; [done|]. simpl. eexists. split; [reflexivity|]. by vm_compute. }
  assert (is_Size (H:=debug64) (Z.of_nat (length [0; 0; 0]))) as HM by (by vm_compute).
  assert (in_contract (H:=debug64) (H0:=int_Element) some_resizing
            (Z.of_nat (length [0; 0; 0])) = Some 7) as Hin by (by vm_compute).
  destruct (exact_fit_calls_in_contract_return (H:=debug64) (H0:=int_Element)
              some_resizing 7 (fst three_ints) (snd three_ints) [0; 0; 0] Hh HM Hin)
    as (st' & Hr & Hc & _).
  split; [split; [exact Hh | by split]|]. exists st'. by split.
Defined.

(** X22. The amortized strategy with the default multiplier 1.5 has
    defined behaviour within its contract.  From a freshly constructed
    allocator, or after an [allocate(n)] on it, every such sequence of
    [grow], [shrink] and [resize] returns as long as every count [n] that
    exceeds the capacity has [3 * n < 2^24] and [3 * n / 2] elements fit
    [Size] in bytes; [count()] and [capacity()] are then the ones the calls
    add up to, the capacity changing only when a count exceeds it, to
    [3 * n / 2]. *)
Theorem amortized_calls_in_contract_return `{Platform} {T : Type} `{Element T}
    (ops : list (Op T)) (c' cap' : Z) (w : World T) :
  (in_contract_amortized ops 0 0 = Some (c', cap') ->
   exists st',
     run ops ({| base := Std.new; multiplier := Float32.one_and_a_half |}, w)
       = Returns st' /\
     count (fst st') = c' /\ capacity (fst st') = cap' /\
     (forall i, 0 <= i < c' -> is_Some (at_index i st')) /\
     (forall i, c' <= i -> at_index i st' = None)) /\
  (forall init n,
     0 <= n -> 3 * n < 16777216 -> 3 * n / 2 * Z.pos sizeof_T < Size_modulus ->
     (forall i, 0 <= i < n -> is_Some (init_value init i)) ->
     in_contract_amortized ops n (3 * n / 2) = Some (c', cap') ->
     exists st',
       run (OpAllocate init n true :: ops)
         ({| base := Std.new; multiplier := Float32.one_and_a_half |}, w)
         = Returns st' /\
       count (fst st') = c' /\ capacity (fst st') = cap' /\
       (forall i, 0 <= i < c' -> is_Some (at_index i st')) /\
       (forall i, c' <= i -> at_index i st' = None)).
Proof.
  assert (Hpos : 0 < Z.pos (sizeof_T (T:=T))) by lia.
  assert (Hfinish : forall (this : FutureAllocator) w0 vs,
    holds (base this) w0 vs -> roomy (base this) w0 ->
    multiplier this = Float32.one_and_a_half ->
    _cap (base this) * Z.pos sizeof_T < Size_modulus ->
    is_Size (Z.of_nat (length vs)) ->
    in_contract_amortized ops (Z.of_nat (length vs)) (_cap (base this)) = Some (c', cap') ->
    exists st',
      run ops (this, w0) = Returns st' /\
      count (fst st') = c' /\ capacity (fst st') = cap' /\
      (forall i, 0 <= i < c' -> is_Some (at_index i st')) /\
      (forall i, c' <= i -> at_index i st' = None)).
  { intros this w0 vs Hh Hroomy Hm Hfit HM Hin.
    destruct (Future_run_in_contract ops c' cap' this w0 vs Hh Hroomy Hm Hfit HM Hin)
      as (this' & w' & vs' & Hr & Hh' & Hl & Hcap).
    exists (this', w'). split; [exact Hr|]. split.
    { change (_count (base this') = c'). destruct Hh' as [-> _]. exact Hl. }
    split; [exact Hcap|].
    split; intros i Hi; unfold at_index;
      cbn [fst snd ptr _ptr FutureAllocator_Allocator];
      unfold Future._ptr, Std._ptr; rewrite (holds_at _ _ _ i Hh').
    - rewrite decide_True by lia. apply lookup_lt_is_Some. lia.
    - by rewrite decide_False by lia. }
  assert (HM0 : 0 < Size_modulus) by (apply Z.pow_pos_nonneg; lia).
  split.
  - intros Hin.
    apply (Hfinish {| base := Std.new; multiplier := Float32.one_and_a_half |} w []);
      first [done | cbn; lia | unfold is_Size; simpl; lia].
  - intros init n Hn H3 Hfit Hinit Hin.
    assert (n <= 3 * n / 2) as Hle by (apply Z.div_le_lower_bound; lia).
    assert (3 * n / 2 < Size_modulus) as HM by nia.
    pose proof (scale_one_and_a_half_exact n Hn H3 HM) as Hscale.
    destruct (Future_allocate_returns init n (3 * n / 2)
                {| base := Std.new; multiplier := Float32.one_and_a_half |} w
                Hn Hscale Hle Hfit Hinit) as [[this1 w1] Ha].
    destruct (Future_allocate_holds _ _ _ _ _ _ _ Hn Ha)
      as (vs & Hh & Hlen & _ & Hcap & Hm).
    cbn [multiplier] in Hcap, Hm. rewrite Hscale in Hcap. injection Hcap as Hcap.
    assert (roomy (base this1) w1) as Hroomy.
    { eapply Future_allocate_roomy; [exact Ha|]. by rewrite <- Hcap. }
    destruct (Hfinish this1 w1 vs Hh Hroomy Hm) as (st' & Hr & Hrest).
    + by rewrite <- Hcap.
    + rewrite Hlen. unfold is_Size. lia.
    + by rewrite Hlen, <- Hcap.
    + exists st'. split; [|exact Hrest]. cbn [run step].
      change (@allocate _ T _ FutureAllocator _) with (@Future.allocate _ T _).
      by rewrite Ha.
Qed.

(** X22 on running code: [grow(3)], [grow(2)], [shrink(1)], [resize(7)]
    on a fresh allocator. *)
Lemma amortized_calls_in_contract_return_witness :
  in_contract_amortized (H:=debug64) (H0:=int_Element)
    (OpGrow 3 true :: some_resizing) 0 0 = Some (7, 7) /\
  exists st',
    run (H:=debug64) (H0:=int_Element) (OpGrow 3 true :: some_resizing) fresh_future
      = Returns st' /\
    Future.count (fst st') = 7 /\ Future.capacity (fst st') = 7.
Proof.
  assert (in_contract_amortized (H:=debug64) (H0:=int_Element)
            (OpGrow 3 true :: some_resizing) 0 0 = Some (7, 7)) as Hin
    by (by vm_compute).
  destruct (proj1 (amortized_calls_in_contract_return (H:=debug64) (H0:=int_Element)
                     (OpGrow 3 true :: some_resizing) 7 7 empty_world) Hin)
    as (st' & Hr & Hc & Hcap & _).
  split; [exact Hin|]. exists st'. by repeat split.
Defined.
